(** * IES4 military database analysis suite: graph builder, filter system
      and statistics generator, embedded from the Python sources

    The three modules [src/graph_builder.py], [src/filter_system.py] and
    [src/statistics_generator.py] are translated function by function, with
    the one method of [military_database_analyzer_v3.py] that chains the
    merge and the build.
    Python values are an inductive type of JSON-shaped values, a raised
    exception is the [Raise] branch of a result type, a [dict] is an
    insertion-ordered association list, a [set] of node ids is a [gset], and
    the networkx graph is a record of its node dictionary and its edge list.
    For the question whether [apply_filters] writes to the graph it is
    given, the filter system is embedded a second time over a store of
    objects, with the graph and its attribute dictionaries held by
    reference.

    What the embedding leaves out: floats among the JSON values (an edge
    weight is the exact rational 1, a centrality is a rational; the quality
    scores are binary64 floats), characters above code point 255, node ids
    that are not strings, the order in which a copied subgraph lists its
    nodes, and logging. *)

From Stdlib Require Import ZArith QArith Qminmax String Ascii List DecimalString.
From Stdlib Require Import SpecFloat.
From stdpp Require Import gmap strings list sorting.

Open Scope string_scope.
Set Warnings "-clear-no-such-hyp".

(** ** Python values and the primitive operations the sources use *)

Module Py.

(** Exceptions the translated code can raise.  [NotModelled] marks what the
    embedding leaves out: node ids that are hashable but not strings (the
    sources annotate node ids as [str]), and, in the store-passing
    functions, a reference to no object or to an object of another kind,
    which Python never has. *)
Inductive exn :=
| TypeError | AttributeError | ValueError | KeyError | IndexError | NotModelled.

Inductive res (A : Type) :=
| Ok (a : A)
| Raise (e : exn).
Arguments Ok {A} a.
Arguments Raise {A} e.

#[global] Instance res_ret : MRet res := @Ok.
#[global] Instance res_bind : MBind res :=
  λ A B f m, match m with Ok a => f a | Raise e => Raise e end.
#[global] Instance res_fmap : FMap res :=
  λ A B f m, match m with Ok a => Ok (f a) | Raise e => Raise e end.

#[global] Instance exn_eq_dec : EqDecision exn.
Proof. solve_decision. Defined.

(** [for x in l: acc = body(acc, x)], stopping at the first exception. *)
Fixpoint foldM {A B} (f : B → A → res B) (acc : B) (l : list A) : res B :=
  match l with
  | [] => Ok acc
  | x :: l' => acc' ← f acc x; foldM f acc' l'
  end.

(** JSON-shaped values: what [json.load] yields, floats left out. *)
#[local] Unset Elimination Schemes.
Inductive pyval :=
| VNone
| VBool (b : bool)
| VInt (z : Z)
| VStr (s : string)
| VList (l : list pyval)
| VDict (d : list (string * pyval)).
#[local] Set Elimination Schemes.

(** A Python [dict] with string keys, in insertion order. *)
Definition dict := list (string * pyval).

Fixpoint assoc_get {V} (k : string) (d : list (string * V)) : option V :=
  match d with
  | [] => None
  | (k', v) :: d' => if String.eqb k k' then Some v else assoc_get k d'
  end.

(** [d[k] = v]: an existing key keeps its position, a new key goes last. *)
Fixpoint assoc_set {V} (k : string) (v : V) (d : list (string * V))
  : list (string * V) :=
  match d with
  | [] => [(k, v)]
  | (k', v') :: d' =>
      if String.eqb k k' then (k', v) :: d' else (k', v') :: assoc_set k v d'
  end.

Definition assoc_mem {V} (k : string) (d : list (string * V)) : bool :=
  match assoc_get k d with Some _ => true | None => false end.

(** [list(d.keys())] *)
Definition keys {V} (d : list (string * V)) : list string := map fst d.

(** [d.update(e)] *)
Definition dict_update (d e : dict) : dict :=
  fold_left (λ acc kv, assoc_set kv.1 kv.2 acc) e d.

(** [d.get(k, default)] on a value known to be a dict *)
Definition dict_get_default (d : dict) (k : string) (default : pyval) : pyval :=
  match assoc_get k d with Some v => v | None => default end.

(** [bool(v)] *)
Definition truthy (v : pyval) : bool :=
  match v with
  | VNone => false
  | VBool b => b
  | VInt z => negb (Z.eqb z 0)
  | VStr s => negb (String.eqb s "")
  | VList l => match l with [] => false | _ => true end
  | VDict d => match d with [] => false | _ => true end
  end.

(** [a == b]; [True == 1] and [False == 0] as in Python, dictionaries
    compared as mappings. *)
Fixpoint py_eq (a b : pyval) : bool :=
  match a, b with
  | VNone, VNone => true
  | VBool x, VBool y => Bool.eqb x y
  | VBool x, VInt y => Z.eqb (Z.b2z x) y
  | VInt x, VBool y => Z.eqb x (Z.b2z y)
  | VInt x, VInt y => Z.eqb x y
  | VStr x, VStr y => String.eqb x y
  | VList x, VList y =>
      (fix go (x y : list pyval) : bool :=
         match x, y with
         | [], [] => true
         | a' :: x', b' :: y' => py_eq a' b' && go x' y'
         | _, _ => false
         end) x y
  | VDict x, VDict y =>
      Nat.eqb (length x) (length y) &&
      (fix go (x : list (string * pyval)) : bool :=
         match x with
         | [] => true
         | (k, v) :: x' =>
             match assoc_get k y with
             | Some w => py_eq v w
             | None => false
             end && go x'
         end) x
  | _, _ => false
  end.

(** *** Strings.  A character is a code point below 256 (Latin-1). *)

Definition lower_char (c : ascii) : ascii :=
  let n := N_of_ascii c in
  if ((65 <=? n) && (n <=? 90))%N then ascii_of_N (n + 32)
  else if ((192 <=? n) && (n <=? 222) && negb (n =? 215))%N
       then ascii_of_N (n + 32)
  else c.

(** [s.lower()] *)
Fixpoint lower (s : string) : string :=
  match s with
  | EmptyString => EmptyString
  | String c s' => String (lower_char c) (lower s')
  end.

Fixpoint startswith (s p : string) : bool :=
  match p with
  | EmptyString => true
  | String a p' =>
      match s with
      | EmptyString => false
      | String b s' => Ascii.eqb a b && startswith s' p'
      end
  end.

(** [needle in hay] on strings; also [hay.find(needle) != -1] *)
Fixpoint contains (needle hay : string) : bool :=
  startswith hay needle ||
  match hay with
  | EmptyString => false
  | String _ hay' => contains needle hay'
  end.

(** [s.endswith(suffix)] *)
Fixpoint endswith (s suffix : string) : bool :=
  String.eqb s suffix ||
  match s with
  | EmptyString => false
  | String _ s' => endswith s' suffix
  end.

(** [s.split(sep)] for a one-character separator: [cur] is the piece being
    read, reversed. *)
Fixpoint split_aux (sep : ascii) (s : string) (cur : string) : list string :=
  match s with
  | EmptyString => [String.rev cur]
  | String c s' =>
      if Ascii.eqb c sep then String.rev cur :: split_aux sep s' EmptyString
      else split_aux sep s' (String c cur)
  end.

Definition split (sep : ascii) (s : string) : list string :=
  split_aux sep s EmptyString.

(** The characters [int] skips around a literal: tab to carriage return,
    space, and the two Latin-1 spaces above 127 (next line and no-break
    space).  The separators 28 to 31 are not among them. *)
Definition is_space (c : ascii) : bool :=
  let n := N_of_ascii c in
  (((9 <=? n) && (n <=? 13)) || (n =? 32) || (n =? 133) || (n =? 160))%N.

Fixpoint lstrip (s : string) : string :=
  match s with
  | String c s' => if is_space c then lstrip s' else s
  | EmptyString => EmptyString
  end.

Definition strip (s : string) : string :=
  String.rev (lstrip (String.rev (lstrip s))).

Definition digit_of (c : ascii) : option Z :=
  let n := N_of_ascii c in
  if ((48 <=? n) && (n <=? 57))%N then Some (Z.of_N (n - 48)) else None.

(** Digits of an integer literal after the sign: groups of digits separated
    by single underscores.  [after_digit] tells whether the previous
    character was a digit. *)
Fixpoint parse_digits (s : string) (acc : Z) (after_digit : bool) : option Z :=
  match s with
  | EmptyString => if after_digit then Some acc else None
  | String c s' =>
      match digit_of c with
      | Some d => parse_digits s' (10 * acc + d) true
      | None =>
          if Ascii.eqb c "_" && after_digit then
            match s' with
            | String c' _ =>
                match digit_of c' with
                | Some _ => parse_digits s' acc false
                | None => None
                end
            | EmptyString => None
            end
          else None
      end
  end.

(** Number of digit characters of a literal, underscores left out. *)
Fixpoint count_digits (s : string) : N :=
  match s with
  | EmptyString => 0
  | String c s' =>
      match digit_of c with
      | Some _ => N.succ (count_digits s')
      | None => count_digits s'
      end
  end.

(** [sys.get_int_max_str_digits()], at its default. *)
Definition int_max_str_digits : N := 4300.

(** [int(s)] for a string, base 10.  A literal of more than
    [int_max_str_digits] digits is a [ValueError], as a malformed one is. *)
Definition int_of_string (s : string) : res Z :=
  let body := strip s in
  let '(neg, ds) :=
    match body with
    | String "-" r => (true, r)
    | String "+" r => (false, r)
    | _ => (false, body)
    end in
  match parse_digits ds 0 false with
  | Some z =>
      if (int_max_str_digits <? count_digits ds)%N then Raise ValueError
      else Ok (if neg then (- z)%Z else z)
  | None => Raise ValueError
  end.

(** [int(v)] *)
Definition py_int (v : pyval) : res Z :=
  match v with
  | VInt z => Ok z
  | VBool b => Ok (Z.b2z b)
  | VStr s => int_of_string s
  | VNone | VList _ | VDict _ => Raise TypeError
  end.

(** *** Floats.  A Python [float] is an IEEE 754 binary64 number: 53 bits
    of precision, exponents below 1024, every operation rounded to nearest
    with ties to even. *)

Definition float := spec_float.
Definition prec : Z := 53.
Definition emax : Z := 1024.

(** [x + y], [x * y], [x < y] and [x <= y] on floats *)
Definition float_add : float → float → float := SFadd prec emax.
Definition float_mul : float → float → float := SFmul prec emax.
Definition float_lt : float → float → bool := SFltb.
Definition float_le : float → float → bool := SFleb.

(** An int as an operand of [/]: the integer itself, not yet rounded. *)
Definition exact_int (z : Z) : float :=
  match z with
  | Z0 => S754_zero false
  | Zpos p => S754_finite false p 0
  | Zneg p => S754_finite true p 0
  end.

(** [a / b] on ints, for [b] other than zero: the quotient of the two
    integers, rounded once.  Where the quotient is 2^1024 or more this gives
    infinity and CPython raises [OverflowError]; the sources divide lengths,
    which stay below 2^63. *)
Definition int_truediv (a b : Z) : float :=
  SFdiv prec emax (exact_int a) (exact_int b).

(** The literals [0.0], [1.0], [0.5], [0.3] and [0.2]: the doubles nearest
    to the decimal numbers ([0x1.3333333333333p-2] for 0.3 and
    [0x1.999999999999ap-3] for 0.2). *)
Definition float_0_0 : float := S754_zero false.
Definition float_1_0 : float := S754_finite false 4503599627370496 (-52).
Definition float_0_5 : float := S754_finite false 4503599627370496 (-53).
Definition float_0_3 : float := S754_finite false 5404319552844595 (-54).
Definition float_0_2 : float := S754_finite false 7205759403792794 (-55).

(** [min(a, b)]: [b] when [b < a], and [a] otherwise, also when [b] is
    NaN. *)
Definition float_min (a b : float) : float := if float_lt b a then b else a.

(** The rational number a finite float stands for. *)
Definition float_value (x : float) : option Q :=
  match x with
  | S754_zero _ => Some 0%Q
  | S754_finite s m e =>
      Some ((if s then -1 else 1) * inject_Z (Zpos m) * Qpower 2 e)%Q
  | S754_infinity _ | S754_nan => None
  end.

Definition hex_digit (n : N) : ascii :=
  if (n <? 10)%N then ascii_of_N (48 + n) else ascii_of_N (87 + n).

Definition printable (c : ascii) : bool :=
  let n := N_of_ascii c in
  negb ((n <? 32) || ((127 <=? n) && (n <=? 160)) || (n =? 173))%N.

Fixpoint repr_chars (quote : ascii) (s : string) : string :=
  match s with
  | EmptyString => EmptyString
  | String c s' =>
      let rest := repr_chars quote s' in
      if Ascii.eqb c "\" then String "\" (String "\" rest)
      else if Ascii.eqb c quote then String "\" (String c rest)
      else if Ascii.eqb c "009" then String "\" (String "t" rest)
      else if Ascii.eqb c "010" then String "\" (String "n" rest)
      else if Ascii.eqb c "013" then String "\" (String "r" rest)
      else if printable c then String c rest
      else
        let n := N_of_ascii c in
        String "\" (String "x"
          (String (hex_digit (n / 16)) (String (hex_digit (n mod 16)) rest)))
  end.

Definition has_char (c : ascii) (s : string) : bool :=
  contains (String c EmptyString) s.

(** [repr(s)] of a string: single quotes unless the text has a single quote
    and no double quote. *)
Definition repr_string (s : string) : string :=
  let quote : ascii :=
    if has_char "'" s && negb (has_char "034" s) then "034"%char else "'"%char in
  String quote (repr_chars quote s ++ String quote EmptyString).

Definition string_of_Z (z : Z) : string :=
  NilZero.string_of_int (Z.to_int z).

Fixpoint join (sep : string) (l : list string) : string :=
  match l with
  | [] => EmptyString
  | [x] => x
  | x :: l' => x ++ sep ++ join sep l'
  end.

(** [repr(v)] *)
Fixpoint py_repr (v : pyval) : string :=
  match v with
  | VNone => "None"
  | VBool true => "True"
  | VBool false => "False"
  | VInt z => string_of_Z z
  | VStr s => repr_string s
  | VList l =>
      "[" ++ join ", "
        ((fix go (l : list pyval) : list string :=
            match l with [] => [] | x :: l' => py_repr x :: go l' end) l)
      ++ "]"
  | VDict d =>
      "{" ++ join ", "
        ((fix go (d : list (string * pyval)) : list string :=
            match d with
            | [] => []
            | (k, x) :: d' => (repr_string k ++ ": " ++ py_repr x) :: go d'
            end) d)
      ++ "}"
  end.

(** [str(v)] *)
Definition py_str (v : pyval) : string :=
  match v with
  | VStr s => s
  | _ => py_repr v
  end.

(** [v.lower()]: only strings have the method. *)
Definition py_lower (v : pyval) : res string :=
  match v with
  | VStr s => Ok (lower s)
  | _ => Raise AttributeError
  end.

(** [v.get(k, default)]: only dictionaries have the method. *)
Definition py_get (v : pyval) (k : string) (default : pyval) : res pyval :=
  match v with
  | VDict d => Ok (dict_get_default d k default)
  | _ => Raise AttributeError
  end.

(** [x in v] *)
Definition py_in (x : pyval) (v : pyval) : res bool :=
  match v with
  | VDict d =>
      match x with
      | VStr k => Ok (assoc_mem k d)
      | VList _ | VDict _ => Raise TypeError
      | _ => Ok false
      end
  | VList l => Ok (existsb (py_eq x) l)
  | VStr s =>
      match x with
      | VStr k => Ok (contains k s)
      | _ => Raise TypeError
      end
  | VNone | VBool _ | VInt _ => Raise TypeError
  end.

(** [v[k]] for a string key *)
Definition py_getitem (v : pyval) (k : string) : res pyval :=
  match v with
  | VDict d =>
      match assoc_get k d with Some x => Ok x | None => Raise KeyError end
  | _ => Raise TypeError
  end.

(** [v[0]] *)
Definition py_first (v : pyval) : res pyval :=
  match v with
  | VList (x :: _) => Ok x
  | VList [] => Raise IndexError
  | VStr (String c _) => Ok (VStr (String c EmptyString))
  | VStr EmptyString => Raise IndexError
  | VDict _ => Raise KeyError
  | VNone | VBool _ | VInt _ => Raise TypeError
  end.

Fixpoint chars (s : string) : list pyval :=
  match s with
  | EmptyString => []
  | String c s' => VStr (String c EmptyString) :: chars s'
  end.

(** The items a [for] loop over [v] visits. *)
Definition py_iter (v : pyval) : res (list pyval) :=
  match v with
  | VList l => Ok l
  | VStr s => Ok (chars s)
  | VDict d => Ok (map (λ kv, VStr kv.1) d)
  | VNone | VBool _ | VInt _ => Raise TypeError
  end.

(** [len(v)] *)
Definition py_len (v : pyval) : res nat :=
  match v with
  | VList l => Ok (length l)
  | VStr s => Ok (String.length s)
  | VDict d => Ok (length d)
  | VNone | VBool _ | VInt _ => Raise TypeError
  end.

(** [lo <= v] and [v <= hi] against an integer bound *)
Definition py_int_le (lo : Z) (v : pyval) : res bool :=
  match v with
  | VInt z => Ok (lo <=? z)%Z
  | VBool b => Ok (lo <=? Z.b2z b)%Z
  | _ => Raise TypeError
  end.

Definition py_le_int (v : pyval) (hi : Z) : res bool :=
  match v with
  | VInt z => Ok (z <=? hi)%Z
  | VBool b => Ok (Z.b2z b <=? hi)%Z
  | _ => Raise TypeError
  end.

End Py.

(** ** The networkx [Graph] operations the sources call *)

Module Nx.
Import Py.

(** The attribute dictionary of an edge.  The sources write and read two
    keys only; a missing key is [None]. *)
Record edge_data := mkEdgeData {
  relationship : option pyval;
  weight : option Q
}.

(** An undirected simple graph: [G.graph], the node dictionary in insertion
    order, and one entry per edge (an unordered pair of node ids). *)
Record graph := mkGraph {
  graph_attr : dict;
  nodes : list (string * dict);
  edges : list (string * string * edge_data)
}.

Definition empty_graph : graph := mkGraph [] [] [].

(** [n in G] *)
Definition has_node (g : graph) (n : string) : bool := assoc_mem n (nodes g).

(** [set(G.nodes())] *)
Definition node_set (g : graph) : gset string := list_to_set (map fst (nodes g)).

(** [G.nodes[n]] *)
Definition node_attrs (g : graph) (n : string) : option dict :=
  assoc_get n (nodes g).

(** [G.add_node(n, **attrs)]: a new node is appended, an existing node has
    its attribute dictionary updated. *)
Definition add_node (g : graph) (n : string) (attrs : dict) : graph :=
  let nodes' :=
    match assoc_get n (nodes g) with
    | Some old => assoc_set n (dict_update old attrs) (nodes g)
    | None => (nodes g ++ [(n, attrs)])%list
    end in
  mkGraph (graph_attr g) nodes' (edges g).

Definition same_pair (u v a b : string) : bool :=
  (String.eqb u a && String.eqb v b) || (String.eqb u b && String.eqb v a).

(** [G.edges[u, v]] *)
Fixpoint find_edge (u v : string) (es : list (string * string * edge_data))
  : option edge_data :=
  match es with
  | [] => None
  | (a, b, d) :: es' => if same_pair u v a b then Some d else find_edge u v es'
  end.

Fixpoint update_edge (u v : string) (rel : pyval) (w : Q)
    (es : list (string * string * edge_data))
  : list (string * string * edge_data) :=
  match es with
  | [] => [(u, v, mkEdgeData (Some rel) (Some w))]
  | (a, b, d) :: es' =>
      if same_pair u v a b then (a, b, mkEdgeData (Some rel) (Some w)) :: es'
      else (a, b, d) :: update_edge u v rel w es'
  end.

Definition ensure_node (n : string) (ns : list (string * dict))
  : list (string * dict) :=
  if assoc_mem n ns then ns else (ns ++ [(n, [])])%list.

(** [G.add_edge(u, v, relationship=rel, weight=w)]: missing endpoints are
    created, and the edge's data is updated when the pair is already
    joined. *)
Definition add_edge (g : graph) (u v : string) (rel : pyval) (w : Q) : graph :=
  mkGraph (graph_attr g)
          (ensure_node v (ensure_node u (nodes g)))
          (update_edge u v rel w (edges g)).

(** [G.neighbors(n)] *)
Fixpoint neighbors_in (n : string) (es : list (string * string * edge_data))
  : list string :=
  match es with
  | [] => []
  | (a, b, _) :: es' =>
      if String.eqb a n then b :: neighbors_in n es'
      else if String.eqb b n then a :: neighbors_in n es'
      else neighbors_in n es'
  end.

Definition neighbors (g : graph) (n : string) : list string :=
  neighbors_in n (edges g).

(** [G.degree(n)]: a self-loop counts twice. *)
Fixpoint degree_in (n : string) (es : list (string * string * edge_data)) : nat :=
  match es with
  | [] => 0
  | (a, b, _) :: es' =>
      ((if String.eqb a n then 1 else 0) + (if String.eqb b n then 1 else 0)
       + degree_in n es')%nat
  end.

Definition degree (g : graph) (n : string) : nat := degree_in n (edges g).

(** [len(G.nodes)] and [len(G.edges)] *)
Definition number_of_nodes (g : graph) : nat := length (nodes g).
Definition number_of_edges (g : graph) : nat := length (edges g).

(** [G.subgraph(keep).copy()]: the nodes in [keep] with their attributes
    and the edges whose two endpoints are both in [keep].  The order in
    which the copy lists its nodes is not part of the model. *)
Definition subgraph (g : graph) (keep : gset string) : graph :=
  mkGraph (graph_attr g)
          (filter (λ na, na.1 ∈ keep) (nodes g))
          (filter (λ e, e.1.1 ∈ keep ∧ e.1.2 ∈ keep) (edges g)).

(** [G.copy()] *)
Definition copy (g : graph) : graph := subgraph g (node_set g).

(** One step of the breadth-first search: [if w not in seen: seen.add(w);
    nextlevel.append(w)]. *)
Definition visit_neighbor (st : gset string * list string) (w : string)
  : gset string * list string :=
  if decide (w ∈ st.1) then st else ({[w]} ∪ st.1, (st.2 ++ [w])%list).

(** [for v in thislevel: for w in adj[v]: ...]: the set seen so far and the
    next level. *)
Definition visit_level (g : graph) (seen : gset string) (thislevel : list string)
  : gset string * list string :=
  fold_left (λ st v, fold_left visit_neighbor (neighbors g v) st)
            thislevel (seen, []).

(** The [while nextlevel and cutoff > level] loop of networkx's
    [_single_shortest_path_length]; [fuel] is the number of levels the cutoff
    still allows.  The search stops early once every node has been seen. *)
Fixpoint shortest_path_levels (g : graph) (fuel level : nat)
    (seen : gset string) (nextlevel : list string) : list (string * nat) :=
  match fuel with
  | O => []
  | S fuel' =>
      match nextlevel with
      | [] => []
      | _ =>
          let st := visit_level g seen nextlevel in
          (map (λ w, (w, S level)) st.2
           ++ if Nat.eqb (size st.1) (number_of_nodes g) then []
              else shortest_path_levels g fuel' (S level) st.1 st.2)%list
      end
  end.

(** [nx.single_source_shortest_path_length(G, source, cutoff)], for a source
    that is in the graph: each node within [cutoff] steps of the source with
    its distance, in the order the search finds them. *)
Definition single_source_shortest_path_length (g : graph) (source : string)
    (cutoff : Z) : list (string * nat) :=
  (source, O)
  :: shortest_path_levels g (Z.to_nat cutoff) 0 {[source]} [source].

End Nx.

(** ** [src/graph_builder.py]: class [GraphBuilder] *)

Module GraphBuilder.
Import Py Nx.

(** [self.entity_types] *)
Definition entity_types : list string :=
  ["countries"; "vehicles"; "vehicleTypes"; "people"; "peopleTypes";
   "areas"; "militaryOrganizations"; "representations"].

(** [self.node_colors] *)
Definition node_colors : list (string * string) :=
  [("country", "#FF6B6B"); ("vehicle", "#4ECDC4"); ("person", "#45B7D1");
   ("area", "#96CEB4"); ("militaryOrganization", "#FECA57");
   ("vehicleType", "#A8E6CF"); ("peopleType", "#DDA0DD");
   ("representation", "#F8B500")].

(** The first entry of [names] that is a dict with [nameType == 'official']
    gives [name_obj.get('value', '')]. *)
Fixpoint find_official (items : list pyval) : option pyval :=
  match items with
  | [] => None
  | VDict d :: rest =>
      if py_eq (dict_get_default d "nameType" VNone) (VStr "official")
      then Some (dict_get_default d "value" (VStr ""))
      else find_official rest
  | _ :: rest => find_official rest
  end.

Fixpoint first_field (fields : list string) (entity : dict) : option pyval :=
  match fields with
  | [] => None
  | f :: fields' =>
      match assoc_get f entity with
      | Some v => Some v
      | None => first_field fields' entity
      end
  end.

Definition _extract_primary_name (entity : dict) : res pyval :=
  match assoc_get "_primary_name" entity with
  | Some v => Ok v
  | None =>
      let names := dict_get_default entity "names" VNone in
      if assoc_mem "names" entity && truthy names then
        items ← py_iter names;
        match find_official items with
        | Some v => Ok v
        | None =>
            first_name ← py_first names;
            match first_name with
            | VDict d => Ok (dict_get_default d "value" (VStr ""))
            | _ => Ok (VStr (py_str first_name))
            end
        end
      else
        match first_field ["name"; "title"; "value"] entity with
        | Some v => Ok (VStr (py_str v))
        | None => Ok (dict_get_default entity "id" (VStr "Unknown"))
        end
  end.

(** [if src in entity: attributes[dst] = entity[src]] *)
Definition copy_field (entity : dict) (src dst : string) (attributes : dict)
  : dict :=
  match assoc_get src entity with
  | Some v => assoc_set dst v attributes
  | None => attributes
  end.

Definition _extract_searchable_attributes (entity : dict) (entity_type : string)
  : dict :=
  let a := copy_field entity "year" "year" [] in
  let a := copy_field entity "make" "manufacturer" a in
  let a := copy_field entity "model" "model" a in
  let a := copy_field entity "owner" "owner" a in
  let a := copy_field entity "country" "country" a in
  let a := copy_field entity "nationality" "nationality" a in
  if String.eqb entity_type "vehicle" then
    copy_field entity "fuelType" "fuel_type"
      (copy_field entity "vehicleType" "vehicle_type" a)
  else if String.eqb entity_type "person" then
    copy_field entity "birthDate" "birth_date"
      (copy_field entity "personTypes" "person_types" a)
  else if String.eqb entity_type "militaryOrganization" then
    copy_field entity "personnelStrength" "personnel_strength"
      (copy_field entity "organizationType" "organization_type" a)
  else if String.eqb entity_type "area" then
    copy_field entity "administrativeLevel" "admin_level"
      (copy_field entity "areaType" "area_type" a)
  else a.

Definition _add_node (g : graph) (node_id : string) (entity : dict)
    (entity_type : string) (include_metadata : bool) : res graph :=
  label ← _extract_primary_name entity;
  let attributes : dict :=
    [("type", VStr entity_type);
     ("label", label);
     ("color", VStr (match assoc_get entity_type node_colors with
                     | Some c => c
                     | None => "#808080"
                     end))] in
  let attributes :=
    if include_metadata then assoc_set "data" (VDict entity) attributes
    else attributes in
  let attributes :=
    dict_update attributes (_extract_searchable_attributes entity entity_type) in
  Ok (add_node g node_id attributes).

Definition ref_fields : list string :=
  ["owner"; "country"; "vehicleType"; "parentArea"; "headquarters";
   "nationality"].

Definition _extract_direct_references (entity : dict) : list (string * string) :=
  flat_map
    (λ field,
       match assoc_get field entity with
       | Some v => if truthy v then [(field, py_str v)] else []
       | None => []
       end)
    ref_fields.

Definition list_fields : list string := ["personTypes"; "childAreas"].

Definition _extract_list_references (entity : dict)
  : list (string * list string) :=
  flat_map
    (λ field,
       match assoc_get field entity with
       | Some (VList items) =>
           let target_ids := map py_str (filter (λ item, truthy item = true) items) in
           match target_ids with
           | [] => []
           | _ => [(field, target_ids)]
           end
       | _ => []
       end)
    list_fields.

(** [if key in part: references.append((label, [str(part[key])]))] *)
Definition nested_reference (part : pyval) (key label : string)
  : res (list (string * list string)) :=
  present ← py_in (VStr key) part;
  if present : bool then
    v ← py_getitem part key;
    Ok [(label, [py_str v])]
  else Ok [].

Definition _extract_hierarchical_references (entity : dict)
  : res (list (string * list string)) :=
  references ←
    match assoc_get "temporalParts" entity with
    | Some parts =>
        items ← py_iter parts;
        foldM (λ refs temp_part,
                 r ← nested_reference temp_part "location" "temporal_location";
                 Ok (refs ++ r)%list)
              [] items
    | None => Ok []
    end;
  match assoc_get "states" entity with
  | Some states =>
      items ← py_iter states;
      foldM (λ refs state,
               r1 ← nested_reference state "location" "state_location";
               r2 ← nested_reference state "organisation" "state_organization";
               Ok (refs ++ r1 ++ r2)%list)
            references items
  | None => Ok references
  end.

Definition _add_edge (g : graph) (source target relationship_type : string)
  : graph :=
  if negb (String.eqb source target)
  then add_edge g source target (VStr relationship_type) 1%Q
  else g.

(** [entity_map]: node id to [{'type': ..., 'data': ...}], in insertion
    order. *)
Definition entity_map_t := list (string * (string * dict)).

(** [for target_id in target_ids: if target_id in entity_map: _add_edge] *)
Definition add_targets (entity_map : entity_map_t) (entity_id field : string)
    (g : graph) (target_ids : list string) : graph :=
  fold_left
    (λ g target_id,
       if assoc_mem target_id entity_map
       then _add_edge g entity_id target_id field
       else g)
    target_ids g.

Definition add_entity_relationships (entity_map : entity_map_t) (g : graph)
    (item : string * (string * dict)) : res graph :=
  let entity_id := item.1 in
  let entity := item.2.2 in
  let g :=
    fold_left (λ g ref, add_targets entity_map entity_id ref.1 g [ref.2])
              (_extract_direct_references entity) g in
  let g :=
    fold_left (λ g ref, add_targets entity_map entity_id ref.1 g ref.2)
              (_extract_list_references entity) g in
  hier ← _extract_hierarchical_references entity;
  Ok (fold_left (λ g ref, add_targets entity_map entity_id ref.1 g ref.2)
                hier g).

Definition _add_relationships (g : graph) (entity_map : entity_map_t)
  : res graph :=
  foldM (add_entity_relationships entity_map) g entity_map.

Definition _add_graph_metadata (g : graph) (database : dict) : res graph :=
  let metadata := dict_get_default database "_metadata" (VDict []) in
  filename ← py_get metadata "filename" (VStr "unknown");
  loaded_at ← py_get metadata "loaded_at" (VStr "");
  entity_counts ← py_get metadata "entity_counts" (VDict []);
  let info : dict :=
    [("filename", filename);
     ("loaded_at", loaded_at);
     ("entity_counts", entity_counts);
     ("title", dict_get_default database "title" (VStr ""));
     ("description", dict_get_default database "description" (VStr ""))] in
  Ok (mkGraph (assoc_set "database_info" (VDict info) (graph_attr g))
              (nodes g) (edges g)).

(** The key under which a truthy [id] is stored: a list or dict cannot be
    hashed. *)
Definition id_key (node_id : pyval) : res string :=
  match node_id with
  | VStr s => Ok s
  | VList _ | VDict _ => Raise TypeError
  | _ => Raise NotModelled
  end.

(** The body of [for entity in entities] in [build_graph]. *)
Definition add_entity (entity_type : string) (include_metadata : bool)
    (st : graph * entity_map_t) (entity : pyval)
  : res (graph * entity_map_t) :=
  node_id ← py_get entity "id" VNone;
  if negb (truthy node_id) then Ok st
  else
    key ← id_key node_id;
    match entity with
    | VDict d =>
        g ← _add_node st.1 key d entity_type include_metadata;
        Ok (g, assoc_set key (entity_type, d) st.2)
    | _ => Raise AttributeError
    end.

(** The body of [for entity_type in self.entity_types] in [build_graph]. *)
Definition add_entities (database : dict) (include_metadata : bool)
    (st : graph * entity_map_t) (entity_type : string)
  : res (graph * entity_map_t) :=
  match assoc_get entity_type database with
  | Some entities =>
      _ ← py_len entities;
      items ← py_iter entities;
      foldM (add_entity entity_type include_metadata) st items
  | None => Ok st
  end.

Definition build_graph (database : dict) (include_metadata : bool) : res graph :=
  st ← foldM (add_entities database include_metadata) (empty_graph, [])
             entity_types;
  g ← _add_relationships st.1 st.2;
  if include_metadata then _add_graph_metadata g database else Ok g.

(** The three dictionaries [combine_databases] fills: [combined] (without
    its ['_metadata'] entry), [seen_ids], and the [entity_counts]
    default-dict of the metadata. *)
Record combine_state := mkCombine {
  combined : list (string * list pyval);
  seen_ids : list (string * gset string);
  entity_counts : list (string * nat)
}.

Definition combined_of (st : combine_state) (entity_type : string) : list pyval :=
  match assoc_get entity_type (combined st) with Some l => l | None => [] end.

Definition seen_of (st : combine_state) (entity_type : string) : gset string :=
  match assoc_get entity_type (seen_ids st) with Some s => s | None => ∅ end.

Definition count_of (st : combine_state) (entity_type : string) : nat :=
  match assoc_get entity_type (entity_counts st) with Some n => n | None => 0 end.

(** The body of [for entity in database[entity_type]]. *)
Definition combine_entity (db_name entity_type : string) (st : combine_state)
    (entity : pyval) : res combine_state :=
  entity_id ← py_get entity "id" VNone;
  if truthy entity_id then
    key ← id_key entity_id;
    if decide (key ∈ seen_of st entity_type) then Ok st
    else
      match entity with
      | VDict d =>
          let entity_copy := assoc_set "_source_database" (VStr db_name) d in
          Ok (mkCombine
                (assoc_set entity_type
                   (combined_of st entity_type ++ [VDict entity_copy])%list
                   (combined st))
                (assoc_set entity_type ({[key]} ∪ seen_of st entity_type)
                   (seen_ids st))
                (assoc_set entity_type (S (count_of st entity_type))
                   (entity_counts st)))
      | _ => Raise AttributeError
      end
  else Ok st.

(** The body of [for entity_type in self.entity_types]. *)
Definition combine_type (db_name : string) (database : dict)
    (st : combine_state) (entity_type : string) : res combine_state :=
  match assoc_get entity_type database with
  | Some entities =>
      items ← py_iter entities;
      foldM (combine_entity db_name entity_type) st items
  | None => Ok st
  end.

(** The body of [for db_name, database in databases.items()]. *)
Definition combine_database (st : combine_state) (src : string * dict)
  : res combine_state :=
  foldM (combine_type src.1 src.2) st entity_types.

Definition combine_init : combine_state :=
  mkCombine (map (λ t, (t, [])) entity_types)
            (map (λ t, (t, ∅)) entity_types)
            [].

(** [databases] is the caller's dict from source name to database, in its
    insertion order. *)
Definition combine_databases (databases : list (string * dict)) : res dict :=
  st ← foldM combine_database combine_init databases;
  let metadata : dict :=
    [("combined_from", VList (map (λ src, VStr src.1) databases));
     ("entity_counts",
      VDict (map (λ tn, (tn.1, VInt (Z.of_nat tn.2))) (entity_counts st)))] in
  Ok (map (λ tl, (tl.1, VList tl.2)) (combined st)
      ++ [("_metadata", VDict metadata)])%list.

(** [create_subgraph]: the listed entities, with the nodes within
    [max_distance] steps of each listed entity of the graph when
    [include_neighbors] is set. *)
Definition create_subgraph (g : graph) (entity_ids : list string)
    (include_neighbors : bool) (max_distance : Z) : graph :=
  if include_neighbors then
    let nodes_to_include :=
      fold_left
        (λ acc entity_id,
           if has_node g entity_id
           then acc ∪ list_to_set
                        (keys (single_source_shortest_path_length
                                 g entity_id max_distance))
           else acc)
        entity_ids (list_to_set entity_ids) in
    subgraph g nodes_to_include
  else
    let valid_ids := filter (λ eid, has_node g eid = true) entity_ids in
    subgraph g (list_to_set valid_ids).

End GraphBuilder.

(** ** [src/filter_system.py]: class [FilterSystem] *)

Module FilterSystem.
Import Py Nx.

(** [self.equipment_categories] *)
Definition equipment_categories : list (string * list string) :=
  [("aircraft_unmanned",
    ["unmanned aircraft"; "aircraft"; "drone"; "uav"; "unmanned aerial vehicle"]);
   ("communication_electronics",
    ["communication equipment"; "electronic system"; "computer system";
     "sensor"; "sensor system"; "equipment"; "electronic_system";
     "radar"; "radio"; "electronics"]);
   ("weapons_defense",
    ["artillery"; "missile"; "defense system"; "weapon"; "ammunition";
     "gun"; "cannon"; "launcher"; "rocket"; "bomb"]);
   ("vehicles",
    ["armored vehicle"; "vehicle"; "car"; "motorcycle"; "truck"; "bus"; "van";
     "bicycle"; "tank"; "apc"; "armored"]);
   ("naval_assets",
    ["naval vessel"; "vessel"; "boat"; "watercraft"; "ship"; "submarine";
     "destroyer"; "frigate"; "carrier"]);
   ("transportation", ["train"; "railway"; "locomotive"; "transport"]);
   ("administrative",
    ["organization"; "other"; "command"; "headquarters"; "base"]);
   ("geographic",
    ["country"; "area"; "coordinates"; "location"; "region"; "territory"])].

(** [for node, data in graph.nodes(data=True): if test: valid_nodes.add(node)] *)
Definition select_nodes (g : graph) (test : string → dict → res bool)
  : res (gset string) :=
  foldM (λ valid nd,
           b ← test nd.1 nd.2;
           Ok (if b : bool then {[nd.1]} ∪ valid else valid))
        ∅ (nodes g).

(** [data.get(key, '').lower()] *)
Definition attr_lower (data : dict) (key : string) : res string :=
  py_lower (dict_get_default data key (VStr "")).

(** [for name_obj in names: if isinstance(name_obj, dict): if
    hit(name_obj.get('value', '').lower()): ...; break] *)
Fixpoint names_match (hit : string → bool) (items : list pyval) : res bool :=
  match items with
  | [] => Ok false
  | VDict d :: rest =>
      name_value ← py_lower (dict_get_default d "value" (VStr ""));
      if hit name_value then Ok true else names_match hit rest
  | _ :: rest => names_match hit rest
  end.

(** [for field in fields: if hit(entity_data.get(field, '').lower()): ...;
    break] *)
Fixpoint fields_match (hit : string → bool) (entity_data : pyval)
    (fields : list string) : res bool :=
  match fields with
  | [] => Ok false
  | field :: rest =>
      v ← py_get entity_data field (VStr "");
      field_value ← py_lower v;
      if hit field_value then Ok true else fields_match hit entity_data rest
  end.

Definition _filter_by_country (g : graph) (country : pyval) : res (gset string) :=
  country_lower ← py_lower country;
  select_nodes g (λ node data,
    c ← attr_lower data "country";
    if String.eqb c country_lower then Ok true else
    o ← attr_lower data "owner";
    if endswith o country_lower then Ok true else
    n ← attr_lower data "nationality";
    if endswith n country_lower then Ok true else
    if py_eq (dict_get_default data "type" VNone) (VStr "country") then
      let entity_data := dict_get_default data "data" (VDict []) in
      has_names ← py_in (VStr "names") entity_data;
      if has_names : bool then
        names ← py_getitem entity_data "names";
        items ← py_iter names;
        names_match (contains country_lower) items
      else Ok false
    else Ok false).

Definition _filter_by_type (g : graph) (entity_type : pyval) : res (gset string) :=
  select_nodes g (λ node data,
    Ok (py_eq (dict_get_default data "type" VNone) entity_type)).

Definition _filter_by_year (g : graph) (year : pyval) : res (gset string) :=
  match py_int year with
  | Raise ValueError | Raise TypeError => Ok ∅
  | Raise e => Raise e
  | Ok target_year =>
      select_nodes g (λ node data,
        let node_year := dict_get_default data "year" VNone in
        if py_eq node_year (VInt target_year) then Ok true else
        let entity_data := dict_get_default data "data" (VDict []) in
        entity_year ← py_get entity_data "year" VNone;
        Ok (py_eq entity_year (VInt target_year)))
  end.

(** [start_year, end_year = map(int, year_range.split('-'))]: every failure
    of the unpacking or of [int] is a [ValueError]; a value without a
    [split] method gives [AttributeError]. *)
Definition parse_year_range (year_range : pyval) : res (Z * Z) :=
  match year_range with
  | VStr s =>
      match split "-" s with
      | [a; b] =>
          start_year ← int_of_string a;
          end_year ← int_of_string b;
          Ok (start_year, end_year)
      | _ => Raise ValueError
      end
  | _ => Raise AttributeError
  end.

(** [y and start_year <= y <= end_year] *)
Definition in_year_range (start_year end_year : Z) (y : pyval) : res bool :=
  if truthy y then
    lo ← py_int_le start_year y;
    if lo : bool then py_le_int y end_year else Ok false
  else Ok false.

Definition _filter_by_year_range (g : graph) (year_range : pyval)
  : res (gset string) :=
  match parse_year_range year_range with
  | Raise ValueError | Raise TypeError => Ok ∅
  | Raise e => Raise e
  | Ok (start_year, end_year) =>
      select_nodes g (λ node data,
        let node_year := dict_get_default data "year" VNone in
        b ← in_year_range start_year end_year node_year;
        if b : bool then Ok true else
        let entity_data := dict_get_default data "data" (VDict []) in
        entity_year ← py_get entity_data "year" VNone;
        in_year_range start_year end_year entity_year)
  end.

Definition _filter_by_manufacturer (g : graph) (manufacturer : pyval)
  : res (gset string) :=
  manufacturer_lower ← py_lower manufacturer;
  select_nodes g (λ node data,
    node_manufacturer ← attr_lower data "manufacturer";
    if contains manufacturer_lower node_manufacturer then Ok true else
    let entity_data := dict_get_default data "data" (VDict []) in
    v ← py_get entity_data "make" (VStr "");
    entity_manufacturer ← py_lower v;
    Ok (contains manufacturer_lower entity_manufacturer)).

Definition _filter_by_owner (g : graph) (owner : pyval) : res (gset string) :=
  owner_lower ← py_lower owner;
  select_nodes g (λ node data,
    node_owner ← attr_lower data "owner";
    Ok (contains owner_lower node_owner)).

(** The shape shared by the three type-restricted filters:
    [if data.get('type') == tag: if wanted in data.get(key, '').lower()] *)
Definition typed_attr_filter (tag key : string) (g : graph) (wanted : pyval)
  : res (gset string) :=
  wanted_lower ← py_lower wanted;
  select_nodes g (λ node data,
    if py_eq (dict_get_default data "type" VNone) (VStr tag) then
      node_value ← attr_lower data key;
      Ok (contains wanted_lower node_value)
    else Ok false).

Definition _filter_by_vehicle_type : graph → pyval → res (gset string) :=
  typed_attr_filter "vehicle" "vehicle_type".

Definition _filter_by_organization_type : graph → pyval → res (gset string) :=
  typed_attr_filter "militaryOrganization" "organization_type".

Definition _filter_by_area_type : graph → pyval → res (gset string) :=
  typed_attr_filter "area" "area_type".

Definition edge_relationship (d : edge_data) : pyval :=
  match relationship d with Some r => r | None => VNone end.

Definition _filter_by_relationship (g : graph) (rel : pyval) : res (gset string) :=
  Ok (fold_left
        (λ valid e,
           if py_eq (edge_relationship e.2) rel
           then {[e.1.2]} ∪ ({[e.1.1]} ∪ valid)
           else valid)
        (edges g) ∅).

Definition _filter_by_keyword (g : graph) (keyword : pyval) : res (gset string) :=
  keyword_lower ← py_lower keyword;
  select_nodes g (λ node data,
    label ← attr_lower data "label";
    if contains keyword_lower label then Ok true else
    if contains keyword_lower (lower node) then Ok true else
    let entity_data := dict_get_default data "data" (VDict []) in
    has_names ← py_in (VStr "names") entity_data;
    in_names ←
      (if has_names : bool then
         names ← py_get entity_data "names" (VList []);
         items ← py_iter names;
         names_match (contains keyword_lower) items
       else Ok false);
    in_fields ←
      fields_match (contains keyword_lower) entity_data
        ["description"; "title"; "model"; "make"];
    Ok (in_names || in_fields)).

Definition _filter_by_connection (g : graph) (target_node : pyval)
  : res (gset string) :=
  match target_node with
  | VStr n =>
      if has_node g n then Ok ({[n]} ∪ list_to_set (neighbors g n)) else Ok ∅
  | _ => Ok ∅
  end.

Definition _filter_by_min_degree (g : graph) (min_degree : pyval)
  : res (gset string) :=
  match py_int min_degree with
  | Raise ValueError | Raise TypeError => Ok ∅
  | Raise e => Raise e
  | Ok min_deg =>
      select_nodes g (λ node data, Ok (min_deg <=? Z.of_nat (degree g node))%Z)
  end.

Definition _filter_by_max_degree (g : graph) (max_degree : pyval)
  : res (gset string) :=
  match py_int max_degree with
  | Raise ValueError | Raise TypeError => Ok ∅
  | Raise e => Raise e
  | Ok max_deg =>
      select_nodes g (λ node data, Ok (Z.of_nat (degree g node) <=? max_deg)%Z)
  end.

(** [category in self.equipment_categories]: the lookup hashes the key. *)
Definition category_keywords_of (category : pyval) : res (list string) :=
  match category with
  | VStr c =>
      Ok (match assoc_get c equipment_categories with
          | Some kws => kws
          | None => []
          end)
  | VList _ | VDict _ => Raise TypeError
  | _ => Ok []
  end.

(** [any(keyword.lower() in text for keyword in category_keywords)] *)
Definition keyword_hit (category_keywords : list string) (text : string) : bool :=
  existsb (λ keyword, contains (lower keyword) text) category_keywords.

Definition _filter_by_equipment_category (g : graph) (categories : pyval)
  : res (gset string) :=
  let categories :=
    match categories with VStr _ => VList [categories] | _ => categories end in
  cats ← py_iter categories;
  category_keywords ←
    foldM (λ kws category,
             more ← category_keywords_of category; Ok (kws ++ more)%list)
          [] cats;
  match category_keywords with
  | [] => Ok ∅
  | _ =>
      let hit := keyword_hit category_keywords in
      select_nodes g (λ node data,
        entity_type ← attr_lower data "type";
        if hit entity_type then Ok true else
        want_vehicle ←
          (v ← py_in (VStr "vehicle") categories;
           if v : bool then Ok true else py_in (VStr "vehicles") categories);
        by_vehicle ←
          (if want_vehicle : bool
           then vt ← attr_lower data "vehicle_type"; Ok (hit vt)
           else Ok false);
        if by_vehicle : bool then Ok true else
        want_admin ← py_in (VStr "administrative") categories;
        by_org ←
          (if want_admin : bool
           then ot ← attr_lower data "organization_type"; Ok (hit ot)
           else Ok false);
        if by_org : bool then Ok true else
        want_geo ← py_in (VStr "geographic") categories;
        by_area ←
          (if want_geo : bool
           then aty ← attr_lower data "area_type"; Ok (hit aty)
           else Ok false);
        if by_area : bool then Ok true else
        label ← attr_lower data "label";
        if hit label then Ok true else
        let entity_data := dict_get_default data "data" (VDict []) in
        has_names ← py_in (VStr "names") entity_data;
        in_names ←
          (if has_names : bool then
             names ← py_get entity_data "names" (VList []);
             items ← py_iter names;
             names_match hit items
           else Ok false);
        if in_names : bool then Ok true else
        fields_match hit entity_data
          ["description"; "title"; "model"; "make"; "classification"])
  end.

(** [self.available_filters] *)
Definition available_filters
  : list (string * (graph → pyval → res (gset string))) :=
  [("country", _filter_by_country);
   ("type", _filter_by_type);
   ("year", _filter_by_year);
   ("year_range", _filter_by_year_range);
   ("manufacturer", _filter_by_manufacturer);
   ("owner", _filter_by_owner);
   ("vehicle_type", _filter_by_vehicle_type);
   ("organization_type", _filter_by_organization_type);
   ("area_type", _filter_by_area_type);
   ("relationship", _filter_by_relationship);
   ("keyword", _filter_by_keyword);
   ("has_connection", _filter_by_connection);
   ("degree_min", _filter_by_min_degree);
   ("degree_max", _filter_by_max_degree);
   ("equipment_category", _filter_by_equipment_category)].

(** The body of [for filter_name, filter_value in filters.items()] in
    [apply_filters]. *)
Definition apply_one (g : graph) (valid_nodes : gset string)
    (flt : string * pyval) : res (gset string) :=
  match assoc_get flt.1 available_filters with
  | Some filter_func =>
      filtered_nodes ← filter_func g flt.2;
      Ok (valid_nodes ∩ filtered_nodes)
  | None => Ok valid_nodes
  end.

(** The node set [apply_filters] hands to [graph.subgraph]. *)
Definition filter_node_set (g : graph) (filters : dict) : res (gset string) :=
  foldM (apply_one g) (node_set g) filters.

Definition apply_filters (g : graph) (filters : dict) : res graph :=
  match filters with
  | [] => Ok (copy g)
  | _ =>
      valid_nodes ← filter_node_set g filters;
      Ok (subgraph g valid_nodes)
  end.

(** The inner loop of [_apply_logical_filter] over [condition['filter']]. *)
Definition condition_one (g : graph) (filtered_nodes : gset string)
    (flt : string * pyval) : res (gset string) :=
  match assoc_get flt.1 available_filters with
  | Some filter_func =>
      nodes ← filter_func g flt.2;
      Ok (if decide (filtered_nodes = ∅) then nodes
          else filtered_nodes ∩ nodes)
  | None => Ok filtered_nodes
  end.

(** [condition['filter'].items()] *)
Definition py_items (v : pyval) : res dict :=
  match v with
  | VDict d => Ok d
  | _ => Raise AttributeError
  end.

(** The body of [for condition in conditions]. *)
Definition condition_nodes (g : graph) (result_sets : list (gset string))
    (condition : pyval) : res (list (gset string)) :=
  has_filter ← py_in (VStr "filter") condition;
  if has_filter : bool then
    inner ← py_getitem condition "filter";
    items ← py_items inner;
    filtered_nodes ← foldM (condition_one g) ∅ items;
    negate ← py_get condition "not" (VBool false);
    let filtered_nodes :=
      if truthy negate then node_set g ∖ filtered_nodes else filtered_nodes in
    Ok (result_sets ++ [filtered_nodes])%list
  else Ok result_sets.

Definition intersect_all (result_sets : list (gset string)) : gset string :=
  match result_sets with
  | [] => ∅
  | first :: rest => fold_left (λ acc s, acc ∩ s) rest first
  end.

Definition union_all (result_sets : list (gset string)) : gset string :=
  fold_left (λ acc s, acc ∪ s) result_sets ∅.

Definition _apply_logical_filter (g : graph) (filter_config : dict) : res graph :=
  let logic := dict_get_default filter_config "logic" (VStr "AND") in
  let conditions := dict_get_default filter_config "conditions" (VList []) in
  if negb (truthy conditions) then Ok (copy g)
  else
    items ← py_iter conditions;
    result_sets ← foldM (condition_nodes g) [] items;
    let final_nodes :=
      if py_eq logic (VStr "AND") then intersect_all result_sets
      else if py_eq logic (VStr "OR") then union_all result_sets
      else intersect_all result_sets in
    Ok (subgraph g final_nodes).

Definition create_advanced_filter (g : graph) (filter_config : dict) : res graph :=
  if assoc_mem "logic" filter_config then _apply_logical_filter g filter_config
  else apply_filters g filter_config.

(** [search_entities]: the keyword filter once per term, combined by
    intersection when [search_type == 'all'] and by union otherwise. *)
Definition search_entities (g : graph) (search_terms : list pyval)
    (search_type : pyval) : res (gset string) :=
  match search_terms with
  | [] => Ok (node_set g)
  | _ =>
      result_sets ←
        foldM (λ sets term,
                 term_results ← _filter_by_keyword g term;
                 Ok (sets ++ [term_results])%list)
              [] search_terms;
      if py_eq search_type (VStr "all") then
        match result_sets with
        | first :: rest => Ok (fold_left (λ acc s, acc ∩ s) rest first)
        | [] => Raise IndexError
        end
      else Ok (fold_left (λ acc s, acc ∪ s) result_sets ∅)
  end.

End FilterSystem.

(** ** [src/statistics_generator.py]: class [StatisticsGenerator]

    The quality scores are binary64 floats, as in the source. *)

Module StatisticsGenerator.
Import Py Nx.

(** A [Counter] or [defaultdict(int)]: keys are hashable values, compared
    with [==]. *)
Definition counter := list (pyval * nat).

Fixpoint counter_incr (k : pyval) (c : counter) : counter :=
  match c with
  | [] => [(k, 1%nat)]
  | (k', n) :: c' =>
      if py_eq k' k then (k', S n) :: c' else (k', n) :: counter_incr k c'
  end.

(** [c[k] += 1] *)
Definition counter_add (k : pyval) (c : counter) : res counter :=
  match k with
  | VList _ | VDict _ => Raise TypeError
  | _ => Ok (counter_incr k c)
  end.

(** The [country_stats] dictionary of [_analyze_single_country]. *)
Record country_stats := mkCountryStats {
  total_assets : nat;
  vehicles : nat;
  organizations : nat;
  areas : nat;
  people : nat;
  vehicle_types : counter;
  organization_types : counter;
  manufacturers : counter;
  timeline : counter
}.

Definition empty_country_stats : country_stats :=
  mkCountryStats 0 0 0 0 0 [] [] [] [].

(** [data.get(key, '').lower().find(country.lower()) != -1] *)
Definition attr_mentions (data : dict) (key : string) (country : pyval)
  : res bool :=
  text ← py_lower (dict_get_default data key (VStr ""));
  token ← py_lower country;
  Ok (contains token text).

(** The [if ... elif ...] chain that sets [belongs_to_country]. *)
Definition belongs_to_country (data : dict) (country : pyval) : res bool :=
  let entity_type := dict_get_default data "type" VNone in
  by_owner ← attr_mentions data "owner" country;
  if by_owner : bool then Ok true else
  by_country ← attr_mentions data "country" country;
  if by_country : bool then Ok true else
  by_nationality ← attr_mentions data "nationality" country;
  if by_nationality : bool then Ok true else
  if py_eq entity_type (VStr "country")
  then attr_mentions data "label" country
  else Ok false.

(** The body of [if belongs_to_country:]. *)
Definition count_asset (data : dict) (st : country_stats) : res country_stats :=
  let entity_type := dict_get_default data "type" VNone in
  let st :=
    mkCountryStats (S (total_assets st)) (vehicles st) (organizations st)
      (areas st) (people st) (vehicle_types st) (organization_types st)
      (manufacturers st) (timeline st) in
  st ←
    (if py_eq entity_type (VStr "vehicle") then
       vt ← counter_add (dict_get_default data "vehicle_type" (VStr "unknown"))
                        (vehicle_types st);
       mf ← counter_add (dict_get_default data "manufacturer" (VStr "unknown"))
                        (manufacturers st);
       Ok (mkCountryStats (total_assets st) (S (vehicles st)) (organizations st)
             (areas st) (people st) vt (organization_types st) mf (timeline st))
     else if py_eq entity_type (VStr "militaryOrganization") then
       ot ← counter_add
              (dict_get_default data "organization_type" (VStr "unknown"))
              (organization_types st);
       Ok (mkCountryStats (total_assets st) (vehicles st) (S (organizations st))
             (areas st) (people st) (vehicle_types st) ot (manufacturers st)
             (timeline st))
     else if py_eq entity_type (VStr "area") then
       Ok (mkCountryStats (total_assets st) (vehicles st) (organizations st)
             (S (areas st)) (people st) (vehicle_types st)
             (organization_types st) (manufacturers st) (timeline st))
     else if py_eq entity_type (VStr "person") then
       Ok (mkCountryStats (total_assets st) (vehicles st) (organizations st)
             (areas st) (S (people st)) (vehicle_types st)
             (organization_types st) (manufacturers st) (timeline st))
     else Ok st);
  let year := dict_get_default data "year" VNone in
  if truthy year then
    tl ← counter_add year (timeline st);
    Ok (mkCountryStats (total_assets st) (vehicles st) (organizations st)
          (areas st) (people st) (vehicle_types st) (organization_types st)
          (manufacturers st) tl)
  else Ok st.

Definition _analyze_single_country (g : graph) (country : pyval)
  : res country_stats :=
  foldM (λ st nd,
           belongs ← belongs_to_country nd.2 country;
           if belongs : bool then count_asset nd.2 st else Ok st)
        empty_country_stats (nodes g).

Definition required_fields : list string := ["type"; "label"].
Definition optional_fields : list string :=
  ["year"; "country"; "manufacturer"; "owner"].

(** [field in data and data[field]] *)
Definition field_filled (data : dict) (field : string) : bool :=
  match assoc_get field data with
  | Some v => truthy v
  | None => false
  end.

(** The two counters [(total_fields, filled_fields)] after the loops of
    [_calculate_completeness_score]. *)
Definition completeness_counts (g : graph) : nat * nat :=
  fold_left
    (λ acc nd,
       fold_left
         (λ acc field,
            (S acc.1, if field_filled nd.2 field then S acc.2 else acc.2))
         (required_fields ++ optional_fields)%list acc)
    (nodes g) (0%nat, 0%nat).

(** [a / max(1, b)] on counters: true division of two ints. *)
Definition ratio (a b : nat) : float :=
  int_truediv (Z.of_nat a) (Z.of_nat (Nat.max 1 b)).

Definition _calculate_completeness_score (g : graph) : float :=
  let counts := completeness_counts g in
  ratio counts.2 counts.1.

Definition canonical_types : list string :=
  ["country"; "vehicle"; "person"; "area"; "militaryOrganization"].

(** ['type' in data and data['type'] in [...]] *)
Definition type_consistent (data : dict) : bool :=
  match assoc_get "type" data with
  | Some v => existsb (λ t, py_eq v (VStr t)) canonical_types
  | None => false
  end.

(** The two counters [(total_items, consistent_items)] after the loop of
    [_calculate_consistency_score]. *)
Definition consistency_counts (g : graph) : nat * nat :=
  fold_left
    (λ acc nd, (S acc.1, if type_consistent nd.2 then S acc.2 else acc.2))
    (nodes g) (0%nat, 0%nat).

Definition _calculate_consistency_score (g : graph) : float :=
  let counts := consistency_counts g in
  ratio counts.2 counts.1.

(** [connectivity_score * 0.3 + completeness_score * 0.5 +
    consistency_score * 0.2], added from left to right, then
    [min(1.0, quality_score)]. *)
Definition _calculate_data_quality_score (g : graph) : float :=
  if Nat.eqb (number_of_nodes g) 0 then float_0_0
  else
    let connectivity_score := ratio (number_of_edges g) (number_of_nodes g) in
    let completeness_score := _calculate_completeness_score g in
    let consistency_score := _calculate_consistency_score g in
    let quality_score :=
      float_add
        (float_add (float_mul connectivity_score float_0_3)
                   (float_mul completeness_score float_0_5))
        (float_mul consistency_score float_0_2) in
    float_min float_1_0 quality_score.

(** [_count_entities_by_type]: the histogram of the nodes' type tags. *)
Definition _count_entities_by_type (g : graph) : res counter :=
  foldM (λ counts nd,
           counter_add (dict_get_default nd.2 "type" (VStr "unknown")) counts)
        [] (nodes g).

(** [sorted(items, key=..., reverse=True)]: a stable sort into descending
    order; [gt y x] tells whether the key of [y] is greater than that of
    [x].  Items with equal keys keep their order. *)
Fixpoint insert_desc {A} (gt : A → A → bool) (x : A) (l : list A) : list A :=
  match l with
  | [] => [x]
  | y :: r => if gt y x then y :: insert_desc gt x r else x :: y :: r
  end.

Fixpoint sorted_desc {A} (gt : A → A → bool) (l : list A) : list A :=
  match l with
  | [] => []
  | x :: r => insert_desc gt x (sorted_desc gt r)
  end.

(** [l[:n]] *)
Definition slice_to {A} (n : Z) (l : list A) : list A :=
  if (0 <=? n)%Z then take (Z.to_nat n) l
  else take (length l - Z.to_nat (- n)) l.

(** [_get_top_n]: the [n] items with the highest scores.  Scores are floats
    in the source and rationals here. *)
Definition _get_top_n (centrality_dict : list (string * Q)) (n : Z)
  : list (string * Q) :=
  slice_to n
    (sorted_desc (λ y x : string * Q, negb (Qle_bool y.2 x.2)) centrality_dict).

(** The [metrics] dictionary of [_generate_comparison_metrics]. *)
Record comparison_metrics := mkMetrics {
  total_assets_ranking : list (string * nat);
  vehicle_counts : list (string * nat);
  organization_counts : list (string * nat);
  technology_diversity : list (string * nat)
}.

(** [countries_data] is the dict from country to its [country_stats], in
    insertion order. *)
Definition _generate_comparison_metrics
    (countries_data : list (string * country_stats)) : comparison_metrics :=
  let asset_counts := map (λ cd, (cd.1, total_assets cd.2)) countries_data in
  mkMetrics
    (sorted_desc (λ y x : string * nat, Nat.ltb x.2 y.2) asset_counts)
    (fold_left (λ m cd, assoc_set cd.1 (vehicles cd.2) m) countries_data [])
    (fold_left (λ m cd, assoc_set cd.1 (organizations cd.2) m) countries_data [])
    (fold_left (λ m cd, assoc_set cd.1 (length (manufacturers cd.2)) m)
               countries_data []).

(** The membership test of [_compare_asset_types] and
    [_compare_technology_timelines]: owner or country only. *)
Definition owned_or_located (data : dict) (country : pyval) : res bool :=
  by_owner ← attr_mentions data "owner" country;
  if by_owner : bool then Ok true else attr_mentions data "country" country.

(** [_compare_asset_types]: per country, the histogram of the types of the
    nodes that belong to it. *)
Definition _compare_asset_types (g : graph) (countries : list string)
  : res (list (string * counter)) :=
  foldM (λ asset_types country,
           types ←
             foldM (λ types nd,
                      belongs ← owned_or_located nd.2 (VStr country);
                      if belongs : bool
                      then counter_add
                             (dict_get_default nd.2 "type" (VStr "unknown"))
                             types
                      else Ok types)
                   [] (nodes g);
           Ok (assoc_set country types asset_types))
        [] countries.

End StatisticsGenerator.

(** ** [military_database_analyzer_v3.py]: the calls into the builder *)

Module Analyzer.
Import Py Nx GraphBuilder.

(** [{name: self.databases[name] for name in databases if name in
    self.databases}]: [loaded] is [self.databases]. *)
Definition select_databases (loaded : list (string * dict))
    (databases : list string) : list (string * dict) :=
  fold_left
    (λ acc name,
       match assoc_get name loaded with
       | Some database => assoc_set name database acc
       | None => acc
       end)
    databases [].

(** [build_combined_graph]: with no list of names, all loaded databases. *)
Definition build_combined_graph (loaded : list (string * dict))
    (databases : option (list string)) : res graph :=
  let databases :=
    match databases with Some names => names | None => keys loaded end in
  combined_data ← combine_databases (select_databases loaded databases);
  build_graph combined_data true.

End Analyzer.

(** ** Graph objects in a store

    A Python variable holds a reference to an object, and a networkx graph
    object holds, for every node and every edge, a reference to the
    attribute dictionary that [G.nodes(data=True)] and [G.edges(data=True)]
    hand out.  A computation takes the store and returns its result with
    the store it leaves.  The networkx methods are the primitives: the
    reading ones leave the store as it is, the copying ones allocate new
    objects, and [add_node] writes.  The values kept in an attribute
    dictionary are immutable JSON values. *)

Module Store.
Import Py Nx.

Definition ref := positive.

Inductive object :=
| ONodeAttrs (d : dict)
| OEdgeAttrs (d : edge_data)
| OGraph (graph_attr : dict) (nodes : list (string * ref))
         (edges : list (string * string * ref)).

Definition store := gmap ref object.

Definition M (A : Type) : Type := store → res A * store.

Definition ret {A} (a : A) : M A := λ h, (Ok a, h).

#[global] Instance M_bind : MBind M :=
  λ A B f m h,
    match m h with
    | (Ok a, h') => f a h'
    | (Raise e, h') => (Raise e, h')
    end.

(** A computation that does not touch the store. *)
Definition lift {A} (r : res A) : M A := λ h, (r, h).

(** [for x in l: acc = body(acc, x)], stopping at the first exception. *)
Fixpoint for_each {A B} (f : B → A → M B) (acc : B) (l : list A) : M B :=
  match l with
  | [] => ret acc
  | x :: l' => acc' ← f acc x; for_each f acc' l'
  end.

(** Dereferencing.  Python has no dangling reference; the store-passing
    functions give [NotModelled] for one. *)
Definition get_object (r : ref) : M object :=
  λ h, match h !! r with
       | Some o => (Ok o, h)
       | None => (Raise NotModelled, h)
       end.

(** A new object, at a reference that was not in use. *)
Definition new_object (o : object) : M ref :=
  λ h, let r := fresh (dom h) in (Ok r, <[r := o]> h).

(** Assignment to an existing object. *)
Definition set_object (r : ref) (o : object) : M unit :=
  λ h, (Ok (), <[r := o]> h).

Definition node_attrs_of (data : ref) : M dict :=
  o ← get_object data;
  match o with
  | ONodeAttrs d => ret d
  | _ => lift (Raise NotModelled)
  end.

Definition edge_attrs_of (data : ref) : M edge_data :=
  o ← get_object data;
  match o with
  | OEdgeAttrs d => ret d
  | _ => lift (Raise NotModelled)
  end.

(** The graph a reference stands for: its object with every attribute
    dictionary read from the store. *)
Definition load_nodes (h : store) (ns : list (string * ref))
  : option (list (string * dict)) :=
  mapM (λ nr, match h !! nr.2 with
              | Some (ONodeAttrs d) => Some (nr.1, d)
              | _ => None
              end) ns.

Definition load_edges (h : store) (es : list (string * string * ref))
  : option (list (string * string * edge_data)) :=
  mapM (λ er, match h !! er.2 with
              | Some (OEdgeAttrs d) => Some (er.1, d)
              | _ => None
              end) es.

Definition load (h : store) (G : ref) : option graph :=
  match h !! G with
  | Some (OGraph a ns es) =>
      ns' ← load_nodes h ns;
      es' ← load_edges h es;
      Some (mkGraph a ns' es')
  | _ => None
  end.

Definition the_graph (G : ref) : M graph :=
  λ h, match load h G with
       | Some g => (Ok g, h)
       | None => (Raise NotModelled, h)
       end.

(** [G.nodes(data=True)]: each node id with its attribute dictionary, by
    reference. *)
Definition nodes_data (G : ref) : M (list (string * ref)) :=
  o ← get_object G;
  match o with
  | OGraph _ ns _ => ret ns
  | _ => lift (Raise NotModelled)
  end.

(** [G.nodes()] *)
Definition nodes (G : ref) : M (list string) :=
  ns ← nodes_data G; ret (map fst ns).

(** [G.edges(data=True)] *)
Definition edges_data (G : ref) : M (list (string * string * ref)) :=
  o ← get_object G;
  match o with
  | OGraph _ _ es => ret es
  | _ => lift (Raise NotModelled)
  end.

(** [n in G], [G.neighbors(n)] and [G.degree(n)] *)
Definition has_node (G : ref) (n : string) : M bool :=
  g ← the_graph G; ret (Nx.has_node g n).

Definition neighbors (G : ref) (n : string) : M (list string) :=
  g ← the_graph G; ret (Nx.neighbors g n).

Definition degree (G : ref) (n : string) : M nat :=
  g ← the_graph G; ret (Nx.degree g n).

(** [data.get(key, default)] on the attribute dictionary of a node *)
Definition data_get (data : ref) (key : string) (default : pyval) : M pyval :=
  d ← node_attrs_of data; ret (dict_get_default d key default).

(** [G.add_node(n, **attrs)]: a new node gets a new attribute dictionary
    and is appended to the graph object; an existing node has its
    dictionary updated in place. *)
Definition add_node (G : ref) (n : string) (attrs : dict) : M unit :=
  o ← get_object G;
  match o with
  | OGraph a ns es =>
      match assoc_get n ns with
      | Some data =>
          d ← node_attrs_of data;
          set_object data (ONodeAttrs (dict_update d attrs))
      | None =>
          data ← new_object (ONodeAttrs attrs);
          set_object G (OGraph a (ns ++ [(n, data)])%list es)
      end
  | _ => lift (Raise NotModelled)
  end.

(** The [d.copy()] of every attribute dictionary, as [G.copy()] makes
    them. *)
Fixpoint copy_node_attrs (ns : list (string * ref)) : M (list (string * ref)) :=
  match ns with
  | [] => ret []
  | nr :: rest =>
      d ← node_attrs_of nr.2;
      data ← new_object (ONodeAttrs d);
      rest' ← copy_node_attrs rest;
      ret ((nr.1, data) :: rest')
  end.

Fixpoint copy_edge_attrs (es : list (string * string * ref))
  : M (list (string * string * ref)) :=
  match es with
  | [] => ret []
  | er :: rest =>
      d ← edge_attrs_of er.2;
      data ← new_object (OEdgeAttrs d);
      rest' ← copy_edge_attrs rest;
      ret ((er.1, data) :: rest')
  end.

(** [G.subgraph(keep).copy()]: a new graph object with a copy of the
    attribute dictionary of every node in [keep] and of every edge whose
    two endpoints are in [keep]. *)
Definition subgraph_copy (G : ref) (keep : gset string) : M ref :=
  o ← get_object G;
  match o with
  | OGraph a ns es =>
      ns' ← copy_node_attrs (filter (λ nr, nr.1 ∈ keep) ns);
      es' ← copy_edge_attrs (filter (λ er, er.1.1 ∈ keep ∧ er.1.2 ∈ keep) es);
      new_object (OGraph a ns' es')
  | _ => lift (Raise NotModelled)
  end.

(** [G.copy()] *)
Definition copy (G : ref) : M ref :=
  ns ← nodes G; subgraph_copy G (list_to_set ns).

(** [m], run in [h], gives [r] and leaves the store as it is. *)
Definition reads {A} (h : store) (m : M A) (r : res A) : Prop := m h = (r, h).

(** The graph object at [G] and its attribute dictionaries were allocated
    between [h] and [h']. *)
Definition fresh_graph (h h' : store) (G : ref) : Prop :=
  h !! G = None
  ∧ ∃ a ns es, h' !! G = Some (OGraph a ns es)
               ∧ Forall (λ nr : string * ref, h !! nr.2 = None) ns
               ∧ Forall (λ er : string * string * ref, h !! er.2 = None) es.

End Store.

(** ** [FilterSystem] on graph references

    The filters and [apply_filters] once more, statement by statement,
    with the graph argument a reference into the store and every access to
    the graph or to a node's attributes a store operation. *)

Module StoreFilterSystem.
Import Py Nx Store.

(** [for node, data in graph.nodes(data=True): if test: valid_nodes.add(node)] *)
Definition select_nodes (graph : ref) (test : string → ref → M bool)
  : M (gset string) :=
  nd ← nodes_data graph;
  for_each (λ valid nr,
              b ← test nr.1 nr.2;
              ret (if b : bool then {[nr.1]} ∪ valid else valid))
           ∅ nd.

(** [data.get(key, '').lower()] *)
Definition attr_lower (data : ref) (key : string) : M string :=
  v ← data_get data key (VStr "");
  lift (py_lower v).

Definition _filter_by_country (graph : ref) (country : pyval) : M (gset string) :=
  country_lower ← lift (py_lower country);
  select_nodes graph (λ node data,
    c ← attr_lower data "country";
    if String.eqb c country_lower then ret true else
    o ← attr_lower data "owner";
    if endswith o country_lower then ret true else
    n ← attr_lower data "nationality";
    if endswith n country_lower then ret true else
    type ← data_get data "type" VNone;
    if py_eq type (VStr "country") then
      entity_data ← data_get data "data" (VDict []);
      has_names ← lift (py_in (VStr "names") entity_data);
      if has_names : bool then
        names ← lift (py_getitem entity_data "names");
        items ← lift (py_iter names);
        lift (FilterSystem.names_match (contains country_lower) items)
      else ret false
    else ret false).

Definition _filter_by_type (graph : ref) (entity_type : pyval) : M (gset string) :=
  select_nodes graph (λ node data,
    type ← data_get data "type" VNone;
    ret (py_eq type entity_type)).

Definition _filter_by_year (graph : ref) (year : pyval) : M (gset string) :=
  match py_int year with
  | Raise ValueError | Raise TypeError => ret ∅
  | Raise e => lift (Raise e)
  | Ok target_year =>
      select_nodes graph (λ node data,
        node_year ← data_get data "year" VNone;
        if py_eq node_year (VInt target_year) then ret true else
        entity_data ← data_get data "data" (VDict []);
        entity_year ← lift (py_get entity_data "year" VNone);
        ret (py_eq entity_year (VInt target_year)))
  end.

Definition _filter_by_year_range (graph : ref) (year_range : pyval)
  : M (gset string) :=
  match FilterSystem.parse_year_range year_range with
  | Raise ValueError | Raise TypeError => ret ∅
  | Raise e => lift (Raise e)
  | Ok (start_year, end_year) =>
      select_nodes graph (λ node data,
        node_year ← data_get data "year" VNone;
        b ← lift (FilterSystem.in_year_range start_year end_year node_year);
        if b : bool then ret true else
        entity_data ← data_get data "data" (VDict []);
        entity_year ← lift (py_get entity_data "year" VNone);
        lift (FilterSystem.in_year_range start_year end_year entity_year))
  end.

Definition _filter_by_manufacturer (graph : ref) (manufacturer : pyval)
  : M (gset string) :=
  manufacturer_lower ← lift (py_lower manufacturer);
  select_nodes graph (λ node data,
    node_manufacturer ← attr_lower data "manufacturer";
    if contains manufacturer_lower node_manufacturer then ret true else
    entity_data ← data_get data "data" (VDict []);
    v ← lift (py_get entity_data "make" (VStr ""));
    entity_manufacturer ← lift (py_lower v);
    ret (contains manufacturer_lower entity_manufacturer)).

Definition _filter_by_owner (graph : ref) (owner : pyval) : M (gset string) :=
  owner_lower ← lift (py_lower owner);
  select_nodes graph (λ node data,
    node_owner ← attr_lower data "owner";
    ret (contains owner_lower node_owner)).

(** The shape shared by the three type-restricted filters:
    [if data.get('type') == tag: if wanted in data.get(key, '').lower()] *)
Definition typed_attr_filter (tag key : string) (graph : ref) (wanted : pyval)
  : M (gset string) :=
  wanted_lower ← lift (py_lower wanted);
  select_nodes graph (λ node data,
    type ← data_get data "type" VNone;
    if py_eq type (VStr tag) then
      node_value ← attr_lower data key;
      ret (contains wanted_lower node_value)
    else ret false).

Definition _filter_by_vehicle_type : ref → pyval → M (gset string) :=
  typed_attr_filter "vehicle" "vehicle_type".

Definition _filter_by_organization_type : ref → pyval → M (gset string) :=
  typed_attr_filter "militaryOrganization" "organization_type".

Definition _filter_by_area_type : ref → pyval → M (gset string) :=
  typed_attr_filter "area" "area_type".

(** [for source, target, edge_data in graph.edges(data=True): if
    edge_data.get('relationship') == relationship: ...] *)
Definition _filter_by_relationship (graph : ref) (rel : pyval) : M (gset string) :=
  es ← edges_data graph;
  for_each (λ valid er,
              edge_data ← edge_attrs_of er.2;
              ret (if py_eq (FilterSystem.edge_relationship edge_data) rel
                   then {[er.1.2]} ∪ ({[er.1.1]} ∪ valid)
                   else valid))
           ∅ es.

Definition _filter_by_keyword (graph : ref) (keyword : pyval) : M (gset string) :=
  keyword_lower ← lift (py_lower keyword);
  select_nodes graph (λ node data,
    label ← attr_lower data "label";
    if contains keyword_lower label then ret true else
    if contains keyword_lower (lower node) then ret true else
    entity_data ← data_get data "data" (VDict []);
    has_names ← lift (py_in (VStr "names") entity_data);
    in_names ←
      (if has_names : bool then
         names ← lift (py_get entity_data "names" (VList []));
         items ← lift (py_iter names);
         lift (FilterSystem.names_match (contains keyword_lower) items)
       else ret false);
    in_fields ←
      lift (FilterSystem.fields_match (contains keyword_lower) entity_data
              ["description"; "title"; "model"; "make"]);
    ret (in_names || in_fields)).

Definition _filter_by_connection (graph : ref) (target_node : pyval)
  : M (gset string) :=
  match target_node with
  | VStr n =>
      present ← has_node graph n;
      if present : bool then
        neighbors ← neighbors graph n;
        ret ({[n]} ∪ list_to_set neighbors)
      else ret ∅
  | _ => ret ∅
  end.

(** [for node in graph.nodes(): if test(graph.degree(node)):
    valid_nodes.add(node)] *)
Definition select_by_degree (graph : ref) (test : nat → bool) : M (gset string) :=
  ns ← nodes graph;
  for_each (λ valid node,
              d ← degree graph node;
              ret (if test d then {[node]} ∪ valid else valid))
           ∅ ns.

Definition _filter_by_min_degree (graph : ref) (min_degree : pyval)
  : M (gset string) :=
  match py_int min_degree with
  | Raise ValueError | Raise TypeError => ret ∅
  | Raise e => lift (Raise e)
  | Ok min_deg => select_by_degree graph (λ d, (min_deg <=? Z.of_nat d)%Z)
  end.

Definition _filter_by_max_degree (graph : ref) (max_degree : pyval)
  : M (gset string) :=
  match py_int max_degree with
  | Raise ValueError | Raise TypeError => ret ∅
  | Raise e => lift (Raise e)
  | Ok max_deg => select_by_degree graph (λ d, (Z.of_nat d <=? max_deg)%Z)
  end.

Definition _filter_by_equipment_category (graph : ref) (categories : pyval)
  : M (gset string) :=
  let categories :=
    match categories with VStr _ => VList [categories] | _ => categories end in
  cats ← lift (py_iter categories);
  category_keywords ←
    lift (foldM (λ kws category,
                   more ← FilterSystem.category_keywords_of category;
                   Ok (kws ++ more)%list)
                [] cats);
  match category_keywords with
  | [] => ret ∅
  | _ =>
      let hit := FilterSystem.keyword_hit category_keywords in
      select_nodes graph (λ node data,
        entity_type ← attr_lower data "type";
        if hit entity_type then ret true else
        want_vehicle ←
          lift (v ← py_in (VStr "vehicle") categories;
                if v : bool then Ok true
                else py_in (VStr "vehicles") categories);
        by_vehicle ←
          (if want_vehicle : bool
           then vt ← attr_lower data "vehicle_type"; ret (hit vt)
           else ret false);
        if by_vehicle : bool then ret true else
        want_admin ← lift (py_in (VStr "administrative") categories);
        by_org ←
          (if want_admin : bool
           then ot ← attr_lower data "organization_type"; ret (hit ot)
           else ret false);
        if by_org : bool then ret true else
        want_geo ← lift (py_in (VStr "geographic") categories);
        by_area ←
          (if want_geo : bool
           then aty ← attr_lower data "area_type"; ret (hit aty)
           else ret false);
        if by_area : bool then ret true else
        label ← attr_lower data "label";
        if hit label then ret true else
        entity_data ← data_get data "data" (VDict []);
        has_names ← lift (py_in (VStr "names") entity_data);
        in_names ←
          (if has_names : bool then
             names ← lift (py_get entity_data "names" (VList []));
             items ← lift (py_iter names);
             lift (FilterSystem.names_match hit items)
           else ret false);
        if in_names : bool then ret true else
        lift (FilterSystem.fields_match hit entity_data
                ["description"; "title"; "model"; "make"; "classification"]))
  end.

(** [self.available_filters] *)
Definition available_filters : list (string * (ref → pyval → M (gset string))) :=
  [("country", _filter_by_country);
   ("type", _filter_by_type);
   ("year", _filter_by_year);
   ("year_range", _filter_by_year_range);
   ("manufacturer", _filter_by_manufacturer);
   ("owner", _filter_by_owner);
   ("vehicle_type", _filter_by_vehicle_type);
   ("organization_type", _filter_by_organization_type);
   ("area_type", _filter_by_area_type);
   ("relationship", _filter_by_relationship);
   ("keyword", _filter_by_keyword);
   ("has_connection", _filter_by_connection);
   ("degree_min", _filter_by_min_degree);
   ("degree_max", _filter_by_max_degree);
   ("equipment_category", _filter_by_equipment_category)].

(** The body of [for filter_name, filter_value in filters.items()] in
    [apply_filters]. *)
Definition apply_one (graph : ref) (valid_nodes : gset string)
    (flt : string * pyval) : M (gset string) :=
  match assoc_get flt.1 available_filters with
  | Some filter_func =>
      filtered_nodes ← filter_func graph flt.2;
      ret (valid_nodes ∩ filtered_nodes)
  | None => ret valid_nodes
  end.

Definition apply_filters (graph : ref) (filters : dict) : M ref :=
  match filters with
  | [] => copy graph
  | _ =>
      all_nodes ← nodes graph;
      valid_nodes ← for_each (apply_one graph) (list_to_set all_nodes) filters;
      subgraph_copy graph valid_nodes
  end.

End StoreFilterSystem.

(** ** Definitions that follow the specification's wording *)

Module Spec.
Import Py Nx GraphBuilder FilterSystem StatisticsGenerator.

(** The matched-node sets of the recognised filters of a filter map, in the
    order of the map; unrecognised names contribute nothing. *)
Fixpoint matched_sets (g : graph) (filters : dict) : res (list (gset string)) :=
  match filters with
  | [] => Ok []
  | (name, value) :: rest =>
      match assoc_get name available_filters with
      | Some filter_func =>
          s ← filter_func g value;
          ss ← matched_sets g rest;
          Ok (s :: ss)
      | None => matched_sets g rest
      end
  end.

(** The intersection of a family of node sets within the graph's nodes. *)
Definition intersection_within (universe : gset string)
    (sets : list (gset string)) : gset string :=
  foldr (∩) universe sets.

(** The induced subgraph: the nodes of [keep], and exactly the edges whose
    both endpoints are in [keep]. *)
Definition induced (g sub : graph) (keep : gset string) : Prop :=
  node_set sub = node_set g ∩ keep
  ∧ (∀ n attrs, (n, attrs) ∈ nodes sub ↔ (n, attrs) ∈ nodes g ∧ n ∈ keep)
  ∧ (∀ e, e ∈ edges sub ↔ e ∈ edges g ∧ e.1.1 ∈ keep ∧ e.1.2 ∈ keep).

(** The six attribute slots of the completeness score: required, then
    optional. *)
Definition attribute_slots : list string :=
  ["type"; "label"; "year"; "country"; "manufacturer"; "owner"].

(** A slot is non-empty on a node when the attribute is present and is not
    one of Python's empty values. *)
Definition non_empty (data : dict) (slot : string) : bool :=
  match assoc_get slot data with
  | Some v => truthy v
  | None => false
  end.

Definition non_empty_slots (data : dict) : nat :=
  length (filter (λ slot, non_empty data slot = true) attribute_slots).

(** Completeness: the fraction of the attribute slots of all nodes that are
    non-empty. *)
Definition completeness (g : graph) : Q :=
  inject_Z (Z.of_nat (list_sum (map (λ nd, non_empty_slots nd.2) (nodes g))))
  / inject_Z (Z.of_nat (6 * length (nodes g))).

Definition canonical (data : dict) : bool :=
  match assoc_get "type" data with
  | Some v =>
      existsb (py_eq v)
        [VStr "country"; VStr "vehicle"; VStr "person"; VStr "area";
         VStr "militaryOrganization"]
  | None => false
  end.

(** Consistency: the fraction of nodes whose type is one of the five
    canonical types. *)
Definition consistency (g : graph) : Q :=
  inject_Z (Z.of_nat (length (filter (λ nd, canonical nd.2 = true) (nodes g))))
  / inject_Z (Z.of_nat (length (nodes g))).

(** The data-quality score of a graph with at least one node, over the
    rationals. *)
Definition quality (g : graph) : Q :=
  Qmin 1
    ((3 # 10) * (inject_Z (Z.of_nat (length (edges g)))
                 / inject_Z (Z.of_nat (Nat.max 1 (length (nodes g)))))
     + (1 # 2) * completeness g
     + (1 # 5) * consistency g)%Q.

(** The same three fractions and the same formula in binary64: each
    fraction is the quotient of its two counts rounded to the nearest
    double, and each product and each sum is rounded in turn. *)
Definition completeness_binary64 (g : graph) : float :=
  int_truediv
    (Z.of_nat (list_sum (map (λ nd, non_empty_slots nd.2) (nodes g))))
    (Z.of_nat (6 * length (nodes g))).

Definition consistency_binary64 (g : graph) : float :=
  int_truediv
    (Z.of_nat (length (filter (λ nd, canonical nd.2 = true) (nodes g))))
    (Z.of_nat (length (nodes g))).

Definition quality_binary64 (g : graph) : float :=
  float_min float_1_0
    (float_add
       (float_add
          (float_mul float_0_3
             (int_truediv (Z.of_nat (length (edges g)))
                          (Z.of_nat (Nat.max 1 (length (nodes g))))))
          (float_mul float_0_5 (completeness_binary64 g)))
       (float_mul float_0_2 (consistency_binary64 g))).

(** A float that is not NaN and whose sign bit is clear. *)
Definition non_negative (x : float) : Prop :=
  match x with
  | S754_zero s | S754_infinity s | S754_finite s _ _ => s = false
  | S754_nan => False
  end.

(** A node comes from a collection: its type attribute is the collection's
    name, one of [entity_types], and the collection holds an entity with the
    node's id. *)
Definition from_collection (database : dict) (nd : string * dict) : Prop :=
  ∃ entity_type entities items d,
    entity_type ∈ entity_types
    ∧ assoc_get "type" nd.2 = Some (VStr entity_type)
    ∧ assoc_get entity_type database = Some entities
    ∧ py_iter entities = Ok items
    ∧ VDict d ∈ items
    ∧ assoc_get "id" d = Some (VStr nd.1).

(** An edge list of a simple graph: no self-loop, and no two entries for
    the same unordered pair. *)
Fixpoint simple_edges (es : list (string * string * edge_data)) : Prop :=
  match es with
  | [] => True
  | (a, b, _) :: es' => a ≠ b ∧ find_edge a b es' = None ∧ simple_edges es'
  end.

(** An edge insertion requested by the builder: source, target, and the
    field that produced it. *)
Definition insertion := (string * string * string)%type.

(** The insertions one reference makes: one per target id that is a known
    entity. *)
Definition insertions_for (entity_map : entity_map_t) (entity_id field : string)
    (target_ids : list string) : list insertion :=
  map (λ t, (entity_id, t, field))
      (filter (λ t, assoc_mem t entity_map = true) target_ids).

(** The insertions of one entity: direct references, then list references,
    then hierarchical references. *)
Definition entity_insertions (entity_map : entity_map_t)
    (item : string * (string * dict)) : res (list insertion) :=
  hier ← _extract_hierarchical_references item.2.2;
  Ok (flat_map (λ ref, insertions_for entity_map item.1 ref.1 [ref.2])
               (_extract_direct_references item.2.2)
      ++ flat_map (λ ref, insertions_for entity_map item.1 ref.1 ref.2)
                  (_extract_list_references item.2.2)
      ++ flat_map (λ ref, insertions_for entity_map item.1 ref.1 ref.2) hier)%list.

(** All insertions of a build, in processing order. *)
Definition all_insertions (entity_map : entity_map_t) : res (list insertion) :=
  foldM (λ acc item, ins ← entity_insertions entity_map item; Ok (acc ++ ins)%list)
        [] entity_map.

(** The field of the last insertion that joins [u] and [v], if any. *)
Definition last_label (u v : string) (log : list insertion) : option string :=
  fold_left
    (λ acc ins,
       if negb (String.eqb ins.1.1 ins.1.2) && same_pair u v ins.1.1 ins.1.2
       then Some ins.2 else acc)
    log None.

(** The graph after a sequence of insertions. *)
Definition apply_insertions (g : graph) (log : list insertion) : graph :=
  fold_left (λ g ins, _add_edge g ins.1.1 ins.1.2 ins.2) log g.

(** The edge data every insertion of the builder writes. *)
Definition labelled (field : string) : edge_data :=
  mkEdgeData (Some (VStr field)) (Some 1%Q).

(** What an insertion does to the edge list. *)
Definition insert_edge (es : list (string * string * edge_data))
    (ins : insertion) : list (string * string * edge_data) :=
  if negb (String.eqb ins.1.1 ins.1.2)
  then update_edge ins.1.1 ins.1.2 (VStr ins.2) 1%Q es
  else es.

(** The state of [build_graph] during its node pass: every node comes from
    a collection, every key of the entity map is a node, and no edge has
    been added yet. *)
Definition node_pass (database : dict) (st : graph * entity_map_t) : Prop :=
  Forall (from_collection database) (nodes st.1)
  ∧ (∀ k, assoc_mem k st.2 = true → assoc_mem k (nodes st.1) = true)
  ∧ edges st.1 = [].

(** What one entity of a collection offers to the merge: its id, the name
    of the source, and the entity, when the id is a non-empty string;
    entities without an id offer nothing. *)
Definition offered_by (db_name : string) (entity : pyval)
  : list (string * (string * dict)) :=
  match entity with
  | VDict d =>
      match assoc_get "id" d with
      | Some (VStr s) => if String.eqb s "" then [] else [(s, (db_name, d))]
      | _ => []
      end
  | _ => []
  end.

(** What a source offers for an entity type, in the order of its
    collection. *)
Definition offered (entity_type : string) (src : string * dict)
  : list (string * (string * dict)) :=
  match assoc_get entity_type src.2 with
  | Some entities =>
      match py_iter entities with
      | Ok items => flat_map (offered_by src.1) items
      | Raise _ => []
      end
  | None => []
  end.

(** First source wins: an offer is kept only if its id has not been
    offered before. *)
Fixpoint first_wins {X} (seen : gset string) (offers : list (string * X))
  : list (string * X) :=
  match offers with
  | [] => []
  | (id, x) :: rest =>
      if decide (id ∈ seen) then first_wins seen rest
      else (id, x) :: first_wins ({[id]} ∪ seen) rest
  end.

(** A kept entity: a copy tagged with the name of its source. *)
Definition tagged (offer : string * (string * dict)) : pyval :=
  VDict (assoc_set "_source_database" (VStr offer.2.1) offer.2.2).

(** The merged collection of an entity type. *)
Definition merged (databases : list (string * dict)) (entity_type : string)
  : list (string * (string * dict)) :=
  first_wins ∅ (flat_map (offered entity_type) databases).

(** The state of [combine_databases] agrees with the offers [offers] made
    so far for [entity_type]. *)
Definition merge_state (entity_type : string) (st : combine_state)
    (offers : list (string * (string * dict))) : Prop :=
  assoc_get entity_type (combined st) = Some (map tagged (first_wins ∅ offers))
  ∧ seen_of st entity_type = list_to_set (map fst offers).

(** An entity whose id, when present, is a string or an empty value. *)
Definition string_id (d : dict) : Prop :=
  truthy (dict_get_default d "id" VNone) = true →
  ∃ s, assoc_get "id" d = Some (VStr s).

(** A source whose collections are lists of objects with string ids. *)
Definition well_typed (database : dict) : Prop :=
  ∀ entity_type entities,
    entity_type ∈ entity_types →
    assoc_get entity_type database = Some entities →
    ∃ items, entities = VList items
             ∧ Forall (λ e, ∃ d, e = VDict d ∧ string_id d) items.




(** The ids of the entities of the eight collections, in processing
    order: the non-empty string ids. *)
Definition collection_ids (database : dict) : list string :=
  flat_map (λ t, map fst (offered t ("", database))) entity_types.

(** The relationship labels the builder can write: the direct and list
    reference fields and the three hierarchical labels. *)
Definition relationship_labels : list string :=
  (ref_fields ++ list_fields
   ++ ["temporal_location"; "state_location"; "state_organization"])%list.

(** The attribute names a built node can carry. *)
Definition node_attribute_names : list string :=
  ["type"; "label"; "color"; "data"; "year"; "manufacturer"; "model";
   "owner"; "country"; "nationality"].

(** What [_add_node] writes for an entity [d] of a collection: the
    collection's name as type, the default colour, a label, the entity as
    [data] when metadata is included and no [data] otherwise, and no
    attribute beyond [node_attribute_names]. *)
Definition built_attributes (entity_type : string) (include_metadata : bool)
    (d attrs : dict) : Prop :=
  assoc_get "type" attrs = Some (VStr entity_type)
  ∧ assoc_get "color" attrs = Some (VStr "#808080")
  ∧ assoc_mem "label" attrs = true
  ∧ assoc_get "data" attrs
    = (if include_metadata then Some (VDict d) else None)
  ∧ Forall (λ k, k ∈ node_attribute_names) (keys attrs).

(** What [build_graph] guarantees of a node: it stems from an entity [d]
    with the node's id in the collection named by its type, and carries the
    attributes [_add_node] writes for [d]. *)
Definition built_node (database : dict) (include_metadata : bool)
    (nd : string * dict) : Prop :=
  ∃ entity_type entities items d,
    entity_type ∈ entity_types
    ∧ assoc_get entity_type database = Some entities
    ∧ py_iter entities = Ok items
    ∧ VDict d ∈ items
    ∧ assoc_get "id" d = Some (VStr nd.1)
    ∧ built_attributes entity_type include_metadata d nd.2.

(** The state of [combine_databases] keeps one collection per entity type,
    and its counter of an entity type is the length of the collection, with
    no entry while the collection is empty. *)
Definition counted (st : combine_state) : Prop :=
  keys (combined st) = entity_types
  ∧ ∀ t, assoc_get t (entity_counts st)
         = match length (combined_of st t) with
           | O => None
           | S n => Some (S n)
           end.

(** A node passes a test when the test returns [True] on it. *)
Definition passes (test : string → dict → res bool) (nd : string * dict) : bool :=
  match test nd.1 nd.2 with
  | Ok true => true
  | _ => false
  end.

(** The filters that look at one node at a time: the node's id and
    attributes decide, not its edges or the rest of the graph. *)
Definition node_local_filters : list string :=
  ["country"; "type"; "year"; "year_range"; "manufacturer"; "owner";
   "vehicle_type"; "organization_type"; "area_type"; "keyword";
   "equipment_category"].

(** A filter function commutes with taking a subgraph. *)
Definition node_local (f : graph → pyval → res (gset string)) : Prop :=
  ∀ g keep value s,
    f g value = Ok s → f (subgraph g keep) value = Ok (s ∩ keep).

(** A condition of an advanced filter that holds a single filter:
    [{'filter': {name: value}, 'not': negate}]. *)
Definition single_condition (c : string * pyval * bool) : pyval :=
  VDict [("filter", VDict [(c.1.1, c.1.2)]); ("not", VBool c.2)].

(** The nodes a single-filter condition stands for, given the set its
    filter matches. *)
Definition condition_set (g : graph) (negate : bool) (matched : gset string)
  : gset string :=
  if negate then node_set g ∖ matched else matched.

(** The sum of the counts of a counter. *)
Definition counter_total (c : counter) : nat :=
  foldr (λ kn acc, (kn.2 + acc)%nat) 0%nat c.

(** What the counters of a country analysis satisfy at every point of the
    loop. *)
Definition country_stats_consistent (st : country_stats) : Prop :=
  (vehicles st + organizations st + areas st + people st ≤ total_assets st)%nat
  ∧ counter_total (vehicle_types st) = vehicles st
  ∧ counter_total (manufacturers st) = vehicles st
  ∧ counter_total (organization_types st) = organizations st
  ∧ (counter_total (timeline st) ≤ total_assets st)%nat.

(** A year the filters can compare with an integer: absent, or an
    integer. *)
Definition year_value (v : pyval) : Prop := v = VNone ∨ ∃ z, v = VInt z.

(** A node whose [year] attribute and whose entity's [year] are absent or
    integers. *)
Definition integer_years (nd : string * dict) : Prop :=
  year_value (dict_get_default nd.2 "year" VNone)
  ∧ ∃ d, dict_get_default nd.2 "data" (VDict []) = VDict d
         ∧ year_value (dict_get_default d "year" VNone).

(** The tests of the [year] and [year_range] filters on one node. *)
Definition year_test (target_year : Z) (node : string) (data : dict) : res bool :=
  let node_year := dict_get_default data "year" VNone in
  if py_eq node_year (VInt target_year) then Ok true else
  let entity_data := dict_get_default data "data" (VDict []) in
  entity_year ← py_get entity_data "year" VNone;
  Ok (py_eq entity_year (VInt target_year)).

Definition year_range_test (start_year end_year : Z) (node : string)
    (data : dict) : res bool :=
  let node_year := dict_get_default data "year" VNone in
  b ← in_year_range start_year end_year node_year;
  if b : bool then Ok true else
  let entity_data := dict_get_default data "data" (VDict []) in
  entity_year ← py_get entity_data "year" VNone;
  in_year_range start_year end_year entity_year.

(** Two nodes joined by an edge, in either direction. *)
Definition adjacent (g : graph) (a b : string) : Prop :=
  ∃ d, (a, b, d) ∈ edges g ∨ (b, a, d) ∈ edges g.

(** [b] can be reached from [a] along at most [k] edges. *)
Fixpoint within (g : graph) (k : nat) (a b : string) : Prop :=
  match k with
  | O => a = b
  | S k' => within g k' a b ∨ ∃ c, within g k' a c ∧ adjacent g c b
  end.

(** What networkx maintains of a graph: every node is listed once, and the
    endpoints of every edge are nodes. *)
Definition well_formed_graph (g : graph) : Prop :=
  NoDup (keys (nodes g))
  ∧ ∀ e, e ∈ edges g → e.1.1 ∈ node_set g ∧ e.1.2 ∈ node_set g.

(** The state of the breadth-first search after [level] rounds from
    [source]: the nodes seen are those within [level] steps, and a seen node
    outside the current frontier has all its neighbours seen. *)
Definition search_state (g : graph) (source : string) (level : nat)
    (seen : gset string) (frontier : list string) : Prop :=
  (∀ n, n ∈ seen ↔ within g level source n)
  ∧ (∀ n, n ∈ frontier → n ∈ seen)
  ∧ ∀ c n, c ∈ seen → c ∉ frontier → adjacent g c n → n ∈ seen.

End Spec.

(** ** Concrete inputs *)

Module Examples.
Import Py Nx.

(** The database of the end-to-end scenario: one country, one vehicle owned
    by it, one vehicle type. *)
Definition scenario_db : dict :=
  [("countries",
    VList [VDict [("id", VStr "c1");
                  ("names", VList [VDict [("nameType", VStr "official");
                                          ("value", VStr "UK")]])]]);
   ("vehicles",
    VList [VDict [("id", VStr "v1"); ("owner", VStr "c1");
                  ("vehicleType", VStr "vt1"); ("year", VInt 1990);
                  ("make", VStr "BAE")]]);
   ("vehicleTypes", VList [VDict [("id", VStr "vt1")]])].

Definition two_node_graph : graph :=
  mkGraph []
    [("a", [("type", VStr "vehicle")]); ("b", [("type", VStr "country")])]
    [("a", "b", mkEdgeData (Some (VStr "owner")) (Some 1%Q))].

(** [two_node_graph] as objects: the graph at reference 1, its attribute
    dictionaries at 2, 3 and 4. *)
Definition two_node_store : Store.store :=
  list_to_map
    [(1%positive, Store.OGraph [] [("a", 2%positive); ("b", 3%positive)]
                    [("a", "b", 4%positive)]);
     (2%positive, Store.ONodeAttrs [("type", VStr "vehicle")]);
     (3%positive, Store.ONodeAttrs [("type", VStr "country")]);
     (4%positive,
      Store.OEdgeAttrs (mkEdgeData (Some (VStr "owner")) (Some 1%Q)))].

(** A graph with a single node and no attributes. *)
Definition one_node_graph : graph := mkGraph [] [("a", [])] [].

(** Two sources that both hold a vehicle with id [v1]. *)
Definition source_a : dict :=
  [("vehicles", VList [VDict [("id", VStr "v1"); ("make", VStr "BAE")];
                       VDict [("id", VStr "v2")]])].

Definition source_b : dict :=
  [("vehicles", VList [VDict [("id", VStr "v1"); ("make", VStr "Saab")];
                       VDict [("id", VStr "v3")]])].

(** A vehicle that names the same country as owner and as country, and
    itself as headquarters. *)
Definition overwrite_db : dict :=
  [("countries", VList [VDict [("id", VStr "c1")]]);
   ("vehicles",
    VList [VDict [("id", VStr "v1"); ("owner", VStr "c1");
                  ("country", VStr "c1"); ("headquarters", VStr "v1")]])].

(** A collection with an entity without id and two entities that share an
    id; the vehicle's owner names an entity that does not exist. *)
Definition gaps_db : dict :=
  [("countries",
    VList [VDict [("id", VStr "c1")];
           VDict [("title", VStr "no id")];
           VDict [("id", VStr "c1"); ("title", VStr "again")]]);
   ("vehicles",
    VList [VDict [("id", VStr "v1"); ("owner", VStr "nobody");
                  ("country", VStr "c1")]])].

(** Six nodes with all six attribute slots filled, three of them of a
    canonical type, and eight edges: the three fractions are 8/6, 1 and
    1/2. *)
Definition slots_filled (type : string) : dict :=
  [("type", VStr type); ("label", VStr "Unit"); ("year", VInt 1990);
   ("country", VStr "uk"); ("manufacturer", VStr "BAE");
   ("owner", VStr "uk")].

Definition quality_graph : graph :=
  mkGraph []
    [("n1", slots_filled "vehicle"); ("n2", slots_filled "vehicle");
     ("n3", slots_filled "vehicle"); ("n4", slots_filled "vehicles");
     ("n5", slots_filled "vehicles"); ("n6", slots_filled "vehicles")]
    (map (λ uv : string * string,
            (uv.1, uv.2, mkEdgeData (Some (VStr "owner")) (Some 1%Q)))
         [("n1", "n2"); ("n1", "n3"); ("n1", "n4"); ("n1", "n5");
          ("n1", "n6"); ("n2", "n3"); ("n2", "n4"); ("n2", "n5")]).

(** Three labelled nodes in a path [t1 - t2 - t3]. *)
Definition path_graph : graph :=
  mkGraph []
    [("t1", [("type", VStr "vehicle"); ("label", VStr "Tank Alpha");
             ("country", VStr "uk"); ("year", VInt 1990);
             ("manufacturer", VStr "BAE")]);
     ("t2", [("type", VStr "vehicle"); ("label", VStr "Tank Bravo");
             ("owner", VStr "uk")]);
     ("t3", [("type", VStr "person"); ("label", VStr "Crew");
             ("nationality", VStr "uk")])]
    [("t1", "t2", mkEdgeData (Some (VStr "owner")) (Some 1%Q));
     ("t2", "t3", mkEdgeData (Some (VStr "owner")) (Some 1%Q))].

(** The analyses of three countries, two of them with equal totals. *)
Definition ranking_data : list (string * StatisticsGenerator.country_stats) :=
  [("A", StatisticsGenerator.mkCountryStats 1 1 0 0 0 [] [] [] []);
   ("B", StatisticsGenerator.mkCountryStats 3 2 1 0 0 [] [] [] []);
   ("C", StatisticsGenerator.mkCountryStats 1 0 0 0 1 [] [] [] [])].

(** Centrality scores, two of them equal. *)
Definition scores : list (string * Q) :=
  [("a", 1 # 2); ("b", 3 # 4); ("c", 1 # 2); ("d", 1 # 10)].

(** A node whose year is the string ['1990'], as JSON data may have it. *)
Definition string_year_graph : graph :=
  mkGraph []
    [("t1", [("type", VStr "vehicle"); ("year", VInt 1990)]);
     ("t2", [("type", VStr "vehicle"); ("year", VStr "1990")])]
    [].

End Examples.

(** * Properties *)

Import Py Nx GraphBuilder FilterSystem StatisticsGenerator Examples.

Arguments available_filters : simpl never.

(** ** The result monad and association lists *)

Lemma bind_Ok {A B} (a : A) (k : A → res B) : (Ok a ≫= k) = k a.
Proof. reflexivity. Qed.

Lemma bind_Ok_inv {A B} (m : res A) (k : A → res B) (b : B) :
  (m ≫= k) = Ok b → ∃ a, m = Ok a ∧ k a = Ok b.
Proof. destruct m as [a|e]; [eauto | discriminate]. Qed.

Ltac bind_inv H :=
  let a := fresh "a" in
  let Ha := fresh "Ha" in
  apply bind_Ok_inv in H; destruct H as (a & Ha & H).

(** A property kept by every successful step is kept by a successful loop. *)
Lemma foldM_invariant {A B} (P : B → Prop) (f : B → A → res B) (l : list A) :
  (∀ acc x acc', x ∈ l → P acc → f acc x = Ok acc' → P acc') →
  ∀ acc out, P acc → foldM f acc l = Ok out → P out.
Proof.
  induction l as [|x l IH]; intros Hstep acc out Hacc Hrun; simpl in Hrun.
  - congruence.
  - bind_inv Hrun.
    apply (IH (λ acc x acc' Hx, Hstep acc x acc' (list_elem_of_further _ _ _ Hx))
              a out); [|exact Hrun].
    apply (Hstep acc x a); [left | exact Hacc | exact Ha].
Qed.

Lemma assoc_get_set_eq {V} (k : string) (v : V) d :
  assoc_get k (assoc_set k v d) = Some v.
Proof.
  induction d as [|[k' v'] d IH]; simpl.
  - by rewrite String.eqb_refl.
  - destruct (String.eqb k k') eqn:E; simpl; rewrite E; [done | exact IH].
Qed.

Lemma assoc_get_set_ne {V} (k k' : string) (v : V) d :
  k ≠ k' → assoc_get k' (assoc_set k v d) = assoc_get k' d.
Proof.
  intros Hne. induction d as [|[k0 v0] d IH]; simpl.
  - destruct (String.eqb k' k) eqn:E; [|done].
    apply String.eqb_eq in E; congruence.
  - destruct (String.eqb k k0) eqn:E; simpl.
    + apply String.eqb_eq in E; subst k0.
      destruct (String.eqb k' k) eqn:E'; [|done].
      apply String.eqb_eq in E'; congruence.
    + by rewrite IH.
Qed.

Lemma assoc_mem_elem_of {V} (k : string) (d : list (string * V)) :
  assoc_mem k d = true ↔ k ∈ map fst d.
Proof.
  unfold assoc_mem. induction d as [|[k' v'] d IH]; simpl.
  - split; [done | by intros ?%elem_of_nil].
  - destruct (String.eqb k k') eqn:E.
    + apply String.eqb_eq in E; subst. split; [intros _; left | done].
    + rewrite IH. split; [by right|].
      intros [->|H]%elem_of_cons; [|done].
      by rewrite String.eqb_refl in E.
Qed.

(** ** Node sets of subgraphs *)

Lemma node_set_subgraph (g : graph) (keep : gset string) :
  node_set (subgraph g keep) = node_set g ∩ keep.
Proof.
  unfold node_set, subgraph; simpl.
  induction (nodes g) as [|[n a] l IH]; simpl; [set_solver|].
  rewrite filter_cons; simpl.
  destruct (decide (n ∈ keep)); simpl; rewrite IH; set_solver.
Qed.

Lemma nodes_subgraph_all (g : graph) (keep : gset string) :
  node_set g ⊆ keep → nodes (subgraph g keep) = nodes g.
Proof.
  unfold node_set, subgraph; simpl.
  induction (nodes g) as [|[n a] l IH]; simpl; intros Hsub; [done|].
  rewrite filter_cons; simpl.
  destruct (decide (n ∈ keep)) as [_|Hn]; [|set_solver].
  f_equal. apply IH. set_solver.
Qed.

Lemma subgraph_induced (g : graph) (keep : gset string) :
  Spec.induced g (subgraph g keep) keep.
Proof.
  split; [apply node_set_subgraph|]. split.
  - intros n attrs. unfold subgraph; simpl.
    rewrite list_elem_of_filter. simpl. tauto.
  - intros e. unfold subgraph; simpl.
    rewrite list_elem_of_filter. tauto.
Qed.

(** ** [apply_filters]: conjunction of the named filters *)

Lemma foldr_inter_start (ss : list (gset string)) (u s : gset string) :
  foldr (∩) (u ∩ s) ss = s ∩ foldr (∩) u ss.
Proof. induction ss as [|s' ss IH]; simpl; [|rewrite IH]; set_solver. Qed.

Lemma apply_one_unfold (g : graph) (valid : gset string) name value :
  apply_one g valid (name, value) =
  match assoc_get name available_filters with
  | Some filter_func => s ← filter_func g value; Ok (valid ∩ s)
  | None => Ok valid
  end.
Proof. reflexivity. Qed.

Lemma filter_node_set_from (g : graph) (filters : dict) (start : gset string) :
  foldM (apply_one g) start filters =
  (ss ← Spec.matched_sets g filters; Ok (foldr (∩) start ss)).
Proof.
  revert start; induction filters as [|[name value] rest IH]; intros start.
  - reflexivity.
  - cbn [foldM Spec.matched_sets]. rewrite apply_one_unfold.
    destruct (assoc_get name available_filters) as [f|].
    + destruct (f g value) as [s|e]; [|reflexivity].
      rewrite !bind_Ok, IH.
      destruct (Spec.matched_sets g rest) as [ss|e]; [|reflexivity].
      rewrite !bind_Ok. cbn [foldr]. f_equal. apply foldr_inter_start.
    + apply IH.
Qed.

Lemma apply_filters_node_set (g : graph) (filters : dict) :
  node_set <$> apply_filters g filters =
  (ss ← Spec.matched_sets g filters;
   Ok (Spec.intersection_within (node_set g) ss)).
Proof.
  unfold apply_filters, Spec.intersection_within.
  destruct filters as [|flt rest].
  - simpl. f_equal. unfold copy. rewrite node_set_subgraph. set_solver.
  - unfold filter_node_set. rewrite filter_node_set_from.
    destruct (Spec.matched_sets g (flt :: rest)) as [ss|e]; [|reflexivity].
    simpl. f_equal. rewrite node_set_subgraph.
    assert (foldr (∩) (node_set g) ss ⊆ node_set g); [|set_solver].
    clear. induction ss as [|s ss IH]; simpl; set_solver.
Qed.

(** C2.  AND semantics of [apply_filters]: for every graph and every two
    filters, the node set of the graph filtered by both is the intersection
    of the node sets of the graph filtered by each (an exception raised by
    either filter is raised in both readings); and for every filter map the
    resulting node set is the intersection, within the graph's nodes, of the
    matched-node sets of the recognised filters of the map. *)
Theorem apply_filters_is_intersection :
  (∀ (g : graph) (name1 : string) (value1 : pyval)
     (name2 : string) (value2 : pyval),
     node_set <$> apply_filters g [(name1, value1); (name2, value2)] =
     (s1 ← node_set <$> apply_filters g [(name1, value1)];
      s2 ← node_set <$> apply_filters g [(name2, value2)];
      Ok (s1 ∩ s2)))
  ∧ (∀ (g : graph) (filters : dict),
       node_set <$> apply_filters g filters =
       (ss ← Spec.matched_sets g filters;
        Ok (Spec.intersection_within (node_set g) ss))).
Proof.
  split; [|exact apply_filters_node_set].
  intros g name1 value1 name2 value2.
  rewrite !apply_filters_node_set. cbn [Spec.matched_sets].
  destruct (assoc_get name1 available_filters) as [f1|];
    destruct (assoc_get name2 available_filters) as [f2|];
    try destruct (f1 g value1) as [s1|e1];
    try destruct (f2 g value2) as [s2|e2];
    try reflexivity;
    simpl; f_equal; set_solver.
Qed.

(** C7.  A filter map whose only key is not a recognised filter name
    restricts nothing: [apply_filters] returns a graph with all the nodes of
    [g], attributes included, and all its edges between nodes. *)
Theorem unknown_filter_is_noop (g : graph) (name : string) (value : pyval) :
  assoc_get name available_filters = None →
  ∃ g', apply_filters g [(name, value)] = Ok g'
        ∧ node_set g' = node_set g
        ∧ nodes g' = nodes g
        ∧ (∀ e, e ∈ edges g' ↔
                e ∈ edges g ∧ e.1.1 ∈ node_set g ∧ e.1.2 ∈ node_set g).
Proof.
  intros Hunknown. exists (subgraph g (node_set g)).
  split; [|split; [|split]].
  - unfold apply_filters, filter_node_set. cbn [foldM].
    rewrite apply_one_unfold, Hunknown. reflexivity.
  - rewrite node_set_subgraph. set_solver.
  - by apply nodes_subgraph_all.
  - apply subgraph_induced.
Qed.

(** The filter map [{'bogus': 1}] on a one-node graph. *)
Lemma unknown_filter_is_noop_witness :
  assoc_get "bogus" available_filters = None
  ∧ ∃ g', apply_filters one_node_graph [("bogus", VInt 1)] = Ok g'
          ∧ node_set g' = node_set one_node_graph
          ∧ nodes g' = nodes one_node_graph.
Proof.
  split; [reflexivity|].
  destruct (unknown_filter_is_noop one_node_graph "bogus" (VInt 1) eq_refl)
    as (g' & Hrun & Hset & Hnodes & _).
  exists g'. split; [exact Hrun|]. split; [exact Hset | exact Hnodes].
Defined.

(** ** [apply_filters] leaves its argument alone *)

Lemma apply_filters_induced (g sub : graph) (filters : dict) :
  apply_filters g filters = Ok sub → Spec.induced g sub (node_set sub).
Proof.
  unfold apply_filters. destruct filters as [|flt rest].
  - intros [= <-]. unfold copy.
    replace (node_set (subgraph g (node_set g))) with (node_set g)
      by (rewrite node_set_subgraph; set_solver).
    apply subgraph_induced.
  - intros Hrun. bind_inv Hrun. injection Hrun as <-.
    assert (Hsub : a ⊆ node_set g).
    { revert Ha. unfold filter_node_set.
      apply (foldM_invariant (λ s, s ⊆ node_set g)); [|done].
      intros acc [name value] acc' _ Hacc. rewrite apply_one_unfold.
      destruct (assoc_get name available_filters) as [f|].
      - intros H. bind_inv H. injection H as <-. set_solver.
      - by intros [= <-]. }
    replace (node_set (subgraph g a)) with a
      by (rewrite node_set_subgraph; set_solver).
    apply subgraph_induced.
Qed.

(** *** Computations that only read the store *)

Lemma reads_ret {A} (h : Store.store) (a : A) :
  Store.reads h (Store.ret a) (Ok a).
Proof. reflexivity. Qed.

Lemma reads_lift {A} (h : Store.store) (r : res A) :
  Store.reads h (Store.lift r) r.
Proof. reflexivity. Qed.

Lemma reads_bind {A B} (h : Store.store) (m : Store.M A) (r : res A)
    (k : A → Store.M B) (k' : A → res B) :
  Store.reads h m r →
  (∀ a, Store.reads h (k a) (k' a)) →
  Store.reads h (m ≫= k) (r ≫= k').
Proof.
  unfold Store.reads. intros Hm Hk. unfold mbind at 1, Store.M_bind.
  rewrite Hm. destruct r as [a|e]; [apply Hk | reflexivity].
Qed.

Lemma reads_bind_Ok {A B} (h : Store.store) (m : Store.M A) (a : A)
    (k : A → Store.M B) (r : res B) :
  Store.reads h m (Ok a) →
  Store.reads h (k a) r →
  Store.reads h (m ≫= k) r.
Proof.
  unfold Store.reads. intros Hm Hk. unfold mbind, Store.M_bind.
  by rewrite Hm.
Qed.

Lemma reads_get_object (h : Store.store) (r : Store.ref) (o : Store.object) :
  h !! r = Some o → Store.reads h (Store.get_object r) (Ok o).
Proof. intros H. unfold Store.reads, Store.get_object. by rewrite H. Qed.

Lemma reads_node_attrs_of (h : Store.store) (data : Store.ref) (d : dict) :
  h !! data = Some (Store.ONodeAttrs d) →
  Store.reads h (Store.node_attrs_of data) (Ok d).
Proof.
  intros H. unfold Store.node_attrs_of.
  eapply reads_bind_Ok; [by apply reads_get_object|]. apply reads_ret.
Qed.

Lemma reads_edge_attrs_of (h : Store.store) (data : Store.ref) (d : edge_data) :
  h !! data = Some (Store.OEdgeAttrs d) →
  Store.reads h (Store.edge_attrs_of data) (Ok d).
Proof.
  intros H. unfold Store.edge_attrs_of.
  eapply reads_bind_Ok; [by apply reads_get_object|]. apply reads_ret.
Qed.

Lemma reads_data_get (h : Store.store) (data : Store.ref) (d : dict)
    (key : string) (default : pyval) :
  h !! data = Some (Store.ONodeAttrs d) →
  Store.reads h (Store.data_get data key default)
    (Ok (dict_get_default d key default)).
Proof.
  intros H. unfold Store.data_get.
  eapply reads_bind_Ok; [by apply reads_node_attrs_of|]. apply reads_ret.
Qed.

Lemma reads_attr_lower (h : Store.store) (data : Store.ref) (d : dict)
    (key : string) :
  h !! data = Some (Store.ONodeAttrs d) →
  Store.reads h (StoreFilterSystem.attr_lower data key)
    (FilterSystem.attr_lower d key).
Proof.
  intros H. unfold StoreFilterSystem.attr_lower, FilterSystem.attr_lower.
  eapply reads_bind_Ok; [by apply reads_data_get|]. apply reads_lift.
Qed.

Lemma reads_for_each {A A' B} (R : A → A' → Prop) (h : Store.store)
    (fm : B → A → Store.M B) (f : B → A' → res B) (l : list A) (l' : list A') :
  Forall2 R l l' →
  (∀ acc x x', R x x' → Store.reads h (fm acc x) (f acc x')) →
  ∀ acc, Store.reads h (Store.for_each fm acc l) (foldM f acc l').
Proof.
  intros Hl Hf. induction Hl as [|x x' l l' Hx Hl IH]; intros acc; simpl.
  - apply reads_ret.
  - apply reads_bind; [by apply Hf | exact IH].
Qed.

(** What [load] reads. *)
Lemma load_Some (h : Store.store) (G : Store.ref) (g : graph) :
  Store.load h G = Some g →
  ∃ ns es,
    h !! G = Some (Store.OGraph (graph_attr g) ns es)
    ∧ Forall2 (λ (nr : string * Store.ref) (nd : string * dict),
                 nr.1 = nd.1 ∧ h !! nr.2 = Some (Store.ONodeAttrs nd.2))
              ns (nodes g)
    ∧ Forall2 (λ (er : string * string * Store.ref)
                 (e : string * string * edge_data),
                 er.1 = e.1 ∧ h !! er.2 = Some (Store.OEdgeAttrs e.2))
              es (edges g).
Proof.
  unfold Store.load.
  destruct (h !! G) as [[| |a ns es]|] eqn:HG; try discriminate.
  destruct (Store.load_nodes h ns) as [nds|] eqn:Hn; [|discriminate].
  destruct (Store.load_edges h es) as [eds|] eqn:He; [|discriminate].
  simpl. intros [= <-]. exists ns, es. split; [reflexivity|]. split.
  - apply mapM_Some in Hn. eapply Forall2_impl; [exact Hn|].
    intros [n r] [n' d]. simpl.
    destruct (h !! r) as [[| |]|]; try discriminate. by intros [= <- <-].
  - apply mapM_Some in He. eapply Forall2_impl; [exact He|].
    intros [uv r] [uv' d]. simpl.
    destruct (h !! r) as [[| |]|]; try discriminate. by intros [= <- <-].
Qed.

Lemma load_intro (h : Store.store) (G : Store.ref) (a : dict)
    (ns : list (string * Store.ref)) (es : list (string * string * Store.ref))
    (nds : list (string * dict)) (eds : list (string * string * edge_data)) :
  h !! G = Some (Store.OGraph a ns es) →
  Forall2 (λ (nr : string * Store.ref) (nd : string * dict),
             nr.1 = nd.1 ∧ h !! nr.2 = Some (Store.ONodeAttrs nd.2)) ns nds →
  Forall2 (λ (er : string * string * Store.ref)
             (e : string * string * edge_data),
             er.1 = e.1 ∧ h !! er.2 = Some (Store.OEdgeAttrs e.2)) es eds →
  Store.load h G = Some (mkGraph a nds eds).
Proof.
  intros HG Hn He. unfold Store.load. rewrite HG.
  assert (Store.load_nodes h ns = Some nds) as ->.
  { apply mapM_Some. eapply Forall2_impl; [exact Hn|].
    intros [n r] [n' d]. simpl. intros [-> ->]. reflexivity. }
  assert (Store.load_edges h es = Some eds) as ->.
  { apply mapM_Some. eapply Forall2_impl; [exact He|].
    intros [uv r] [uv' d]. simpl. intros [-> ->]. reflexivity. }
  reflexivity.
Qed.

Lemma load_mono (h h' : Store.store) (G : Store.ref) (g : graph) :
  h ⊆ h' → Store.load h G = Some g → Store.load h' G = Some g.
Proof.
  intros Hsub Hl. destruct (load_Some h G g Hl) as (ns & es & HG & Hn & He).
  destruct g as [a nds eds]. simpl in *.
  apply (load_intro h' G a ns es).
  - by apply (lookup_weaken h).
  - eapply Forall2_impl; [exact Hn|]. intros nr nd [H1 H2].
    split; [done|]. by apply (lookup_weaken h).
  - eapply Forall2_impl; [exact He|]. intros er e [H1 H2].
    split; [done|]. by apply (lookup_weaken h).
Qed.

Lemma reads_the_graph (h : Store.store) (G : Store.ref) (g : graph) :
  Store.load h G = Some g → Store.reads h (Store.the_graph G) (Ok g).
Proof. intros H. unfold Store.reads, Store.the_graph. by rewrite H. Qed.

Lemma reads_nodes_data (h : Store.store) (G : Store.ref) (a : dict) ns es :
  h !! G = Some (Store.OGraph a ns es) →
  Store.reads h (Store.nodes_data G) (Ok ns).
Proof.
  intros H. unfold Store.nodes_data.
  eapply reads_bind_Ok; [by apply reads_get_object|]. apply reads_ret.
Qed.

Lemma reads_edges_data (h : Store.store) (G : Store.ref) (a : dict) ns es :
  h !! G = Some (Store.OGraph a ns es) →
  Store.reads h (Store.edges_data G) (Ok es).
Proof.
  intros H. unfold Store.edges_data.
  eapply reads_bind_Ok; [by apply reads_get_object|]. apply reads_ret.
Qed.

Lemma reads_nodes (h : Store.store) (G : Store.ref) (g : graph) :
  Store.load h G = Some g →
  Store.reads h (Store.nodes G) (Ok (map fst (nodes g))).
Proof.
  intros Hl. destruct (load_Some h G g Hl) as (ns & es & HG & Hn & _).
  unfold Store.nodes.
  eapply reads_bind_Ok; [by eapply reads_nodes_data|].
  replace (map fst (nodes g)) with (map fst ns); [apply reads_ret|].
  clear HG. induction Hn as [|nr nd ns nds [H1 _] _ IH]; simpl; congruence.
Qed.

Lemma reads_select_nodes (h : Store.store) (G : Store.ref) (g : graph)
    (testm : string → Store.ref → Store.M bool)
    (test : string → dict → res bool) :
  Store.load h G = Some g →
  (∀ node data d,
     h !! data = Some (Store.ONodeAttrs d) →
     Store.reads h (testm node data) (test node d)) →
  Store.reads h (StoreFilterSystem.select_nodes G testm)
    (FilterSystem.select_nodes g test).
Proof.
  intros Hl Ht. destruct (load_Some h G g Hl) as (ns & es & HG & Hn & _).
  unfold StoreFilterSystem.select_nodes, FilterSystem.select_nodes.
  eapply reads_bind_Ok; [by eapply reads_nodes_data|].
  eapply reads_for_each; [exact Hn|].
  intros acc [n r] [n' d] [H1 H2]. simpl in *. subst n'.
  apply reads_bind; [by apply Ht|]. intros b. apply reads_ret.
Qed.

(** One step of a proof that a filter body only reads: the store-passing
    body and the body over values have the same shape. *)
Ltac reads_step :=
  first
    [ apply reads_ret
    | apply reads_lift
    | (eapply reads_attr_lower; eassumption)
    | (eapply reads_data_get; eassumption)
    | (eapply reads_bind_Ok;
       [eapply reads_data_get; eassumption | cbv beta zeta])
    | (eapply reads_bind; [ | intros ?])
    | match goal with
      | |- Store.reads _ (if ?b then _ else _) _ => destruct b
      | |- Store.reads _ (match ?x with _ => _ end) _ => destruct x
      end ].

Ltac reads_filter Hl :=
  repeat first
    [ (apply (reads_select_nodes _ _ _ _ _ Hl); intros ? ? ? ?)
    | reads_step ].

Create HintDb reads_db.

Lemma _filter_by_country_reads h G g v :
  Store.load h G = Some g →
  Store.reads h (StoreFilterSystem._filter_by_country G v)
    (FilterSystem._filter_by_country g v).
Proof.
  intros Hl.
  unfold StoreFilterSystem._filter_by_country, FilterSystem._filter_by_country.
  reads_filter Hl.
Qed.

Lemma _filter_by_type_reads h G g v :
  Store.load h G = Some g →
  Store.reads h (StoreFilterSystem._filter_by_type G v)
    (FilterSystem._filter_by_type g v).
Proof.
  intros Hl.
  unfold StoreFilterSystem._filter_by_type, FilterSystem._filter_by_type.
  reads_filter Hl.
Qed.

Lemma _filter_by_year_reads h G g v :
  Store.load h G = Some g →
  Store.reads h (StoreFilterSystem._filter_by_year G v)
    (FilterSystem._filter_by_year g v).
Proof.
  intros Hl.
  unfold StoreFilterSystem._filter_by_year, FilterSystem._filter_by_year.
  reads_filter Hl.
Qed.

Lemma _filter_by_year_range_reads h G g v :
  Store.load h G = Some g →
  Store.reads h (StoreFilterSystem._filter_by_year_range G v)
    (FilterSystem._filter_by_year_range g v).
Proof.
  intros Hl.
  unfold StoreFilterSystem._filter_by_year_range,
    FilterSystem._filter_by_year_range.
  reads_filter Hl.
Qed.

Lemma _filter_by_manufacturer_reads h G g v :
  Store.load h G = Some g →
  Store.reads h (StoreFilterSystem._filter_by_manufacturer G v)
    (FilterSystem._filter_by_manufacturer g v).
Proof.
  intros Hl.
  unfold StoreFilterSystem._filter_by_manufacturer,
    FilterSystem._filter_by_manufacturer.
  reads_filter Hl.
Qed.

Lemma _filter_by_owner_reads h G g v :
  Store.load h G = Some g →
  Store.reads h (StoreFilterSystem._filter_by_owner G v)
    (FilterSystem._filter_by_owner g v).
Proof.
  intros Hl.
  unfold StoreFilterSystem._filter_by_owner, FilterSystem._filter_by_owner.
  reads_filter Hl.
Qed.

Lemma typed_attr_filter_reads tag key h G g v :
  Store.load h G = Some g →
  Store.reads h (StoreFilterSystem.typed_attr_filter tag key G v)
    (FilterSystem.typed_attr_filter tag key g v).
Proof.
  intros Hl.
  unfold StoreFilterSystem.typed_attr_filter, FilterSystem.typed_attr_filter.
  reads_filter Hl.
Qed.

Lemma _filter_by_relationship_reads h G g v :
  Store.load h G = Some g →
  Store.reads h (StoreFilterSystem._filter_by_relationship G v)
    (FilterSystem._filter_by_relationship g v).
Proof.
  intros Hl. destruct (load_Some h G g Hl) as (ns & es & HG & _ & He).
  unfold StoreFilterSystem._filter_by_relationship,
    FilterSystem._filter_by_relationship.
  eapply reads_bind_Ok; [by eapply reads_edges_data|].
  clear HG. generalize (∅ : gset string).
  induction He as [|er e es eds [H1 H2] _ IH]; intros acc; simpl.
  - apply reads_ret.
  - eapply reads_bind_Ok.
    + eapply reads_bind_Ok; [by apply reads_edge_attrs_of | apply reads_ret].
    + rewrite H1. apply IH.
Qed.

Lemma _filter_by_keyword_reads h G g v :
  Store.load h G = Some g →
  Store.reads h (StoreFilterSystem._filter_by_keyword G v)
    (FilterSystem._filter_by_keyword g v).
Proof.
  intros Hl.
  unfold StoreFilterSystem._filter_by_keyword, FilterSystem._filter_by_keyword.
  reads_filter Hl.
Qed.

Lemma _filter_by_connection_reads h G g v :
  Store.load h G = Some g →
  Store.reads h (StoreFilterSystem._filter_by_connection G v)
    (FilterSystem._filter_by_connection g v).
Proof.
  intros Hl.
  unfold StoreFilterSystem._filter_by_connection,
    FilterSystem._filter_by_connection.
  destruct v; try apply reads_ret.
  unfold Store.has_node, Store.neighbors.
  eapply reads_bind_Ok.
  { eapply reads_bind_Ok; [by apply reads_the_graph | apply reads_ret]. }
  destruct (has_node g s); [|apply reads_ret].
  eapply reads_bind_Ok.
  { eapply reads_bind_Ok; [by apply reads_the_graph | apply reads_ret]. }
  apply reads_ret.
Qed.

Lemma reads_select_by_degree (h : Store.store) (G : Store.ref) (g : graph)
    (test : nat → bool) :
  Store.load h G = Some g →
  Store.reads h (StoreFilterSystem.select_by_degree G test)
    (FilterSystem.select_nodes g (λ node _, Ok (test (degree g node)))).
Proof.
  intros Hl.
  unfold StoreFilterSystem.select_by_degree, FilterSystem.select_nodes.
  eapply reads_bind_Ok; [by apply reads_nodes|].
  eapply (reads_for_each (λ n (nd : string * dict), n = nd.1)).
  { clear. induction (nodes g) as [|nd l IH]; simpl; by constructor. }
  intros acc n nd ->. unfold Store.degree.
  eapply reads_bind_Ok.
  { eapply reads_bind_Ok; [by apply reads_the_graph | apply reads_ret]. }
  apply reads_ret.
Qed.

Lemma _filter_by_min_degree_reads h G g v :
  Store.load h G = Some g →
  Store.reads h (StoreFilterSystem._filter_by_min_degree G v)
    (FilterSystem._filter_by_min_degree g v).
Proof.
  intros Hl.
  unfold StoreFilterSystem._filter_by_min_degree,
    FilterSystem._filter_by_min_degree.
  destruct (py_int v) as [z|[]]; try reads_step.
  by apply (reads_select_by_degree h G g (λ d, (z <=? Z.of_nat d)%Z)).
Qed.

Lemma _filter_by_max_degree_reads h G g v :
  Store.load h G = Some g →
  Store.reads h (StoreFilterSystem._filter_by_max_degree G v)
    (FilterSystem._filter_by_max_degree g v).
Proof.
  intros Hl.
  unfold StoreFilterSystem._filter_by_max_degree,
    FilterSystem._filter_by_max_degree.
  destruct (py_int v) as [z|[]]; try reads_step.
  by apply (reads_select_by_degree h G g (λ d, (Z.of_nat d <=? z)%Z)).
Qed.

Lemma _filter_by_equipment_category_reads h G g v :
  Store.load h G = Some g →
  Store.reads h (StoreFilterSystem._filter_by_equipment_category G v)
    (FilterSystem._filter_by_equipment_category g v).
Proof.
  intros Hl.
  unfold StoreFilterSystem._filter_by_equipment_category,
    FilterSystem._filter_by_equipment_category.
  cbv zeta.
  reads_filter Hl.
Qed.

#[local] Hint Resolve _filter_by_country_reads _filter_by_type_reads
  _filter_by_year_reads _filter_by_year_range_reads
  _filter_by_manufacturer_reads _filter_by_owner_reads
  typed_attr_filter_reads _filter_by_relationship_reads
  _filter_by_keyword_reads _filter_by_connection_reads
  _filter_by_min_degree_reads _filter_by_max_degree_reads
  _filter_by_equipment_category_reads : reads_db.

(** The two filter tables have the same names, and under each name the
    store-passing filter reads what the filter over values computes. *)
Lemma available_filters_reads (name : string) :
  match assoc_get name StoreFilterSystem.available_filters,
        assoc_get name FilterSystem.available_filters with
  | Some fm, Some f =>
      ∀ h G g v, Store.load h G = Some g → Store.reads h (fm G v) (f g v)
  | None, None => True
  | _, _ => False
  end.
Proof.
  unfold StoreFilterSystem.available_filters, FilterSystem.available_filters.
  cbn [assoc_get].
  repeat match goal with
         | |- context [String.eqb name ?s] =>
             destruct (String.eqb name s);
             [intros h G g v Hl; eauto with reads_db|]
         end.
  exact I.
Qed.

Lemma reads_apply_one h G g valid flt :
  Store.load h G = Some g →
  Store.reads h (StoreFilterSystem.apply_one G valid flt)
    (FilterSystem.apply_one g valid flt).
Proof.
  intros Hl. unfold StoreFilterSystem.apply_one, FilterSystem.apply_one.
  pose proof (available_filters_reads flt.1) as H.
  destruct (assoc_get flt.1 StoreFilterSystem.available_filters) as [fm|],
    (assoc_get flt.1 FilterSystem.available_filters) as [f|];
    [|done|done|apply reads_ret].
  apply reads_bind; [by apply H|]. intros s. apply reads_ret.
Qed.

(** *** Allocation *)

Lemma bind_run {A B} (m : Store.M A) (k : A → Store.M B)
    (h h1 : Store.store) (a : A) :
  m h = (Ok a, h1) → (m ≫= k) h = k a h1.
Proof. intros H. unfold mbind, Store.M_bind. by rewrite H. Qed.

Lemma new_object_fresh (h : Store.store) (o : Store.object) :
  ∃ r, Store.new_object o h = (Ok r, <[r := o]> h) ∧ h !! r = None.
Proof.
  exists (fresh (dom h)). split; [reflexivity|].
  apply not_elem_of_dom, is_fresh.
Qed.

Lemma copy_node_attrs_spec (ns : list (string * Store.ref))
    (nds : list (string * dict)) (h : Store.store) :
  Forall2 (λ (nr : string * Store.ref) (nd : string * dict),
             nr.1 = nd.1 ∧ h !! nr.2 = Some (Store.ONodeAttrs nd.2)) ns nds →
  ∃ ns' h',
    Store.copy_node_attrs ns h = (Ok ns', h')
    ∧ h ⊆ h'
    ∧ Forall2 (λ (nr : string * Store.ref) (nd : string * dict),
                 nr.1 = nd.1 ∧ h' !! nr.2 = Some (Store.ONodeAttrs nd.2))
              ns' nds
    ∧ Forall (λ nr : string * Store.ref, h !! nr.2 = None) ns'.
Proof.
  revert nds h. induction ns as [|nr ns IH]; intros nds h Hn.
  - apply Forall2_nil_inv_l in Hn as ->. exists [], h.
    by repeat split; try constructor.
  - apply Forall2_cons_inv_l in Hn as (nd & nds' & [H1 H2] & Hn & ->).
    cbn [Store.copy_node_attrs].
    rewrite (bind_run _ _ h h nd.2) by by apply reads_node_attrs_of.
    destruct (new_object_fresh h (Store.ONodeAttrs nd.2)) as (r & Hnew & Hr).
    rewrite (bind_run _ _ h _ r Hnew).
    assert (Hsub : h ⊆ <[r := Store.ONodeAttrs nd.2]> h)
      by by apply insert_subseteq.
    destruct (IH nds' (<[r := Store.ONodeAttrs nd.2]> h))
      as (ns' & h' & Hrun & Hsub' & Hn' & Hfresh).
    { eapply Forall2_impl; [exact Hn|]. intros x y [Hx Hy].
      split; [done|]. by apply (lookup_weaken h). }
    rewrite (bind_run _ _ _ h' ns' Hrun).
    exists ((nr.1, r) :: ns'), h'. split; [reflexivity|].
    split; [by etrans|]. split.
    + constructor; [|exact Hn']. split; [exact H1|]. simpl.
      apply (lookup_weaken (<[r := Store.ONodeAttrs nd.2]> h)); [|done].
      apply lookup_insert_eq.
    + constructor; [exact Hr|].
      eapply Forall_impl; [exact Hfresh|]. intros x Hx.
      by apply (lookup_weaken_None _ _ _ Hx).
Qed.

Lemma copy_edge_attrs_spec (es : list (string * string * Store.ref))
    (eds : list (string * string * edge_data)) (h : Store.store) :
  Forall2 (λ (er : string * string * Store.ref)
             (e : string * string * edge_data),
             er.1 = e.1 ∧ h !! er.2 = Some (Store.OEdgeAttrs e.2)) es eds →
  ∃ es' h',
    Store.copy_edge_attrs es h = (Ok es', h')
    ∧ h ⊆ h'
    ∧ Forall2 (λ (er : string * string * Store.ref)
                 (e : string * string * edge_data),
                 er.1 = e.1 ∧ h' !! er.2 = Some (Store.OEdgeAttrs e.2))
              es' eds
    ∧ Forall (λ er : string * string * Store.ref, h !! er.2 = None) es'.
Proof.
  revert eds h. induction es as [|er es IH]; intros eds h He.
  - apply Forall2_nil_inv_l in He as ->. exists [], h.
    by repeat split; try constructor.
  - apply Forall2_cons_inv_l in He as (e & eds' & [H1 H2] & He & ->).
    cbn [Store.copy_edge_attrs].
    rewrite (bind_run _ _ h h e.2) by by apply reads_edge_attrs_of.
    destruct (new_object_fresh h (Store.OEdgeAttrs e.2)) as (r & Hnew & Hr).
    rewrite (bind_run _ _ h _ r Hnew).
    assert (Hsub : h ⊆ <[r := Store.OEdgeAttrs e.2]> h)
      by by apply insert_subseteq.
    destruct (IH eds' (<[r := Store.OEdgeAttrs e.2]> h))
      as (es' & h' & Hrun & Hsub' & He' & Hfresh).
    { eapply Forall2_impl; [exact He|]. intros x y [Hx Hy].
      split; [done|]. by apply (lookup_weaken h). }
    rewrite (bind_run _ _ _ h' es' Hrun).
    exists ((er.1, r) :: es'), h'. split; [reflexivity|].
    split; [by etrans|]. split.
    + constructor; [|exact He']. split; [exact H1|]. simpl.
      apply (lookup_weaken (<[r := Store.OEdgeAttrs e.2]> h)); [|done].
      apply lookup_insert_eq.
    + constructor; [exact Hr|].
      eapply Forall_impl; [exact Hfresh|]. intros x Hx.
      by apply (lookup_weaken_None _ _ _ Hx).
Qed.

Lemma Forall2_filter_related {A B} (R : A → B → Prop) (P : A → Prop)
    (Q : B → Prop) `{∀ x, Decision (P x)} `{∀ y, Decision (Q y)}
    (l : list A) (k : list B) :
  (∀ x y, R x y → (P x ↔ Q y)) →
  Forall2 R l k → Forall2 R (filter P l) (filter Q k).
Proof.
  intros HPQ Hl. induction Hl as [|x y l k Hxy Hl IH]; [constructor|].
  rewrite !filter_cons. pose proof (HPQ x y Hxy) as Hiff.
  destruct (decide (P x)), (decide (Q y)); try tauto.
  by constructor.
Qed.

(** [G.subgraph(keep).copy()] allocates the copy and leaves every object
    of the store as it was. *)
Lemma subgraph_copy_spec (h : Store.store) (G : Store.ref) (g : graph)
    (keep : gset string) :
  Store.load h G = Some g →
  ∃ G' h',
    Store.subgraph_copy G keep h = (Ok G', h')
    ∧ h ⊆ h'
    ∧ Store.fresh_graph h h' G'
    ∧ Store.load h' G' = Some (subgraph g keep).
Proof.
  intros Hl. destruct (load_Some h G g Hl) as (ns & es & HG & Hn & He).
  unfold Store.subgraph_copy.
  rewrite (bind_run _ _ h h _ (reads_get_object h G _ HG)).
  destruct (copy_node_attrs_spec
              (filter (λ nr : string * Store.ref, nr.1 ∈ keep) ns)
              (filter (λ nd : string * dict, nd.1 ∈ keep) (nodes g)) h)
    as (ns' & h1 & Hrun1 & Hsub1 & Hn1 & Hf1).
  { apply Forall2_filter_related; [|exact Hn].
    intros x y [Hxy _]. by rewrite Hxy. }
  rewrite (bind_run _ _ h h1 ns' Hrun1).
  destruct (copy_edge_attrs_spec
              (filter (λ er : string * string * Store.ref,
                         er.1.1 ∈ keep ∧ er.1.2 ∈ keep) es)
              (filter (λ e : string * string * edge_data,
                         e.1.1 ∈ keep ∧ e.1.2 ∈ keep) (edges g)) h1)
    as (es' & h2 & Hrun2 & Hsub2 & He2 & Hf2).
  { apply Forall2_filter_related.
    - intros x y [Hxy _]. by rewrite Hxy.
    - eapply Forall2_impl; [exact He|]. intros x y [Hx Hy].
      split; [done|]. by apply (lookup_weaken h). }
  rewrite (bind_run _ _ h1 h2 es' Hrun2).
  destruct (new_object_fresh h2 (Store.OGraph (graph_attr g) ns' es'))
    as (G' & Hnew & HG').
  exists G', (<[G' := Store.OGraph (graph_attr g) ns' es']> h2).
  assert (Hsub3 : h2 ⊆ <[G' := Store.OGraph (graph_attr g) ns' es']> h2)
    by by apply insert_subseteq.
  split; [exact Hnew|].
  split; [transitivity h1; [done|]; by transitivity h2|]. split.
  - split.
    + apply (lookup_weaken_None h _ _ HG'). by transitivity h1.
    + exists (graph_attr g), ns', es'.
      split; [apply lookup_insert_eq|]. split; [exact Hf1|].
      eapply Forall_impl; [exact Hf2|]. intros x Hx.
      by apply (lookup_weaken_None _ _ _ Hx).
  - unfold subgraph. apply (load_intro _ G' (graph_attr g) ns' es').
    + apply lookup_insert_eq.
    + eapply Forall2_impl; [exact Hn1|]. intros x y [Hx Hy].
      split; [done|]. apply (lookup_weaken h1); [done | by transitivity h2].
    + eapply Forall2_impl; [exact He2|]. intros x y [Hx Hy].
      split; [done|]. by apply (lookup_weaken h2).
Qed.

Lemma store_lookup_insert_ne (h : Store.store) (r r' : Store.ref)
    (o : Store.object) :
  r ≠ r' → <[r := o]> h !! r' = h !! r'.
Proof. apply lookup_insert_ne. Qed.

Lemma assoc_get_None_keys {V W} (n : string) (l : list (string * V))
    (l' : list (string * W)) :
  map fst l = map fst l' → assoc_get n l' = None → assoc_get n l = None.
Proof.
  revert l'. induction l as [|[k v] l IH]; intros [|[k' v'] l']; simpl;
    try done.
  intros [= <- Hk]. destruct (String.eqb n k); [done|]. by apply IH.
Qed.

(** [add_node] writes: the graph at [G] is another graph afterwards, the
    one [Nx.add_node] gives. *)
Lemma add_node_writes (h : Store.store) (G : Store.ref) (g : graph)
    (n : string) (attrs : dict) :
  Store.load h G = Some g →
  has_node g n = false →
  ∃ h', Store.add_node G n attrs h = (Ok (), h')
        ∧ Store.load h' G = Some (add_node g n attrs)
        ∧ Store.load h' G ≠ Store.load h G.
Proof.
  intros Hl Hnew. destruct (load_Some h G g Hl) as (ns & es & HG & Hn & He).
  assert (Hkeys : map fst ns = map fst (nodes g)).
  { clear HG. induction Hn as [|nr nd ns nds [H1 _] _ IH]; simpl; congruence. }
  assert (Habs : assoc_get n (nodes g) = None).
  { unfold has_node, assoc_mem in Hnew. by destruct (assoc_get n (nodes g)). }
  assert (Habs' : assoc_get n ns = None)
    by exact (assoc_get_None_keys n ns (nodes g) Hkeys Habs).
  unfold Store.add_node.
  rewrite (bind_run _ _ h h _ (reads_get_object h G _ HG)). rewrite Habs'.
  destruct (new_object_fresh h (Store.ONodeAttrs attrs)) as (r & Hr & Hfresh).
  rewrite (bind_run _ _ h _ r Hr). unfold Store.set_object.
  eexists. split; [reflexivity|].
  assert (HrG : r ≠ G) by congruence.
  assert (Hload : Store.load
            (<[G := Store.OGraph (graph_attr g) (ns ++ [(n, r)]) es]>
               (<[r := Store.ONodeAttrs attrs]> h)) G
          = Some (add_node g n attrs)).
  { unfold add_node. rewrite Habs.
    apply (load_intro _ G (graph_attr g) (ns ++ [(n, r)])%list es).
    - apply lookup_insert_eq.
    - apply Forall2_app.
      + eapply Forall2_impl; [exact Hn|]. intros x y [Hx Hy].
        split; [done|].
        rewrite !store_lookup_insert_ne by congruence. exact Hy.
      + constructor; [|constructor]. split; [done|]. simpl.
        rewrite store_lookup_insert_ne by congruence. apply lookup_insert_eq.
    - eapply Forall2_impl; [exact He|]. intros x y [Hx Hy].
      split; [done|].
      rewrite !store_lookup_insert_ne by congruence. exact Hy. }
  split; [exact Hload|].
  rewrite Hload, Hl. intros [= Heq]. unfold add_node in Heq.
  rewrite Habs in Heq. apply (f_equal (λ g, length (nodes g))) in Heq.
  simpl in Heq. rewrite length_app in Heq. simpl in Heq. lia.
Qed.

(** C9.  [apply_filters] on a graph held in a store, every access to the
    graph and to its attribute dictionaries being a store operation.
    Whether it returns or raises, no object that was in the store has
    changed; in particular the graph it was given has the same nodes, the
    same edges and the same node and edge attributes afterwards.  When it
    returns, the result is a new graph object with new attribute
    dictionaries, and it is the induced subgraph of the given graph over the
    surviving nodes: their attributes, and exactly the edges whose two
    endpoints survive.  The result and the exception are those of
    [apply_filters] over graph values. *)
Theorem apply_filters_does_not_mutate
    (h : Store.store) (G : Store.ref) (g : graph) (filters : dict) :
  Store.load h G = Some g →
  match StoreFilterSystem.apply_filters G filters h with
  | (Ok G', h') =>
      h ⊆ h'
      ∧ Store.load h' G = Some g
      ∧ Store.fresh_graph h h' G'
      ∧ ∃ sub, Store.load h' G' = Some sub
               ∧ apply_filters g filters = Ok sub
               ∧ Spec.induced g sub (node_set sub)
  | (Raise e, h') => h' = h ∧ apply_filters g filters = Raise e
  end.
Proof.
  intros Hl.
  assert (Hcopy : ∀ keep sub,
            apply_filters g filters = Ok sub → sub = subgraph g keep →
            match Store.subgraph_copy G keep h with
            | (Ok G', h') =>
                h ⊆ h'
                ∧ Store.load h' G = Some g
                ∧ Store.fresh_graph h h' G'
                ∧ ∃ sub, Store.load h' G' = Some sub
                         ∧ apply_filters g filters = Ok sub
                         ∧ Spec.induced g sub (node_set sub)
            | (Raise e, h') => h' = h ∧ apply_filters g filters = Raise e
            end).
  { intros keep sub Hrun ->.
    destruct (subgraph_copy_spec h G g keep Hl)
      as (G' & h' & -> & Hsub & Hfresh & Hload).
    split; [exact Hsub|]. split; [by apply (load_mono h)|].
    split; [exact Hfresh|]. exists (subgraph g keep).
    split; [exact Hload|]. split; [exact Hrun|].
    exact (apply_filters_induced g _ filters Hrun). }
  unfold StoreFilterSystem.apply_filters.
  destruct filters as [|flt rest].
  - unfold Store.copy.
    rewrite (bind_run _ _ h h _ (reads_nodes h G g Hl)).
    by apply (Hcopy _ (copy g)).
  - rewrite (bind_run _ _ h h _ (reads_nodes h G g Hl)).
    pose proof (reads_for_each eq h (StoreFilterSystem.apply_one G)
                  (FilterSystem.apply_one g) (flt :: rest) (flt :: rest)
                  (Forall2_same_length_lookup_2 _ _ _ eq_refl
                     (λ i x y Hx Hy, eq_sym (Some_inj _ _ (eq_trans (eq_sym Hy) Hx))))) as Hloop.
    specialize (Hloop (λ acc x x' Hxx,
                  eq_ind x (λ x', Store.reads h _ (apply_one g acc x'))
                         (reads_apply_one h G g acc x Hl) x' Hxx)
                  (list_to_set (map fst (nodes g)))).
    fold (node_set g) in Hloop. fold (filter_node_set g (flt :: rest)) in Hloop.
    destruct (filter_node_set g (flt :: rest)) as [valid|e] eqn:Hset.
    + rewrite (bind_run _ _ h h _ Hloop).
      apply (Hcopy valid (subgraph g valid)); [|reflexivity].
      unfold apply_filters. by rewrite Hset.
    + unfold mbind at 1, Store.M_bind.
      unfold Store.reads in Hloop.
      change (list_to_set (map fst (nodes g))) with (node_set g).
      rewrite Hloop. split; [reflexivity|].
      unfold apply_filters. by rewrite Hset.
Qed.

(** The store of [two_node_graph], filtered by [{type: 'vehicle'}]. *)
Lemma apply_filters_does_not_mutate_witness :
  Store.load two_node_store 1%positive = Some two_node_graph
  ∧ ∃ G' h',
      StoreFilterSystem.apply_filters 1%positive [("type", VStr "vehicle")]
        two_node_store = (Ok G', h')
      ∧ two_node_store ⊆ h'
      ∧ Store.load h' 1%positive = Some two_node_graph
      ∧ ∃ sub, Store.load h' G' = Some sub ∧ node_set sub = {["a"]}.
Proof.
  assert (Hl : Store.load two_node_store 1%positive = Some two_node_graph)
    by (vm_compute; reflexivity).
  split; [exact Hl|].
  pose proof (apply_filters_does_not_mutate
                two_node_store 1%positive two_node_graph
                [("type", VStr "vehicle")] Hl) as H.
  destruct (StoreFilterSystem.apply_filters 1%positive [("type", VStr "vehicle")]
              two_node_store) as [[G'|e] h'] eqn:Hrun.
  - destruct H as (Hsub & Hkeep & _ & sub & Hload & Happ & _).
    exists G', h'. split; [reflexivity|]. split; [exact Hsub|].
    split; [exact Hkeep|].
    exists sub. split; [exact Hload|].
    vm_compute in Happ. injection Happ as <-. reflexivity.
  - destruct H as [_ H]. vm_compute in H. discriminate.
Defined.

(** ** The end-to-end scenario *)

(** C1, as stated, fails on the scenario database.  Built nodes carry the
    collection name as their type (['vehicles']), so the filter
    [{type: 'vehicle'}] selects no node rather than [v1]; and the
    single-country analysis for ['UK'] counts no asset: the owner of [v1] is
    the id ['c1'], which does not contain ['uk']. *)
Lemma scenario_filter_and_count_differ :
  ∃ g, build_graph scenario_db true = Ok g
       ∧ node_set <$> apply_filters g [("type", VStr "vehicle")] = Ok ∅
       ∧ (∅ : gset string) ≠ {["v1"]}
       ∧ total_assets <$> _analyze_single_country g (VStr "UK") = Ok 0%nat.
Proof.
  eexists. split; [vm_compute; reflexivity|].
  split; [vm_compute; reflexivity|].
  split; [|vm_compute; reflexivity].
  intros H. apply (f_equal (λ s : gset string, bool_decide ("v1" ∈ s))) in H.
  vm_compute in H. discriminate.
Qed.

(** C1, amended.  On the scenario database [build_graph] produces exactly
    the three nodes [c1], [v1], [vt1] and the two edges [v1]-[c1] labelled
    ['owner'] and [v1]-[vt1] labelled ['vehicleType']; the country-membership
    test of the single-country analysis for ['UK'] is false on [v1], whose
    owner is ['c1'], so [v1] is not counted as an asset. *)
Theorem scenario_build_and_membership :
  ∃ g, build_graph scenario_db true = Ok g
       ∧ node_set g = {["c1"; "v1"; "vt1"]}
       ∧ number_of_nodes g = 3%nat
       ∧ edges g =
           [("v1", "c1", mkEdgeData (Some (VStr "owner")) (Some 1%Q));
            ("v1", "vt1", mkEdgeData (Some (VStr "vehicleType")) (Some 1%Q))]
       ∧ ∃ attrs, node_attrs g "v1" = Some attrs
                  ∧ dict_get_default attrs "owner" VNone = VStr "c1"
                  ∧ belongs_to_country attrs (VStr "UK") = Ok false.
Proof.
  eexists. split; [vm_compute; reflexivity|].
  split; [vm_compute; reflexivity|].
  split; [reflexivity|]. split; [reflexivity|].
  eexists. split; [vm_compute; reflexivity|].
  split; reflexivity.
Qed.

(** ** Unparseable filter arguments *)

Lemma py_int_raises (v : pyval) (e : exn) :
  py_int v = Raise e → e = ValueError ∨ e = TypeError.
Proof.
  destruct v; simpl; try (intros [= <-]; by right); try discriminate.
  unfold int_of_string.
  destruct (strip s) as [|c r]; simpl.
  - intros [= <-]; by left.
  - repeat match goal with
           | |- context [match ?x with _ => _ end] => destruct x
           end; simpl; try discriminate; intros [= <-]; by left.
Qed.

(** The [year], [degree_min] and [degree_max] filters fail closed: an
    argument that [int] rejects gives the empty set. *)
Lemma int_filters_fail_closed (g : graph) (v : pyval) (e : exn) :
  py_int v = Raise e →
  _filter_by_year g v = Ok ∅
  ∧ _filter_by_min_degree g v = Ok ∅
  ∧ _filter_by_max_degree g v = Ok ∅.
Proof.
  intros H. unfold _filter_by_year, _filter_by_min_degree, _filter_by_max_degree.
  rewrite H. by destruct (py_int_raises v e H) as [He | He]; subst e.
Qed.

(** So does [year_range] on a string that is not a pair of integers. *)
Lemma year_range_string_fails_closed (g : graph) (s : string) (e : exn) :
  parse_year_range (VStr s) = Raise e → _filter_by_year_range g (VStr s) = Ok ∅.
Proof.
  intros H. unfold _filter_by_year_range. rewrite H.
  assert (e = ValueError) as ->; [|reflexivity].
  revert H. unfold parse_year_range.
  destruct (split "-" s) as [|a [|b [|c r]]]; try (by intros [= <-]).
  destruct (int_of_string a) as [x|e1] eqn:Ea; simpl.
  - destruct (int_of_string b) as [y|e2] eqn:Eb; simpl; [discriminate|].
    intros [= <-]. destruct (py_int_raises (VStr b) e2 Eb) as [He | He]; subst e2; [done|].
    exfalso. revert Eb. unfold int_of_string.
    repeat match goal with
           | |- context [match ?x with _ => _ end] => destruct x
           end; discriminate.
  - intros [= <-]. destruct (py_int_raises (VStr a) e1 Ea) as [He | He]; subst e1; [done|].
    exfalso. revert Ea. unfold int_of_string.
    repeat match goal with
           | |- context [match ?x with _ => _ end] => destruct x
           end; discriminate.
Qed.

(** C8, at the failing input.  A [year_range] argument that is not a string
    (here the number 1990) has no [split] method: the [AttributeError] is not
    among the exceptions the filter catches, and [apply_filters] raises it
    to its caller, on every graph.  The sibling [year] filter returns the
    empty set on an argument it cannot parse, such as [None]. *)
Theorem year_range_non_string_raises (g : graph) :
  _filter_by_year_range g (VInt 1990) = Raise AttributeError
  ∧ apply_filters g [("year_range", VInt 1990)] = Raise AttributeError
  ∧ apply_filters g [("year_range", VNone)] = Raise AttributeError
  ∧ _filter_by_year g VNone = Ok ∅.
Proof. repeat split; reflexivity. Qed.

(** ** The logical filter *)

(** C3, at the failing input.  On a graph with a vehicle [a] joined to a
    country [b], the condition [{type: 'person', degree_min: 1}] selects both
    nodes under [create_advanced_filter]: the running intersection is empty
    after the first filter and is then replaced by the second filter's
    result.  [apply_filters] on the same inner map selects none.  A condition
    whose inner map names no recognised filter selects no node, where
    [apply_filters] keeps all. *)
Theorem advanced_filter_not_conjunction :
  node_set <$>
    create_advanced_filter two_node_graph
      [("logic", VStr "AND");
       ("conditions",
        VList [VDict [("filter", VDict [("type", VStr "person");
                                        ("degree_min", VInt 1)])]])]
  = Ok {["a"; "b"]}
  ∧ node_set <$>
      apply_filters two_node_graph
        [("type", VStr "person"); ("degree_min", VInt 1)]
    = Ok ∅
  ∧ node_set <$>
      create_advanced_filter two_node_graph
        [("logic", VStr "AND");
         ("conditions", VList [VDict [("filter", VDict [("bogus", VInt 1)])]])]
    = Ok ∅
  ∧ node_set <$> apply_filters two_node_graph [("bogus", VInt 1)]
    = Ok {["a"; "b"]}.
Proof. repeat split; vm_compute; reflexivity. Qed.

(** ** The data-quality score *)

Lemma completeness_counts_from (l : list (string * dict)) (acc : nat * nat) :
  fold_left
    (λ acc nd,
       fold_left
         (λ acc field,
            (S acc.1, if field_filled nd.2 field then S acc.2 else acc.2))
         (required_fields ++ optional_fields)%list acc)
    l acc
  = ((acc.1 + 6 * length l)%nat,
     (acc.2 + list_sum (map (λ nd, Spec.non_empty_slots nd.2) l))%nat).
Proof.
  revert acc; induction l as [|[n data] l IH]; intros [t f]; simpl fold_left.
  - simpl. f_equal; lia.
  - rewrite IH. unfold Spec.non_empty_slots, Spec.attribute_slots.
    cbn [fst snd map list_sum length].
    rewrite !filter_cons, filter_nil.
    change (Spec.non_empty data) with (field_filled data).
    f_equal; [lia|].
    repeat match goal with
           | |- context [decide (field_filled data ?x = true)] =>
               destruct (decide (field_filled data x = true)) as [->|?%not_true_is_false]
           end;
    repeat match goal with
           | H : field_filled data _ = false |- _ => rewrite H; clear H
           end; simpl; lia.
Qed.

Lemma consistency_counts_from (l : list (string * dict)) (acc : nat * nat) :
  fold_left
    (λ acc nd, (S acc.1, if type_consistent nd.2 then S acc.2 else acc.2))
    l acc
  = ((acc.1 + length l)%nat,
     (acc.2 + length (filter (λ nd, Spec.canonical nd.2 = true) l))%nat).
Proof.
  revert acc; induction l as [|[n data] l IH]; intros [t f]; simpl fold_left.
  - simpl. f_equal; lia.
  - rewrite IH. cbn [fst snd length]. rewrite filter_cons. cbn [snd].
    assert (Heq : Spec.canonical data = type_consistent data).
    { unfold Spec.canonical, type_consistent.
      destruct (assoc_get "type" data); reflexivity. }
    rewrite Heq.
    destruct (type_consistent data); simpl; f_equal; lia.
Qed.

Lemma completeness_score_spec (g : graph) :
  number_of_nodes g ≠ 0%nat →
  _calculate_completeness_score g = Spec.completeness_binary64 g.
Proof.
  intros Hn. unfold _calculate_completeness_score, completeness_counts.
  rewrite completeness_counts_from. cbn [fst snd].
  unfold ratio, Spec.completeness_binary64, number_of_nodes in *.
  replace (Nat.max 1 (0 + 6 * length (nodes g))) with (6 * length (nodes g))%nat
    by lia.
  reflexivity.
Qed.

Lemma consistency_score_spec (g : graph) :
  number_of_nodes g ≠ 0%nat →
  _calculate_consistency_score g = Spec.consistency_binary64 g.
Proof.
  intros Hn. unfold _calculate_consistency_score, consistency_counts.
  rewrite consistency_counts_from. cbn [fst snd].
  unfold ratio, Spec.consistency_binary64, number_of_nodes in *.
  replace (Nat.max 1 (0 + length (nodes g))) with (length (nodes g)) by lia.
  reflexivity.
Qed.

(** *** Signs of binary64 results: rounding never turns a non-negative
    mantissa into a negative number or into NaN. *)

Lemma iter_pos_invariant {A} (P : A → Prop) (f : A → A) :
  (∀ x, P x → P (f x)) → ∀ n x, P x → P (SpecFloat.iter_pos f n x).
Proof.
  intros Hf. induction n as [n IH|n IH|]; intros x Hx; simpl; auto.
Qed.

Lemma shr_1_nonneg (mrs : shr_record) :
  (0 <= shr_m mrs)%Z → (0 <= shr_m (shr_1 mrs))%Z.
Proof.
  destruct mrs as [m r s]. simpl.
  destruct m as [|[p|p|]|[p|p|]]; simpl; lia.
Qed.

Lemma shr_fexp_nonneg (m e : Z) (l : location) :
  (0 <= m)%Z → (0 <= shr_m (shr_fexp prec emax m e l).1)%Z.
Proof.
  intros Hm. unfold shr_fexp, shr.
  assert (H0 : (0 <= shr_m (shr_record_of_loc m l))%Z).
  { by destruct l as [|[]]. }
  destruct (_ - e)%Z; simpl; try exact H0.
  by apply iter_pos_invariant; [apply shr_1_nonneg|].
Qed.

Lemma round_nearest_even_nonneg (m : Z) (l : location) :
  (0 <= m)%Z → (0 <= round_nearest_even m l)%Z.
Proof.
  intros Hm. destruct l as [|[]]; simpl; try lia.
  destruct (Z.even m); lia.
Qed.

Lemma binary_round_aux_nonneg (m e : Z) (l : location) :
  (0 <= m)%Z → Spec.non_negative (binary_round_aux prec emax false m e l).
Proof.
  intros Hm. unfold binary_round_aux.
  pose proof (shr_fexp_nonneg m e l Hm) as H1.
  destruct (shr_fexp prec emax m e l) as [mrs' e']. simpl in H1.
  pose proof (shr_fexp_nonneg _ e' loc_Exact
                (round_nearest_even_nonneg _ (loc_of_shr_record mrs') H1)) as H2.
  destruct (shr_fexp prec emax _ e' loc_Exact) as [mrs'' e'']. simpl in H2.
  destruct (shr_m mrs''); [done | | lia].
  by destruct (_ <=? _)%Z.
Qed.

Lemma float_mul_nonneg (x : float) (m : positive) (e : Z) :
  Spec.non_negative x → Spec.non_negative (float_mul x (S754_finite false m e)).
Proof.
  destruct x as [s|s| |s mx ex]; simpl; try done.
  - by intros ->.
  - by intros ->.
  - intros ->. by apply binary_round_aux_nonneg.
Qed.

Lemma float_add_nonneg (x y : float) :
  Spec.non_negative x → Spec.non_negative y → Spec.non_negative (float_add x y).
Proof.
  destruct x as [sx|sx| |sx mx ex], y as [sy|sy| |sy my ey]; simpl;
    try done; try (by intros -> ->).
  intros -> ->. simpl.
  unfold binary_round.
  destruct (shl_align _ _ _) as [mz ez].
  by apply binary_round_aux_nonneg.
Qed.

Lemma int_truediv_nonneg (a b : Z) :
  (0 <= a)%Z → (0 < b)%Z → Spec.non_negative (int_truediv a b).
Proof.
  intros Ha Hb. unfold int_truediv.
  destruct a as [|a|a], b as [|b|b]; try lia; simpl; [done|].
  unfold SFdiv_core_binary.
  set (m' := match _ with Z0 => Z.pos a | Zpos _ => _ | Zneg _ => 0%Z end).
  assert (Hm' : (0 <= m')%Z).
  { unfold m'. destruct (_ - _)%Z; try lia.
    apply Z.shiftl_nonneg. lia. }
  pose proof (Z_div_mod m' (Z.pos b) eq_refl) as Hdiv.
  destruct (Z.div_eucl m' (Z.pos b)) as [q r].
  apply binary_round_aux_nonneg. nia.
Qed.

Lemma ratio_nonneg (a b : nat) : Spec.non_negative (ratio a b).
Proof. unfold ratio. apply int_truediv_nonneg; lia. Qed.

Lemma non_negative_float_le (x : float) :
  Spec.non_negative x → float_le float_0_0 x = true.
Proof. by destruct x as [s|s| |s m e]; simpl; try done; intros ->. Qed.

Lemma float_min_nonneg (x : float) :
  Spec.non_negative x → Spec.non_negative (float_min float_1_0 x).
Proof. intros Hx. unfold float_min. by destruct (float_lt x float_1_0). Qed.

Lemma float_min_le (x : float) :
  float_le (float_min float_1_0 x) float_1_0 = true.
Proof.
  unfold float_min, float_lt, float_le, SFltb, SFleb.
  destruct (SFcompare x float_1_0) as [[]|] eqn:E; try reflexivity.
  by rewrite E.
Qed.

Lemma float_mul_comm (x y : float) : float_mul x y = float_mul y x.
Proof.
  destruct x as [sx|sx| |sx mx ex], y as [sy|sy| |sy my ey]; simpl;
    try reflexivity; try (by rewrite xorb_comm).
  by rewrite xorb_comm, Pos.mul_comm, Z.add_comm.
Qed.

(** The literals are the correctly rounded decimal fractions. *)
Lemma float_literals :
  float_0_3 = int_truediv 3 10 ∧ float_0_5 = int_truediv 5 10
  ∧ float_0_2 = int_truediv 2 10 ∧ float_1_0 = int_truediv 1 1
  ∧ float_0_0 = int_truediv 0 1.
Proof. repeat split; vm_compute; reflexivity. Qed.

(** C4.  The data-quality score is the float 0.0 for the empty graph, and
    for any other graph the float
    [0.3 * (edges / max(1, nodes)) + 0.5 * completeness + 0.2 * consistency]
    capped at 1.0, where completeness is the fraction of the six attribute
    slots (type, label, year, country, manufacturer, owner) of all nodes that
    are non-empty and consistency is the fraction of nodes whose type is one
    of the five canonical types.  The arithmetic is Python's: each fraction,
    each product and each sum is a binary64 number, rounded to nearest.  In
    every case [0.0 <= score <= 1.0]. *)
Theorem data_quality_score_formula_and_bounds (g : graph) :
  _calculate_data_quality_score g
  = (if Nat.eqb (number_of_nodes g) 0 then float_0_0
     else Spec.quality_binary64 g)
  ∧ float_le float_0_0 (_calculate_data_quality_score g) = true
  ∧ float_le (_calculate_data_quality_score g) float_1_0 = true.
Proof.
  unfold _calculate_data_quality_score.
  destruct (Nat.eqb (number_of_nodes g) 0) eqn:Hn.
  - repeat split; reflexivity.
  - apply Nat.eqb_neq in Hn. split; [|split].
    + rewrite (completeness_score_spec g Hn), (consistency_score_spec g Hn).
      unfold Spec.quality_binary64, ratio, number_of_edges, number_of_nodes.
      by rewrite !(float_mul_comm _ float_0_3), !(float_mul_comm _ float_0_5),
        !(float_mul_comm _ float_0_2).
    + apply non_negative_float_le, float_min_nonneg.
      repeat apply float_add_nonneg; apply float_mul_nonneg, ratio_nonneg.
    + apply float_min_le.
Qed.

(** The embedding against the interpreter.  On a graph of six nodes and
    eight edges whose attribute slots are all filled and whose types are
    canonical for three nodes, the score is the double
    [0x1.fffffffffffffp-1], printed [0.9999999999999999]: the sum
    [8/6 * 0.3 + 1.0 * 0.5 + 0.5 * 0.2] as binary64 rounds it.  Over the
    rationals the same formula is 1. *)
Lemma data_quality_score_is_rounded :
  _calculate_data_quality_score quality_graph
  = S754_finite false 9007199254740991 (-53)
  ∧ float_value (_calculate_data_quality_score quality_graph)
    = Some (9007199254740991 # 9007199254740992)
  ∧ (Spec.quality quality_graph == 1)%Q.
Proof. repeat split; vm_compute; reflexivity. Qed.

(** ** Dictionaries with distinct keys *)

Lemma assoc_get_None {V} (k : string) (d : list (string * V)) :
  assoc_get k d = None ↔ k ∉ keys d.
Proof.
  pose proof (assoc_mem_elem_of k d) as H. unfold assoc_mem, keys in *.
  destruct (assoc_get k d); split; try done.
  - intros Hk. exfalso. apply Hk, H. reflexivity.
  - intros _ Hk. apply H in Hk. discriminate.
Qed.

Lemma keys_assoc_set {V} (k : string) (v : V) d :
  keys (assoc_set k v d) = if assoc_mem k d then keys d else (keys d ++ [k])%list.
Proof.
  unfold assoc_mem, keys. induction d as [|[k' v'] d IH]; simpl; [done|].
  destruct (String.eqb k k') eqn:E; simpl; [done|].
  rewrite IH. by destruct (assoc_get k d).
Qed.

Lemma NoDup_keys_assoc_set {V} (k : string) (v : V) d :
  NoDup (keys d) → NoDup (keys (assoc_set k v d)).
Proof.
  intros Hd. rewrite keys_assoc_set.
  destruct (assoc_mem k d) eqn:E; [done|].
  apply NoDup_app. split; [done|]. split; [|apply NoDup_singleton].
  intros x Hx ->%list_elem_of_singleton.
  apply assoc_mem_elem_of in Hx. unfold keys in *. congruence.
Qed.

Lemma NoDup_keys_dict_update (d e : dict) :
  NoDup (keys d) → NoDup (keys (dict_update d e)).
Proof.
  unfold dict_update. revert d.
  induction e as [|[k v] e IH]; intros d Hd; simpl; [done|].
  apply IH. by apply NoDup_keys_assoc_set.
Qed.

Lemma assoc_get_dict_update (k : string) (d e : dict) :
  NoDup (keys e) →
  assoc_get k (dict_update d e) =
  match assoc_get k e with Some v => Some v | None => assoc_get k d end.
Proof.
  unfold dict_update. revert d.
  induction e as [|[k1 v1] e IH]; intros d He; simpl; [done|].
  cbn [keys map fst] in He. apply NoDup_cons in He as [Hk1 He].
  fold (keys e) in Hk1, He. rewrite (IH _ He).
  destruct (String.eqb k k1) eqn:E.
  - apply String.eqb_eq in E; subst k1.
    apply assoc_get_None in Hk1. by rewrite Hk1, assoc_get_set_eq.
  - rewrite assoc_get_set_ne; [done|].
    intros ->. by rewrite String.eqb_refl in E.
Qed.

Lemma copy_field_keys (entity : dict) (src dst : string) (a : dict) :
  NoDup (keys a) → NoDup (keys (copy_field entity src dst a)).
Proof.
  intros Ha. unfold copy_field.
  destruct (assoc_get src entity); [by apply NoDup_keys_assoc_set | done].
Qed.

Lemma copy_field_get_ne (entity : dict) (src dst k : string) (a : dict) :
  dst ≠ k → assoc_get k (copy_field entity src dst a) = assoc_get k a.
Proof.
  intros Hne. unfold copy_field.
  destruct (assoc_get src entity); [by apply assoc_get_set_ne | done].
Qed.

Lemma searchable_attributes_keys (entity : dict) (entity_type : string) :
  NoDup (keys (_extract_searchable_attributes entity entity_type))
  ∧ assoc_get "type" (_extract_searchable_attributes entity entity_type) = None.
Proof.
  unfold _extract_searchable_attributes.
  repeat match goal with
         | |- context [if ?b then _ else _] => destruct b
         end;
    (split;
     [repeat apply copy_field_keys; apply NoDup_nil_2
     | rewrite !copy_field_get_ne by discriminate; reflexivity]).
Qed.

(** ** Edge insertion *)

Lemma same_pair_swap (u v a b : string) : same_pair v u a b = same_pair u v a b.
Proof.
  unfold same_pair.
  destruct (String.eqb v a), (String.eqb u b), (String.eqb u a), (String.eqb v b);
    reflexivity.
Qed.

Lemma same_pair_spec (u v a b : string) :
  same_pair u v a b = true ↔ (u = a ∧ v = b) ∨ (u = b ∧ v = a).
Proof.
  unfold same_pair.
  rewrite orb_true_iff, !andb_true_iff, !String.eqb_eq. tauto.
Qed.

(** Two pairs matched by a third are matched by each other. *)
Lemma same_pair_trans (u v a b x y : string) :
  same_pair u v a b = true → same_pair x y a b = same_pair x y u v.
Proof.
  intros H%same_pair_spec.
  destruct (same_pair x y a b) eqn:E1, (same_pair x y u v) eqn:E2; try done.
  - apply same_pair_spec in E1.
    assert (same_pair x y u v = true); [|congruence].
    apply same_pair_spec. clear E2. naive_solver.
  - apply same_pair_spec in E2.
    assert (same_pair x y a b = true); [|congruence].
    apply same_pair_spec. clear E1. naive_solver.
Qed.

Lemma find_edge_update (x y u v : string) (rel : pyval) (w : Q) es :
  find_edge x y (update_edge u v rel w es) =
  if same_pair x y u v then
    match find_edge x y es with
    | Some d => Some (mkEdgeData (Some rel) (Some w))
    | None => Some (mkEdgeData (Some rel) (Some w))
    end
  else find_edge x y es.
Proof.
  induction es as [|[[a b] d] es IH]; simpl.
  - by destruct (same_pair x y u v).
  - destruct (same_pair u v a b) eqn:E; simpl.
    + rewrite (same_pair_trans u v a b x y E).
      by destruct (same_pair x y u v).
    + destruct (same_pair x y a b) eqn:E'.
      * destruct (same_pair x y u v) eqn:E''; [|done].
        exfalso. apply same_pair_spec in E', E''.
        assert (same_pair u v a b = true); [|congruence].
        apply same_pair_spec. naive_solver.
      * exact IH.
Qed.

Lemma same_pair_sym (u v a b : string) : same_pair a b u v = same_pair u v a b.
Proof.
  unfold same_pair.
  rewrite (String.eqb_sym a u), (String.eqb_sym b v),
          (String.eqb_sym a v), (String.eqb_sym b u).
  destruct (String.eqb u a), (String.eqb v b), (String.eqb v a), (String.eqb u b);
    reflexivity.
Qed.

Lemma update_edge_simple (u v : string) (rel : pyval) (w : Q) es :
  u ≠ v → Spec.simple_edges es → Spec.simple_edges (update_edge u v rel w es).
Proof.
  intros Hne. induction es as [|[[a b] d] es IH]; simpl.
  - done.
  - intros (Hab & Hfind & Hes).
    destruct (same_pair u v a b) eqn:E; simpl; [done|].
    split; [done|]. split; [|by apply IH].
    rewrite find_edge_update, same_pair_sym, E. exact Hfind.
Qed.

(** A second insertion on the same pair, in either direction, replaces the
    data written by the first. *)
Lemma update_edge_twice (u v : string) (r1 r2 : pyval) (w1 w2 : Q) es :
  update_edge u v r2 w2 (update_edge u v r1 w1 es) = update_edge u v r2 w2 es
  ∧ update_edge v u r2 w2 (update_edge u v r1 w1 es) = update_edge u v r2 w2 es.
Proof.
  induction es as [|[[a b] d] es [IH1 IH2]]; simpl.
  - unfold same_pair. rewrite !String.eqb_refl. simpl.
    by rewrite !orb_true_r.
  - destruct (same_pair u v a b) eqn:E; simpl;
      rewrite ?(same_pair_swap u v a b), ?E; [done|].
    by rewrite IH1, IH2.
Qed.

Lemma assoc_get_app {V} (k : string) (d1 d2 : list (string * V)) :
  assoc_get k (d1 ++ d2)%list =
  match assoc_get k d1 with Some v => Some v | None => assoc_get k d2 end.
Proof.
  induction d1 as [|[k' v'] d1 IH]; simpl; [done|].
  by destruct (String.eqb k k').
Qed.

Lemma ensure_node_present (n : string) ns :
  assoc_mem n ns = true → ensure_node n ns = ns.
Proof. intros H. unfold ensure_node. by rewrite H. Qed.

Lemma assoc_mem_ensure_node (n m : string) ns :
  assoc_mem n (ensure_node m ns) = assoc_mem n ns || String.eqb n m.
Proof.
  unfold ensure_node. destruct (assoc_mem m ns) eqn:Em.
  - destruct (String.eqb n m) eqn:E; [|by rewrite orb_false_r].
    apply String.eqb_eq in E; subst. by rewrite Em.
  - unfold assoc_mem. rewrite assoc_get_app. simpl.
    destruct (assoc_get n ns); [done|]. by destruct (String.eqb n m).
Qed.

Lemma _add_edge_last_wins (g : graph) (u v r1 r2 : string) :
  _add_edge (_add_edge g u v r1) u v r2 = _add_edge g u v r2
  ∧ _add_edge (_add_edge g u v r1) v u r2 = _add_edge g u v r2.
Proof.
  unfold _add_edge. rewrite (String.eqb_sym v u).
  destruct (String.eqb u v) eqn:E; simpl; [done|].
  unfold add_edge; simpl.
  set (ns := ensure_node v (ensure_node u (nodes g))).
  assert (Hu : assoc_mem u ns = true).
  { unfold ns. rewrite !assoc_mem_ensure_node, String.eqb_refl.
    by rewrite orb_true_r. }
  assert (Hv : assoc_mem v ns = true).
  { unfold ns. rewrite !assoc_mem_ensure_node, String.eqb_refl.
    by rewrite orb_true_r. }
  destruct (update_edge_twice u v (VStr r1) (VStr r2) 1 1 (edges g)) as [H1 H2].
  split; f_equal; rewrite ?H1, ?H2; try done.
  - by rewrite (ensure_node_present u ns Hu), (ensure_node_present v ns Hv).
  - by rewrite (ensure_node_present v ns Hv), (ensure_node_present u ns Hu).
Qed.

Lemma edges_apply_insertions (g : graph) (log : list Spec.insertion) :
  edges (Spec.apply_insertions g log) = fold_left Spec.insert_edge log (edges g).
Proof.
  unfold Spec.apply_insertions. revert g.
  induction log as [|[[s t] f] log IH]; intros g; simpl; [done|].
  rewrite IH. f_equal. unfold _add_edge, Spec.insert_edge; simpl.
  by destruct (String.eqb s t).
Qed.

Lemma insert_edge_simple es (ins : Spec.insertion) :
  Spec.simple_edges es → Spec.simple_edges (Spec.insert_edge es ins).
Proof.
  intros Hes. unfold Spec.insert_edge.
  destruct (String.eqb ins.1.1 ins.1.2) eqn:E; simpl; [done|].
  apply update_edge_simple; [|done].
  intros Heq. rewrite Heq, String.eqb_refl in E. discriminate.
Qed.

Lemma insertions_simple (log : list Spec.insertion) es :
  Spec.simple_edges es → Spec.simple_edges (fold_left Spec.insert_edge log es).
Proof.
  revert es; induction log as [|ins log IH]; intros es Hes; simpl; [done|].
  by apply IH, insert_edge_simple.
Qed.

(** After a sequence of insertions, a pair is joined by the edge the last
    insertion on that pair wrote. *)
Lemma insertions_last_wins (log : list Spec.insertion) es (u v : string) :
  find_edge u v (fold_left Spec.insert_edge log es) =
  match Spec.last_label u v log with
  | Some field => Some (Spec.labelled field)
  | None => find_edge u v es
  end.
Proof.
  induction log as [|[[s t] f] log IH] using rev_ind; [done|].
  unfold Spec.last_label in *. rewrite !fold_left_app. cbn [fold_left fst snd].
  unfold Spec.insert_edge at 1. cbn [fst snd].
  destruct (String.eqb s t); cbn [negb andb]; [exact IH|].
  rewrite find_edge_update.
  destruct (same_pair u v s t); [|exact IH].
  by destruct (find_edge u v (fold_left Spec.insert_edge log es)).
Qed.

Lemma nodes_apply_insertions (g : graph) (log : list Spec.insertion) :
  Forall (λ ins : Spec.insertion,
            assoc_mem ins.1.1 (nodes g) = true
            ∧ assoc_mem ins.1.2 (nodes g) = true) log →
  nodes (Spec.apply_insertions g log) = nodes g
  ∧ graph_attr (Spec.apply_insertions g log) = graph_attr g.
Proof.
  unfold Spec.apply_insertions. revert g.
  induction log as [|[[s t] f] log IH]; intros g Hlog; simpl; [done|].
  apply Forall_cons in Hlog as [[Hs Ht] Hlog]. simpl in Hs, Ht.
  assert (Hn : nodes (_add_edge g s t f) = nodes g
               ∧ graph_attr (_add_edge g s t f) = graph_attr g).
  { unfold _add_edge. destruct (String.eqb s t); simpl; [done|].
    by rewrite (ensure_node_present s _ Hs), (ensure_node_present t _ Ht). }
  destruct Hn as [Hn Ha].
  destruct (IH (_add_edge g s t f)) as [IH1 IH2]; [by rewrite Hn|].
  by rewrite IH1, IH2.
Qed.

(** ** [_add_relationships] as a sequence of insertions *)

Lemma apply_insertions_app (g : graph) (l1 l2 : list Spec.insertion) :
  Spec.apply_insertions g (l1 ++ l2)%list =
  Spec.apply_insertions (Spec.apply_insertions g l1) l2.
Proof. unfold Spec.apply_insertions. apply fold_left_app. Qed.

Lemma add_targets_insertions (em : entity_map_t) (id field : string)
    (g : graph) (targets : list string) :
  add_targets em id field g targets =
  Spec.apply_insertions g (Spec.insertions_for em id field targets).
Proof.
  unfold add_targets, Spec.apply_insertions, Spec.insertions_for. revert g.
  induction targets as [|t targets IH]; intros g; simpl; [done|].
  rewrite filter_cons.
  destruct (decide (assoc_mem t em = true)) as [Ht|Ht%not_true_is_false];
    rewrite Ht; simpl; apply IH.
Qed.

Lemma fold_references_insertions {A} (em : entity_map_t) (id : string)
    (field : A → string) (targets : A → list string) (refs : list A) (g : graph) :
  fold_left (λ g ref, add_targets em id (field ref) g (targets ref)) refs g =
  Spec.apply_insertions g
    (flat_map (λ ref, Spec.insertions_for em id (field ref) (targets ref)) refs).
Proof.
  revert g; induction refs as [|ref refs IH]; intros g; simpl; [done|].
  by rewrite IH, add_targets_insertions, apply_insertions_app.
Qed.

Lemma add_entity_relationships_insertions (em : entity_map_t) (g : graph) item :
  add_entity_relationships em g item =
  (ins ← Spec.entity_insertions em item; Ok (Spec.apply_insertions g ins)).
Proof.
  unfold add_entity_relationships, Spec.entity_insertions.
  destruct (_extract_hierarchical_references item.2.2) as [hier|e]; [|done].
  rewrite !bind_Ok.
  rewrite (fold_references_insertions em item.1 fst (λ ref, [ref.2])).
  rewrite !(fold_references_insertions em item.1 fst snd).
  by rewrite !apply_insertions_app.
Qed.

Lemma collect_insertions_from (em : entity_map_t) (l : list (string * (string * dict)))
    (acc : list Spec.insertion) :
  foldM (λ acc item, ins ← Spec.entity_insertions em item; Ok (acc ++ ins)%list)
        acc l =
  (log ← foldM (λ acc item,
                  ins ← Spec.entity_insertions em item; Ok (acc ++ ins)%list)
               [] l;
   Ok (acc ++ log)%list).
Proof.
  revert acc; induction l as [|item l IH]; intros acc; simpl.
  - by rewrite app_nil_r.
  - destruct (Spec.entity_insertions em item) as [ins|e]; [|done].
    rewrite !bind_Ok. cbn [app]. rewrite (IH (acc ++ ins)%list), (IH ins).
    destruct (foldM _ [] l) as [log|e]; [|done].
    rewrite !bind_Ok. by rewrite app_assoc.
Qed.

Lemma add_relationships_from (em : entity_map_t) (l : list (string * (string * dict)))
    (g : graph) :
  foldM (add_entity_relationships em) g l =
  (log ← foldM (λ acc item,
                  ins ← Spec.entity_insertions em item; Ok (acc ++ ins)%list)
               [] l;
   Ok (Spec.apply_insertions g log)).
Proof.
  revert g; induction l as [|item l IH]; intros g; simpl; [done|].
  rewrite add_entity_relationships_insertions.
  destruct (Spec.entity_insertions em item) as [ins|e]; [|done].
  rewrite !bind_Ok. cbn [app]. rewrite IH, (collect_insertions_from em l ins).
  destruct (foldM _ [] l) as [log|e]; [|done].
  simpl. by rewrite apply_insertions_app.
Qed.

Lemma _add_relationships_insertions (g : graph) (em : entity_map_t) :
  _add_relationships g em =
  (log ← Spec.all_insertions em; Ok (Spec.apply_insertions g log)).
Proof. apply add_relationships_from. Qed.

(** Every insertion joins two known entities. *)
Lemma all_insertions_known (em : entity_map_t) (log : list Spec.insertion) :
  Spec.all_insertions em = Ok log →
  Forall (λ ins : Spec.insertion,
            assoc_mem ins.1.1 em = true ∧ assoc_mem ins.1.2 em = true) log.
Proof.
  unfold Spec.all_insertions.
  apply (foldM_invariant
           (Forall (λ ins : Spec.insertion,
                      assoc_mem ins.1.1 em = true ∧ assoc_mem ins.1.2 em = true)));
    [|constructor].
  intros acc item acc' Hitem Hacc Hstep. bind_inv Hstep. injection Hstep as <-.
  apply Forall_app. split; [done|].
  unfold Spec.entity_insertions in Ha. bind_inv Ha. injection Ha as <-.
  assert (Hsrc : assoc_mem item.1 em = true).
  { apply assoc_mem_elem_of. apply list_elem_of_fmap. by exists item. }
  assert (Hfor : ∀ field targets,
             Forall (λ ins : Spec.insertion,
                       assoc_mem ins.1.1 em = true ∧ assoc_mem ins.1.2 em = true)
                    (Spec.insertions_for em item.1 field targets)).
  { intros field targets. unfold Spec.insertions_for.
    apply Forall_forall. intros ins (t & -> & Ht)%list_elem_of_fmap.
    apply list_elem_of_filter in Ht as [Ht _]. by simpl. }
  assert (Hflat : ∀ {A} (field : A → string) (targets : A → list string) refs,
             Forall (λ ins : Spec.insertion,
                       assoc_mem ins.1.1 em = true ∧ assoc_mem ins.1.2 em = true)
                    (flat_map (λ ref, Spec.insertions_for em item.1 (field ref)
                                        (targets ref)) refs)).
  { intros A field targets refs. induction refs as [|ref refs IH]; simpl.
    - constructor.
    - apply Forall_app. split; [apply Hfor | exact IH]. }
  repeat (apply Forall_app; split).
  - apply (Hflat _ fst (λ ref, [ref.2])).
  - apply (Hflat _ fst snd).
  - apply (Hflat _ fst snd).
Qed.

(** ** The node pass of [build_graph] *)

Lemma elem_of_assoc_set {V} (x : string * V) (k : string) (v : V) d :
  x ∈ assoc_set k v d → x = (k, v) ∨ x ∈ d.
Proof.
  induction d as [|[k' v'] d IH]; simpl.
  - intros ->%list_elem_of_singleton. by left.
  - destruct (String.eqb k k') eqn:E.
    + apply String.eqb_eq in E; subst k'.
      intros [->|H]%elem_of_cons; [by left | right; by right].
    + intros [->|H]%elem_of_cons; [right; left|].
      destruct (IH H) as [->|H']; [by left | right; by right].
Qed.

Lemma assoc_mem_assoc_set {V} (k k' : string) (v : V) d :
  assoc_mem k' (assoc_set k v d) = assoc_mem k' d || String.eqb k' k.
Proof.
  unfold assoc_mem. destruct (String.eqb k' k) eqn:E.
  - apply String.eqb_eq in E; subst. rewrite assoc_get_set_eq.
    by rewrite orb_true_r.
  - rewrite assoc_get_set_ne, orb_false_r; [done|].
    intros ->. by rewrite String.eqb_refl in E.
Qed.

Lemma assoc_mem_add_node (g : graph) (n k : string) (attrs : dict) :
  assoc_mem k (nodes (add_node g n attrs)) =
  assoc_mem k (nodes g) || String.eqb k n.
Proof.
  unfold add_node; simpl.
  destruct (assoc_get n (nodes g)) as [old|] eqn:E.
  - apply assoc_mem_assoc_set.
  - unfold assoc_mem. rewrite assoc_get_app. simpl.
    destruct (assoc_get k (nodes g)); [done|]. by destruct (String.eqb k n).
Qed.

Lemma _add_node_spec (g g' : graph) (key : string) (d : dict)
    (entity_type : string) (include_metadata : bool) :
  _add_node g key d entity_type include_metadata = Ok g' →
  ∃ attrs, g' = add_node g key attrs
           ∧ NoDup (keys attrs)
           ∧ assoc_get "type" attrs = Some (VStr entity_type).
Proof.
  unfold _add_node. intros H. bind_inv H. injection H as <-.
  eexists. split; [reflexivity|].
  destruct (searchable_attributes_keys d entity_type) as [Hnd Hty].
  split.
  - apply NoDup_keys_dict_update.
    destruct include_metadata; simpl;
      apply (bool_decide_unpack _); reflexivity.
  - rewrite (assoc_get_dict_update _ _ _ Hnd), Hty.
    by destruct include_metadata.
Qed.

Lemma add_node_from_collection (database : dict) (g : graph) (n : string)
    (attrs : dict) :
  NoDup (keys attrs) →
  Spec.from_collection database (n, attrs) →
  Forall (Spec.from_collection database) (nodes g) →
  Forall (Spec.from_collection database) (nodes (add_node g n attrs)).
Proof.
  intros Hnd Hnew Hold. unfold add_node; simpl.
  destruct (assoc_get n (nodes g)) as [old|] eqn:E.
  - apply Forall_forall. intros nd [->|Hin]%elem_of_assoc_set.
    + destruct Hnew as (t & entities & items & d & Ht & Hty & Hrest).
      exists t, entities, items, d. split; [done|]. split; [|done].
      simpl in *. by rewrite (assoc_get_dict_update _ _ _ Hnd), Hty.
    + by apply (proj1 (Forall_forall _ _) Hold).
  - apply Forall_app. split; [done|]. by apply Forall_singleton.
Qed.

Lemma add_entity_node_pass (database : dict) (entity_type : string)
    (include_metadata : bool) entities items entity st st' :
  entity_type ∈ entity_types →
  assoc_get entity_type database = Some entities →
  py_iter entities = Ok items →
  entity ∈ items →
  Spec.node_pass database st →
  add_entity entity_type include_metadata st entity = Ok st' →
  Spec.node_pass database st'.
Proof.
  intros Ht Hdb Hiter Hin (Hnodes & Hkeys & Hedges) Hrun.
  unfold add_entity in Hrun. bind_inv Hrun.
  destruct (truthy a) eqn:Htruthy; simpl in Hrun;
    [|injection Hrun as <-; by repeat split].
  bind_inv Hrun. rename a0 into key.
  destruct entity as [| | | | |d]; try discriminate.
  bind_inv Hrun. injection Hrun as <-. rename a0 into g'.
  simpl in Ha. injection Ha as <-.
  assert (Hid : assoc_get "id" d = Some (VStr key)).
  { unfold dict_get_default in Ha0.
    destruct (assoc_get "id" d) as [v|]; [|discriminate].
    destruct v; try discriminate. by injection Ha0 as ->. }
  apply _add_node_spec in Ha1 as (attrs & -> & Hnd & Hty).
  split; [|split]; cbn [fst snd].
  - apply add_node_from_collection; [done| |done].
    by exists entity_type, entities, items, d.
  - intros k. rewrite assoc_mem_assoc_set, assoc_mem_add_node.
    intros [Hk| ->]%orb_true_iff; [|by rewrite orb_true_r].
    by rewrite (Hkeys k Hk).
  - exact Hedges.
Qed.

Lemma node_pass_result (database : dict) (include_metadata : bool) st :
  foldM (add_entities database include_metadata) (empty_graph, []) entity_types
  = Ok st →
  Spec.node_pass database st.
Proof.
  apply (foldM_invariant (Spec.node_pass database)).
  - intros acc entity_type acc' Ht Hacc Hrun. unfold add_entities in Hrun.
    destruct (assoc_get entity_type database) as [entities|] eqn:Hdb;
      [|by injection Hrun as <-].
    bind_inv Hrun. bind_inv Hrun. rename a0 into items.
    revert Hacc Hrun. apply foldM_invariant.
    intros st0 entity st1 Hin Hst0 Hstep.
    by apply (add_entity_node_pass database entity_type include_metadata
                entities items entity st0 st1).
  - split; [constructor|]. split; [|done].
    intros k. unfold assoc_mem. simpl. discriminate.
Qed.

(** ** The phases of [build_graph] *)

Lemma build_graph_phases (database : dict) (include_metadata : bool) (g : graph) :
  build_graph database include_metadata = Ok g →
  ∃ g0 em log,
    foldM (add_entities database include_metadata) (empty_graph, []) entity_types
    = Ok (g0, em)
    ∧ Spec.node_pass database (g0, em)
    ∧ Spec.all_insertions em = Ok log
    ∧ nodes g = nodes g0
    ∧ edges g = fold_left Spec.insert_edge log [].
Proof.
  unfold build_graph. intros H. bind_inv H. destruct a as [g0 em].
  bind_inv H. rename a into g1. cbn [fst snd] in Ha0.
  rewrite _add_relationships_insertions in Ha0. bind_inv Ha0.
  injection Ha0 as <-. rename a into log.
  pose proof (node_pass_result _ _ _ Ha) as Hpass.
  exists g0, em, log. split; [done|]. split; [done|]. split; [done|].
  destruct Hpass as (_ & Hkeys & Hedges). cbn [fst snd] in Hkeys, Hedges.
  assert (Hnodes : nodes (Spec.apply_insertions g0 log) = nodes g0).
  { apply nodes_apply_insertions.
    eapply Forall_impl; [exact (all_insertions_known em log Ha1)|].
    intros ins [Hs Ht]. split; by apply Hkeys. }
  assert (Hes : edges (Spec.apply_insertions g0 log)
                = fold_left Spec.insert_edge log []).
  { by rewrite edges_apply_insertions, Hedges. }
  destruct include_metadata; [|injection H as <-; by split].
  unfold _add_graph_metadata in H.
  repeat bind_inv H. injection H as <-. by split.
Qed.

(** ** Type tags of built graphs *)

Lemma collection_names_not_singular (t : string) :
  t ∈ entity_types →
  String.eqb t "vehicle" = false
  ∧ String.eqb t "militaryOrganization" = false
  ∧ String.eqb t "area" = false
  ∧ existsb (λ c, py_eq (VStr t) (VStr c)) canonical_types = false.
Proof.
  unfold entity_types. rewrite !elem_of_cons, elem_of_nil.
  intros H.
  repeat match goal with
         | H : _ ∨ _ |- _ => destruct H as [->|H]
         end; [..|done]; repeat split; reflexivity.
Qed.

Lemma select_nodes_none (g : graph) (test : string → dict → res bool) :
  Forall (λ nd, test nd.1 nd.2 = Ok false) (nodes g) →
  select_nodes g test = Ok ∅.
Proof.
  unfold select_nodes. generalize (∅ : gset string) as acc.
  induction (nodes g) as [|nd l IH]; intros acc Hall; simpl; [done|].
  apply Forall_cons in Hall as [Hnd Hall]. rewrite Hnd. simpl. by apply IH.
Qed.

Lemma typed_attr_filter_empty (tag key : string) (wanted : pyval) (g : graph) :
  Forall (λ nd, ∃ t, assoc_get "type" nd.2 = Some (VStr t)
                     ∧ String.eqb t tag = false) (nodes g) →
  typed_attr_filter tag key g wanted =
  match wanted with VStr _ => Ok ∅ | _ => Raise AttributeError end.
Proof.
  intros Hall. unfold typed_attr_filter.
  destruct wanted as [| | |w| |]; try reflexivity. simpl.
  apply select_nodes_none.
  eapply Forall_impl; [exact Hall|].
  intros [n data] (t & Hty & Hne). simpl in *.
  unfold dict_get_default. rewrite Hty. simpl. by rewrite Hne.
Qed.

(** C10.  In a graph produced by [build_graph] every node's type attribute
    is the name of a collection that holds an entity with the node's id, one
    of the eight plural names of [entity_types].  So on a built graph the
    [vehicle_type], [organization_type] and [area_type] filters, which
    require the types ['vehicle'], ['militaryOrganization'] and ['area'],
    select no node (they return the empty set for a string argument and
    raise for any other), and the consistency score, which counts the nodes
    whose type is one of the five singular canonical types, is 0. *)
Theorem built_graph_types_are_collection_names
    (database : dict) (include_metadata : bool) (g : graph) :
  build_graph database include_metadata = Ok g →
  Forall (Spec.from_collection database) (nodes g)
  ∧ (∀ wanted : pyval,
       let none := match wanted with
                   | VStr _ => Ok ∅
                   | _ => Raise AttributeError
                   end in
       _filter_by_vehicle_type g wanted = none
       ∧ _filter_by_organization_type g wanted = none
       ∧ _filter_by_area_type g wanted = none)
  ∧ _calculate_consistency_score g = float_0_0.
Proof.
  intros Hbuild.
  destruct (build_graph_phases _ _ _ Hbuild)
    as (g0 & em & log & _ & (Hnodes & _) & _ & Heq & _).
  cbn [fst] in Hnodes. rewrite <- Heq in Hnodes.
  split; [exact Hnodes|]. split.
  - intros wanted none.
    unfold _filter_by_vehicle_type, _filter_by_organization_type,
      _filter_by_area_type.
    repeat split; apply typed_attr_filter_empty;
      (eapply Forall_impl; [exact Hnodes|]);
      intros nd (t & _ & _ & _ & Ht & Hty & _);
      exists t; (split; [exact Hty|]);
      apply collection_names_not_singular in Ht; tauto.
  - unfold _calculate_consistency_score, consistency_counts.
    rewrite consistency_counts_from. cbn [fst snd].
    assert (Hnone : filter (λ nd : string * dict, Spec.canonical nd.2 = true)
                           (nodes g) = []).
    { clear Heq. induction Hnodes as [|nd l Hnd Hl IH]; [done|].
      rewrite filter_cons, IH.
      destruct Hnd as (t & _ & _ & _ & Ht & Hty & _).
      apply collection_names_not_singular in Ht as (_ & _ & _ & Ht).
      unfold Spec.canonical. rewrite Hty.
      destruct (decide _) as [Hc|]; [|done].
      unfold canonical_types in Ht. simpl in Ht, Hc. congruence. }
    rewrite Hnone. unfold ratio, int_truediv. cbn [length Nat.add Z.of_nat exact_int].
    destruct (Z.of_nat (Nat.max 1 _)) eqn:Hmax; [lia | reflexivity | lia].
Qed.

(** The scenario database: its three nodes have the types ['countries'],
    ['vehicles'] and ['vehicleTypes']. *)
Lemma built_graph_types_are_collection_names_witness :
  ∃ g, build_graph scenario_db true = Ok g
       ∧ Forall (Spec.from_collection scenario_db) (nodes g)
       ∧ _filter_by_vehicle_type g (VStr "tank") = Ok ∅
       ∧ _calculate_consistency_score g = float_0_0.
Proof.
  eexists. split; [vm_compute; reflexivity|].
  edestruct (built_graph_types_are_collection_names scenario_db true)
    as (H1 & H2 & H3); [vm_compute; reflexivity|].
  split; [exact H1|]. split; [apply (H2 (VStr "tank")) | exact H3].
Defined.

(** ** Edges of built graphs *)

Lemma find_edge_None (u v : string) es :
  find_edge u v es = None →
  ∀ e, e ∈ es → same_pair u v e.1.1 e.1.2 = false.
Proof.
  induction es as [|[[a b] d] es IH]; simpl; intros H e He.
  - by apply elem_of_nil in He.
  - destruct (same_pair u v a b) eqn:E; [discriminate|].
    apply elem_of_cons in He as [->|He]; [done | by apply IH].
Qed.

Lemma simple_edges_explicit es :
  Spec.simple_edges es →
  (∀ e, e ∈ es → e.1.1 ≠ e.1.2)
  ∧ (∀ i j e1 e2, i ≠ j → es !! i = Some e1 → es !! j = Some e2 →
       same_pair e1.1.1 e1.1.2 e2.1.1 e2.1.2 = false).
Proof.
  induction es as [|[[a b] d] es IH]; simpl.
  - intros _. split; [by intros e ?%elem_of_nil | by intros [|i] j].
  - intros (Hab & Hfind & Hes). destruct (IH Hes) as [IH1 IH2]. split.
    + intros e [->|He]%elem_of_cons; [done | by apply IH1].
    + intros [|i] [|j] e1 e2 Hij H1 H2; simpl in H1, H2; try done.
      * injection H1 as <-. simpl.
        apply (find_edge_None a b es Hfind e2).
        by apply list_elem_of_lookup_2 in H2.
      * injection H2 as <-. simpl. rewrite same_pair_sym.
        apply (find_edge_None a b es Hfind e1).
        by apply list_elem_of_lookup_2 in H1.
      * apply (IH2 i j); [lia | done | done].
Qed.

(** C6.  In a graph produced by [build_graph]: no edge joins a node to
    itself; no two edges join the same unordered pair of ids; the edge
    between two ids carries the field of the last insertion, in processing
    order, that joined them, whichever earlier fields joined them too; and
    inserting again on a pair already inserted, in either direction, only
    replaces the label. *)
Theorem built_graph_edges_last_wins
    (database : dict) (include_metadata : bool) (g : graph) :
  build_graph database include_metadata = Ok g →
  (∀ e, e ∈ edges g → e.1.1 ≠ e.1.2)
  ∧ (∀ i j e1 e2, i ≠ j → edges g !! i = Some e1 → edges g !! j = Some e2 →
       same_pair e1.1.1 e1.1.2 e2.1.1 e2.1.2 = false)
  ∧ (∃ g0 em log,
       foldM (add_entities database include_metadata) (empty_graph, [])
             entity_types = Ok (g0, em)
       ∧ Spec.all_insertions em = Ok log
       ∧ ∀ u v, find_edge u v (edges g)
                = Spec.labelled <$> Spec.last_label u v log)
  ∧ (∀ u v r1 r2,
       _add_edge (_add_edge g u v r1) u v r2 = _add_edge g u v r2
       ∧ _add_edge (_add_edge g u v r1) v u r2 = _add_edge g u v r2).
Proof.
  intros Hbuild.
  destruct (build_graph_phases _ _ _ Hbuild)
    as (g0 & em & log & Hpass & _ & Hlog & _ & Hedges).
  assert (Hsimple : Spec.simple_edges (edges g)).
  { rewrite Hedges. by apply insertions_simple. }
  destruct (simple_edges_explicit _ Hsimple) as [Hloop Hpair].
  split; [exact Hloop|]. split; [exact Hpair|]. split.
  - exists g0, em, log. split; [done|]. split; [done|].
    intros u v. rewrite Hedges, insertions_last_wins.
    by destruct (Spec.last_label u v log).
  - intros u v r1 r2. apply _add_edge_last_wins.
Qed.

(** A vehicle that names the country [c1] as owner and then as country, and
    itself as headquarters: one edge, labelled by the later field. *)
Lemma built_graph_edges_last_wins_witness :
  ∃ g, build_graph overwrite_db true = Ok g
       ∧ edges g = [("v1", "c1", Spec.labelled "country")]
       ∧ (∀ e, e ∈ edges g → e.1.1 ≠ e.1.2)
       ∧ ∃ log, (∀ u v, find_edge u v (edges g)
                        = Spec.labelled <$> Spec.last_label u v log)
                ∧ log = [("v1", "c1", "owner"); ("v1", "c1", "country");
                         ("v1", "v1", "headquarters")].
Proof.
  eexists. split; [vm_compute; reflexivity|].
  edestruct (built_graph_edges_last_wins overwrite_db true)
    as (Hloop & _ & (g0 & em & log & Hpass & Hlog & Hlast) & _);
    [vm_compute; reflexivity|].
  split; [reflexivity|]. split; [exact Hloop|].
  exists log. split; [exact Hlast|].
  vm_compute in Hpass. injection Hpass as <- <-.
  vm_compute in Hlog. injection Hlog as <-. reflexivity.
Defined.

(** ** [combine_databases]: first source wins *)

Lemma first_wins_app {X} (seen : gset string) (l1 l2 : list (string * X)) :
  Spec.first_wins seen (l1 ++ l2)%list =
  (Spec.first_wins seen l1
   ++ Spec.first_wins (seen ∪ list_to_set (map fst l1)) l2)%list.
Proof.
  revert seen; induction l1 as [|[id x] l1 IH]; intros seen; simpl.
  - f_equal. set_solver.
  - destruct (decide (id ∈ seen)) as [Hin|Hin]; rewrite IH; simpl.
    + do 2 f_equal. set_solver.
    + do 3 f_equal. set_solver.
Qed.

Lemma combine_entity_step (db_name entity_type t0 : string)
    (st st' : combine_state) (entity : pyval) offers :
  combine_entity db_name entity_type st entity = Ok st' →
  Spec.merge_state t0 st offers →
  Spec.merge_state t0 st'
    (if decide (t0 = entity_type)
     then (offers ++ Spec.offered_by db_name entity)%list else offers).
Proof.
  unfold combine_entity. intros Hrun [Hc Hs]. bind_inv Hrun.
  destruct entity as [| | | | |d]; try discriminate.
  simpl in Ha. injection Ha as <-.
  unfold Spec.offered_by, dict_get_default in *.
  assert (Hskip : Spec.merge_state t0 st
                    (if decide (t0 = entity_type)
                     then (offers ++ [])%list else offers)).
  { destruct (decide _); [rewrite app_nil_r|]; by split. }
  destruct (assoc_get "id" d) as [v|] eqn:Hid; simpl in Hrun;
    [|by injection Hrun as <-].
  destruct (truthy v) eqn:Htruthy.
  2:{ injection Hrun as <-.
      destruct v; try done. simpl in Htruthy.
      by destruct (String.eqb s ""). }
  clear Hskip.
  bind_inv Hrun. rename a into key.
  destruct v as [| | |s| |]; try discriminate. injection Ha as ->.
  simpl in Htruthy. destruct (String.eqb key "") eqn:Hempty; [discriminate|].
  destruct (decide (t0 = entity_type)) as [->|Hne].
  - assert (Hfw : Spec.first_wins ∅ (offers ++ [(key, (db_name, d))])%list =
                  (Spec.first_wins ∅ offers
                   ++ if decide (key ∈ seen_of st entity_type) then []
                      else [(key, (db_name, d))])%list).
    { rewrite first_wins_app. simpl. rewrite union_empty_l_L, <- Hs.
      by destruct (decide _). }
    destruct (decide (key ∈ seen_of st entity_type)) as [Hseen|Hseen];
      injection Hrun as <-.
    + split.
      * rewrite Hfw, app_nil_r. exact Hc.
      * rewrite map_app, list_to_set_app_L, <- Hs. simpl. set_solver.
    + unfold Spec.merge_state, seen_of; simpl.
      rewrite !assoc_get_set_eq. split.
      * rewrite Hfw, map_app. unfold combined_of. by rewrite Hc.
      * fold (seen_of st entity_type).
        rewrite map_app, list_to_set_app_L, <- Hs. simpl. set_solver.
  - destruct (decide (key ∈ seen_of st entity_type)) as [Hseen|Hseen];
      injection Hrun as <-; [by split|].
    unfold Spec.merge_state, seen_of; simpl.
    rewrite !(assoc_get_set_ne entity_type t0) by congruence.
    by split.
Qed.

Lemma combine_entities_step (db_name entity_type t0 : string)
    (items : list pyval) (st st' : combine_state) offers :
  foldM (combine_entity db_name entity_type) st items = Ok st' →
  Spec.merge_state t0 st offers →
  Spec.merge_state t0 st'
    (if decide (t0 = entity_type)
     then (offers ++ flat_map (Spec.offered_by db_name) items)%list else offers).
Proof.
  revert st offers; induction items as [|e items IH]; intros st offers; simpl.
  - intros [= <-] H. destruct (decide _); [by rewrite app_nil_r | done].
  - intros Hrun Hst. bind_inv Hrun.
    pose proof (combine_entity_step _ _ t0 _ _ _ _ Ha Hst) as Hmid.
    pose proof (IH _ _ Hrun Hmid) as Hend.
    destruct (decide (t0 = entity_type)); [by rewrite app_assoc | done].
Qed.

Lemma combine_type_step (db_name : string) (database : dict)
    (entity_type t0 : string) (st st' : combine_state) offers :
  combine_type db_name database st entity_type = Ok st' →
  Spec.merge_state t0 st offers →
  Spec.merge_state t0 st'
    (if decide (t0 = entity_type)
     then (offers ++ Spec.offered entity_type (db_name, database))%list
     else offers).
Proof.
  unfold combine_type, Spec.offered. cbn [fst snd].
  destruct (assoc_get entity_type database) as [entities|].
  - intros Hrun Hst. bind_inv Hrun. rewrite Ha.
    by apply (combine_entities_step _ _ _ _ _ _ _ Hrun).
  - intros [= <-] H. destruct (decide _); [by rewrite app_nil_r | done].
Qed.

Lemma combine_types_step (db_name : string) (database : dict) (t0 : string)
    (types : list string) (st st' : combine_state) offers :
  foldM (combine_type db_name database) st types = Ok st' →
  Spec.merge_state t0 st offers →
  Spec.merge_state t0 st'
    (offers ++ flat_map (λ t, if decide (t0 = t)
                              then Spec.offered t (db_name, database) else [])
                        types)%list.
Proof.
  revert st offers; induction types as [|t types IH]; intros st offers; simpl.
  - intros [= <-] H. by rewrite app_nil_r.
  - intros Hrun Hst. bind_inv Hrun.
    pose proof (combine_type_step _ _ _ t0 _ _ _ Ha Hst) as Hmid.
    pose proof (IH _ _ Hrun Hmid) as Hend.
    destruct (decide (t0 = t)); [by rewrite app_assoc | done].
Qed.

Lemma offers_of_entity_types (t0 : string) (src : string * dict) :
  t0 ∈ entity_types →
  flat_map (λ t, if decide (t0 = t) then Spec.offered t src else [])
           entity_types
  = Spec.offered t0 src.
Proof.
  unfold entity_types. rewrite !elem_of_cons, elem_of_nil. intros H.
  repeat match goal with
         | H : _ ∨ _ |- _ => destruct H as [->|H]
         end; [..|done]; simpl; by rewrite ?app_nil_r.
Qed.

Lemma combine_databases_step (t0 : string) (databases : list (string * dict))
    (st st' : combine_state) offers :
  t0 ∈ entity_types →
  foldM combine_database st databases = Ok st' →
  Spec.merge_state t0 st offers →
  Spec.merge_state t0 st' (offers ++ flat_map (Spec.offered t0) databases)%list.
Proof.
  intros Ht. revert st offers.
  induction databases as [|[name db] dbs IH]; intros st offers; simpl.
  - intros [= <-] H. by rewrite app_nil_r.
  - intros Hrun Hst. bind_inv Hrun. unfold combine_database in Ha.
    pose proof (combine_types_step _ _ t0 _ _ _ _ Ha Hst) as Hmid.
    cbn [fst snd] in Hmid. rewrite (offers_of_entity_types t0 (name, db) Ht) in Hmid.
    pose proof (IH _ _ Hrun Hmid) as Hend. by rewrite app_assoc.
Qed.

Lemma combine_init_state (t0 : string) :
  t0 ∈ entity_types → Spec.merge_state t0 combine_init [].
Proof.
  unfold entity_types. rewrite !elem_of_cons, elem_of_nil. intros H.
  repeat match goal with
         | H : _ ∨ _ |- _ => destruct H as [->|H]
         end; [..|done]; by split.
Qed.

Lemma assoc_get_map_values {A B} (f : A → B) (k : string) (d : list (string * A)) :
  assoc_get k (map (λ kv, (kv.1, f kv.2)) d) = f <$> assoc_get k d.
Proof.
  induction d as [|[k' v] d IH]; simpl; [done|].
  by destruct (String.eqb k k').
Qed.

(** The merged collections of [combine_databases] are the first-wins merge
    of what the sources offer. *)
Lemma combine_databases_merged (databases : list (string * dict)) (out : dict)
    (entity_type : string) :
  combine_databases databases = Ok out →
  entity_type ∈ entity_types →
  assoc_get entity_type out
  = Some (VList (map Spec.tagged (Spec.merged databases entity_type))).
Proof.
  unfold combine_databases. intros Hrun Ht. bind_inv Hrun. injection Hrun as <-.
  destruct (combine_databases_step entity_type databases _ _ [] Ht Ha
              (combine_init_state entity_type Ht)) as [Hc _].
  rewrite assoc_get_app, (assoc_get_map_values VList), Hc. reflexivity.
Qed.

Lemma first_wins_ids {X} (seen : gset string) (l : list (string * X)) :
  ∀ id, id ∈ map fst (Spec.first_wins seen l) ↔ id ∈ map fst l ∧ id ∉ seen.
Proof.
  revert seen; induction l as [|[i x] l IH]; intros seen id; simpl.
  - rewrite elem_of_nil. tauto.
  - destruct (decide (i ∈ seen)) as [Hin|Hin]; simpl;
      rewrite ?elem_of_cons, IH; [set_solver|].
    destruct (decide (id = i)) as [->|Hne]; set_solver.
Qed.

Lemma first_wins_NoDup {X} (seen : gset string) (l : list (string * X)) :
  NoDup (map fst (Spec.first_wins seen l)).
Proof.
  revert seen; induction l as [|[i x] l IH]; intros seen; simpl.
  - apply NoDup_nil_2.
  - destruct (decide (i ∈ seen)); [apply IH|]. simpl.
    apply NoDup_cons. split; [|apply IH].
    rewrite first_wins_ids. set_solver.
Qed.

Lemma first_wins_subset {X} (seen : gset string) (l : list (string * X)) :
  ∀ o, o ∈ Spec.first_wins seen l → o ∈ l.
Proof.
  revert seen; induction l as [|[i x] l IH]; intros seen o; simpl; [done|].
  destruct (decide (i ∈ seen)).
  - intros H. right. by apply (IH seen).
  - intros [->|H]%elem_of_cons; [left | right; by apply (IH _ _ H)].
Qed.

Lemma filter_id_absent {X} (id : string) (l : list (string * X)) :
  id ∉ map fst l → filter (λ o : string * X, o.1 = id) l = [].
Proof.
  induction l as [|[i x] l IH]; simpl; [done|].
  intros Hnot. rewrite filter_cons. simpl.
  destruct (decide (i = id)) as [->|Hne]; [set_solver|].
  apply IH. set_solver.
Qed.

(** The one kept entity with a given id is the first one offered. *)
Lemma first_wins_first {X} (seen : gset string) (pre post : list (string * X))
    (id : string) (x : X) :
  id ∉ seen → id ∉ map fst pre →
  filter (λ o : string * X, o.1 = id)
         (Spec.first_wins seen (pre ++ (id, x) :: post)%list)
  = [(id, x)].
Proof.
  intros Hseen Hpre. rewrite first_wins_app, filter_app.
  rewrite (filter_id_absent id (Spec.first_wins seen pre)).
  2:{ rewrite first_wins_ids. tauto. }
  simpl. destruct (decide (id ∈ seen ∪ list_to_set (map fst pre))) as [Hin|Hin];
    [set_solver|].
  rewrite filter_cons. simpl. destruct (decide (id = id)); [|done].
  f_equal. apply filter_id_absent. rewrite first_wins_ids. set_solver.
Qed.

(** C5.  For every mapping of source names to databases on which
    [combine_databases] returns, and every entity type: the merged
    collection is the sources' entities in the caller's order, each kept
    only if its id was not offered before for that type, and each kept
    entity is the offered entity itself with [_source_database] set to the
    name of its source.  So ids are not repeated in the merged collection,
    every offered id is present, and the one entity with a given id is the
    first one offered, tagged with the name of the first source that holds
    it; a later entity with the same id contributes nothing. *)
Theorem combine_databases_first_source_wins
    (databases : list (string * dict)) (out : dict) (entity_type : string) :
  combine_databases databases = Ok out →
  entity_type ∈ entity_types →
  ∃ kept : list (string * (string * dict)),
    assoc_get entity_type out = Some (VList (map Spec.tagged kept))
    ∧ kept = Spec.first_wins ∅ (flat_map (Spec.offered entity_type) databases)
    ∧ NoDup (map fst kept)
    ∧ (∀ id, id ∈ map fst kept ↔
             id ∈ map fst (flat_map (Spec.offered entity_type) databases))
    ∧ (∀ o, o ∈ kept →
            ∃ src, src ∈ databases ∧ src.1 = o.2.1
                   ∧ o ∈ Spec.offered entity_type src
                   ∧ Spec.tagged o
                     = VDict (assoc_set "_source_database" (VStr src.1) o.2.2))
    ∧ (∀ pre id name d post,
         flat_map (Spec.offered entity_type) databases
         = (pre ++ (id, (name, d)) :: post)%list →
         id ∉ map fst pre →
         filter (λ o : string * (string * dict), o.1 = id) kept
         = [(id, (name, d))]).
Proof.
  intros Hrun Ht. exists (Spec.merged databases entity_type).
  split; [by apply combine_databases_merged|].
  split; [reflexivity|]. unfold Spec.merged.
  split; [apply first_wins_NoDup|].
  split; [intros id; rewrite first_wins_ids; set_solver|].
  split.
  - intros o Ho%first_wins_subset.
    apply list_elem_of_In, in_flat_map in Ho as (src & Hsrc & Ho).
    apply list_elem_of_In in Hsrc, Ho.
    exists src. split; [done|].
    assert (Hname : src.1 = o.2.1).
    { revert Ho. unfold Spec.offered.
      destruct (assoc_get entity_type src.2) as [entities|];
        [|by intros ?%elem_of_nil].
      destruct (py_iter entities) as [items|]; [|by intros ?%elem_of_nil].
      intros Ho. apply list_elem_of_In, in_flat_map in Ho as (e & _ & Ho).
      revert Ho. unfold Spec.offered_by.
      destruct e as [| | | | |d]; try done.
      destruct (assoc_get "id" d) as [[| | |s| |]|]; try done.
      destruct (String.eqb s ""); [done|].
      by intros [<-|[]]. }
    split; [done|]. split; [done|].
    unfold Spec.tagged. by rewrite Hname.
  - intros pre id name d post Heq Hpre. rewrite Heq.
    apply first_wins_first; [set_solver | done].
Qed.

(** Sources [A] and [B] both hold a vehicle [v1]: the merge keeps the one of
    [A]. *)
Lemma combine_databases_first_source_wins_witness :
  ∃ out, combine_databases [("A", source_a); ("B", source_b)] = Ok out
         ∧ "vehicles" ∈ entity_types
         ∧ assoc_get "vehicles" out
           = Some (VList
                     [VDict [("id", VStr "v1"); ("make", VStr "BAE");
                             ("_source_database", VStr "A")];
                      VDict [("id", VStr "v2"); ("_source_database", VStr "A")];
                      VDict [("id", VStr "v3"); ("_source_database", VStr "B")]]).
Proof.
  assert (Ht : "vehicles" ∈ entity_types) by (right; left).
  eexists. split; [vm_compute; reflexivity|]. split; [exact Ht|].
  edestruct (combine_databases_first_source_wins
               [("A", source_a); ("B", source_b)])
    with (entity_type := "vehicles")
    as (kept & Hout & Hkept & _); [vm_compute; reflexivity | exact Ht |].
  rewrite Hout, Hkept. vm_compute. reflexivity.
Defined.



(** ** [build_graph] returns on well-formed databases *)







(** * Further properties of the builder, the filters and the statistics *)

(** ** Nodes of built graphs *)

Lemma node_set_add_node (g : graph) (n : string) (attrs : dict) :
  node_set (add_node g n attrs) = {[n]} ∪ node_set g.
Proof.
  unfold node_set, add_node; simpl.
  destruct (assoc_get n (nodes g)) as [old|] eqn:E.
  - fold (keys (assoc_set n (dict_update old attrs) (nodes g))).
    rewrite keys_assoc_set. unfold assoc_mem. rewrite E.
    assert (n ∈ keys (nodes g)); [|unfold keys in *; set_solver].
    apply assoc_mem_elem_of. unfold assoc_mem. by rewrite E.
  - rewrite map_app, list_to_set_app_L. simpl. set_solver.
Qed.

Lemma NoDup_keys_add_node (g : graph) (n : string) (attrs : dict) :
  NoDup (keys (nodes g)) → NoDup (keys (nodes (add_node g n attrs))).
Proof.
  intros Hnd. unfold add_node; simpl.
  destruct (assoc_get n (nodes g)) as [old|] eqn:E.
  - by apply NoDup_keys_assoc_set.
  - unfold keys. rewrite map_app. apply NoDup_app. split; [done|].
    split; [|apply NoDup_singleton].
    intros x Hx ->%list_elem_of_singleton. cbn [fst] in Hx.
    apply assoc_mem_elem_of in Hx. unfold assoc_mem in Hx. by rewrite E in Hx.
Qed.

Lemma add_entity_node_set (entity_type : string) (include_metadata : bool)
    (st st' : graph * entity_map_t) (entity : pyval) :
  add_entity entity_type include_metadata st entity = Ok st' →
  node_set st'.1 = node_set st.1 ∪ list_to_set (map fst (Spec.offered_by "" entity))
  ∧ (NoDup (keys (nodes st.1)) → NoDup (keys (nodes st'.1))).
Proof.
  unfold add_entity. intros Hrun. bind_inv Hrun.
  destruct entity as [| | | | |d]; try discriminate.
  simpl in Ha. injection Ha as <-.
  unfold Spec.offered_by, dict_get_default in *.
  destruct (assoc_get "id" d) as [v|] eqn:Hid; simpl in Hrun.
  2:{ injection Hrun as <-. split; [set_solver | done]. }
  destruct (truthy v) eqn:Htruthy; simpl in Hrun.
  2:{ injection Hrun as <-. split; [|done].
      destruct v; simpl; try set_solver. simpl in Htruthy.
      destruct (String.eqb s ""); [set_solver | done]. }
  bind_inv Hrun. rename a into key.
  destruct v as [| | |s| |]; try discriminate. injection Ha as ->.
  simpl in Htruthy. destruct (String.eqb key "") eqn:Hempty; [discriminate|].
  bind_inv Hrun. injection Hrun as <-. cbn [fst snd].
  apply _add_node_spec in Ha as (attrs & -> & _).
  split.
  - rewrite node_set_add_node. simpl. set_solver.
  - apply NoDup_keys_add_node.
Qed.

Lemma add_entities_node_set (database : dict) (include_metadata : bool)
    (entity_type : string) (st st' : graph * entity_map_t) :
  add_entities database include_metadata st entity_type = Ok st' →
  node_set st'.1
  = node_set st.1
    ∪ list_to_set (map fst (Spec.offered entity_type ("", database)))
  ∧ (NoDup (keys (nodes st.1)) → NoDup (keys (nodes st'.1))).
Proof.
  unfold add_entities, Spec.offered. cbn [fst snd].
  destruct (assoc_get entity_type database) as [entities|];
    [|intros [= <-]; split; [set_solver | done]].
  intros Hrun. bind_inv Hrun. bind_inv Hrun. rename a0 into items.
  rewrite Ha0. clear Ha Ha0. revert st Hrun.
  induction items as [|e items IH]; intros st Hrun; simpl in *.
  - injection Hrun as <-. split; [set_solver | done].
  - bind_inv Hrun.
    destruct (add_entity_node_set _ _ _ _ _ Ha) as [Hset Hnd].
    destruct (IH _ Hrun) as [Hset' Hnd'].
    split; [|by intros; apply Hnd', Hnd].
    rewrite Hset', Hset, map_app, list_to_set_app_L. set_solver.
Qed.

Lemma node_pass_node_set (database : dict) (include_metadata : bool)
    (types : list string) (st st' : graph * entity_map_t) :
  foldM (add_entities database include_metadata) st types = Ok st' →
  node_set st'.1
  = node_set st.1
    ∪ list_to_set
        (flat_map (λ t, map fst (Spec.offered t ("", database))) types)
  ∧ (NoDup (keys (nodes st.1)) → NoDup (keys (nodes st'.1))).
Proof.
  revert st; induction types as [|t types IH]; intros st Hrun; simpl in *.
  - injection Hrun as <-. split; [set_solver | done].
  - bind_inv Hrun.
    destruct (add_entities_node_set _ _ _ _ _ Ha) as [Hset Hnd].
    destruct (IH _ Hrun) as [Hset' Hnd'].
    split; [|by intros; apply Hnd', Hnd].
    rewrite Hset', Hset, list_to_set_app_L. set_solver.
Qed.

Lemma offered_ids_nonempty (entity_type : string) (src : string * dict) :
  "" ∉ map fst (Spec.offered entity_type src).
Proof.
  unfold Spec.offered.
  destruct (assoc_get entity_type src.2) as [entities|]; [|by intros ?%elem_of_nil].
  destruct (py_iter entities) as [items|]; [|by intros ?%elem_of_nil].
  induction items as [|e items IH]; simpl; [by intros ?%elem_of_nil|].
  rewrite map_app, elem_of_app. intros [H|H]; [|done].
  revert H. unfold Spec.offered_by.
  destruct e as [| | | | |d]; try by intros ?%elem_of_nil.
  destruct (assoc_get "id" d) as [[| | |s| |]|]; try by intros ?%elem_of_nil.
  destruct (String.eqb s "") eqn:E; [by intros ?%elem_of_nil|].
  intros H%list_elem_of_singleton. simpl in H. subst s. simpl in E.
  discriminate.
Qed.

(** The database with an entity without id and a repeated id keeps to
    string ids. *)
Lemma gaps_db_well_typed : Spec.well_typed gaps_db.
Proof.
  intros t entities Ht Hget.
  unfold entity_types in Ht. rewrite !elem_of_cons, elem_of_nil in Ht.
  repeat match goal with
         | H : _ ∨ _ |- _ => destruct H as [->|H]
         end; [..|done]; simpl in Hget; try discriminate;
    injection Hget as <-; (eexists; split; [reflexivity|]);
    repeat constructor; (eexists; split; [reflexivity|]);
    unfold Spec.string_id; simpl; intros Hid; try discriminate;
    eexists; reflexivity.
Qed.

(** ** Edges of built graphs: endpoints and labels *)

Lemma elem_of_update_edge (e : string * string * edge_data) (u v : string)
    (rel : pyval) (w : Q) es :
  e ∈ update_edge u v rel w es →
  e ∈ es
  ∨ e = (u, v, mkEdgeData (Some rel) (Some w))
  ∨ (∃ d, (e.1, d) ∈ es) ∧ e.2 = mkEdgeData (Some rel) (Some w).
Proof.
  induction es as [|[[a b] d] es IH]; simpl.
  - intros ->%list_elem_of_singleton. right; by left.
  - destruct (same_pair u v a b).
    + intros [->|H]%elem_of_cons.
      * right; right. split; [exists d; left | done].
      * left. by right.
    + intros [->|H]%elem_of_cons; [left; left|].
      destruct (IH H) as [H'|[H'|[[d' H'] H'']]].
      * left. by right.
      * right; by left.
      * right; right. split; [exists d'; by right | done].
Qed.

(** Every edge left by a sequence of insertions has the endpoints of one
    insertion and the label of one insertion. *)
Lemma insertions_edges (log : list Spec.insertion) :
  ∀ e, e ∈ fold_left Spec.insert_edge log [] →
       (∃ ins, ins ∈ log ∧ e.1 = ins.1)
       ∧ (∃ ins, ins ∈ log ∧ e.2 = Spec.labelled ins.2).
Proof.
  induction log as [|[[s t] f] log IH] using rev_ind; simpl.
  - by intros e ?%elem_of_nil.
  - intros e. rewrite fold_left_app. cbn [fold_left].
    unfold Spec.insert_edge at 1. cbn [fst snd].
    assert (Hold : e ∈ fold_left Spec.insert_edge log [] →
                   (∃ ins, ins ∈ (log ++ [(s, t, f)])%list ∧ e.1 = ins.1)
                   ∧ (∃ ins, ins ∈ (log ++ [(s, t, f)])%list
                             ∧ e.2 = Spec.labelled ins.2)).
    { intros [(i1 & H1 & E1) (i2 & H2 & E2)]%IH. split.
      - exists i1. split; [apply elem_of_app; by left | done].
      - exists i2. split; [apply elem_of_app; by left | done]. }
    destruct (String.eqb s t); cbn [negb]; [exact Hold|].
    intros [H|[->|[[d H] Hd]]]%elem_of_update_edge; [by apply Hold| |].
    + split; exists (s, t, f); (split; [apply elem_of_app; right; left | done]).
    + split.
      * apply IH in H as [(i1 & H1 & E1) _]. exists i1.
        split; [apply elem_of_app; by left | done].
      * exists (s, t, f). split; [apply elem_of_app; right; left | done].
Qed.

Lemma hierarchical_reference_labels (d : dict) refs :
  _extract_hierarchical_references d = Ok refs →
  Forall (λ ref : string * list string,
            ref.1 ∈ ["temporal_location"; "state_location";
                     "state_organization"]) refs.
Proof.
  set (P := Forall (λ ref : string * list string,
                      ref.1 ∈ ["temporal_location"; "state_location";
                               "state_organization"])).
  assert (Hnested : ∀ part key label r,
             label ∈ ["temporal_location"; "state_location";
                      "state_organization"] →
             nested_reference part key label = Ok r → P r).
  { intros part key label r Hl. unfold nested_reference.
    intros H. bind_inv H. destruct a.
    - bind_inv H. injection H as <-. by apply Forall_singleton.
    - injection H as <-. constructor. }
  unfold _extract_hierarchical_references. intros H. bind_inv H.
  assert (Ha' : P a).
  { destruct (assoc_get "temporalParts" d) as [parts|];
      [|injection Ha as <-; constructor].
    bind_inv Ha. revert Ha. apply foldM_invariant; [|constructor].
    intros acc part acc' _ Hacc Hstep. bind_inv Hstep. injection Hstep as <-.
    apply Forall_app. split; [done|].
    apply (Hnested part "location" "temporal_location"); [left | done]. }
  destruct (assoc_get "states" d) as [states|]; [|by injection H as <-].
  bind_inv H. revert H. apply foldM_invariant; [|exact Ha'].
  intros acc part acc' _ Hacc Hstep. bind_inv Hstep. bind_inv Hstep.
  injection Hstep as <-.
  repeat (apply Forall_app; split); [done| |].
  - apply (Hnested part "location" "state_location"); [right; left | done].
  - apply (Hnested part "organisation" "state_organization");
      [right; right; left | done].
Qed.

Lemma all_insertions_labels (em : entity_map_t) (log : list Spec.insertion) :
  Spec.all_insertions em = Ok log →
  Forall (λ ins : Spec.insertion, ins.2 ∈ Spec.relationship_labels) log.
Proof.
  unfold Spec.all_insertions.
  apply (foldM_invariant
           (Forall (λ ins : Spec.insertion, ins.2 ∈ Spec.relationship_labels)));
    [|constructor].
  intros acc item acc' _ Hacc Hstep. bind_inv Hstep. injection Hstep as <-.
  apply Forall_app. split; [done|].
  unfold Spec.entity_insertions in Ha. bind_inv Ha. injection Ha as <-.
  rename a0 into hier.
  assert (Hflat : ∀ {A} (field : A → string) (targets : A → list string) refs,
             Forall (λ ref, field ref ∈ Spec.relationship_labels) refs →
             Forall (λ ins : Spec.insertion, ins.2 ∈ Spec.relationship_labels)
                    (flat_map (λ ref, Spec.insertions_for em item.1 (field ref)
                                        (targets ref)) refs)).
  { intros A field targets refs Hrefs.
    induction Hrefs as [|ref refs Href Hrefs IH]; simpl; [constructor|].
    apply Forall_app. split; [|exact IH].
    unfold Spec.insertions_for. apply Forall_forall.
    by intros ins (t & -> & _)%list_elem_of_fmap. }
  repeat (apply Forall_app; split).
  - apply (Hflat _ fst (λ ref, [ref.2])).
    unfold _extract_direct_references. apply Forall_forall.
    intros ref Href%list_elem_of_In. apply in_flat_map in Href as (f & Hf & Href).
    assert (ref.1 = f) as ->.
    { destruct (assoc_get f item.2.2) as [v|]; [|by destruct Href].
      destruct (truthy v); [|by destruct Href]. by destruct Href as [<-|[]]. }
    unfold Spec.relationship_labels. apply elem_of_app. left.
    by apply list_elem_of_In.
  - apply (Hflat _ fst snd).
    unfold _extract_list_references. apply Forall_forall.
    intros ref Href%list_elem_of_In. apply in_flat_map in Href as (f & Hf & Href).
    assert (ref.1 = f) as ->.
    { destruct (assoc_get f item.2.2) as [[| | | |items|]|]; try by destruct Href.
      destruct (map py_str _); [by destruct Href|]. by destruct Href as [<-|[]]. }
    unfold Spec.relationship_labels. apply elem_of_app. right.
    apply elem_of_app. left. by apply list_elem_of_In.
  - apply (Hflat _ fst snd).
    eapply Forall_impl; [exact (hierarchical_reference_labels _ _ Ha0)|].
    intros ref Href. unfold Spec.relationship_labels.
    apply elem_of_app. right. apply elem_of_app. by right.
Qed.

(** X2.  For a database whose entity ids are strings: every edge of a built
    graph joins two entities of the database, and carries weight 1 and one
    of the eleven relationship labels (a reference field name or one of
    [temporal_location], [state_location], [state_organization]).  A
    reference to an id that no entity has leaves nothing behind: that id is
    no node of the graph and no endpoint of an edge. *)
Theorem built_graph_edges_are_resolved_references
    (database : dict) (include_metadata : bool) (g : graph) :
  Spec.well_typed database →
  build_graph database include_metadata = Ok g →
  (∀ e, e ∈ edges g →
        e.1.1 ∈ Spec.collection_ids database
        ∧ e.1.2 ∈ Spec.collection_ids database
        ∧ ∃ field, field ∈ Spec.relationship_labels
                   ∧ e.2 = mkEdgeData (Some (VStr field)) (Some 1%Q))
  ∧ (∀ t, t ∉ Spec.collection_ids database →
          (t ∉ node_set g)
          ∧ ∀ e, e ∈ edges g → e.1.1 ≠ t ∧ e.1.2 ≠ t).
Proof.
  intros _ Hbuild.
  destruct (build_graph_phases _ _ _ Hbuild)
    as (g0 & em & log & Hpass & (_ & Hkeys & _) & Hlog & Hnodes & Hedges).
  destruct (node_pass_node_set _ _ _ _ _ Hpass) as [Hset _].
  cbn [fst] in Hset.
  assert (Hg : node_set g = list_to_set (Spec.collection_ids database)).
  { unfold node_set at 1. rewrite Hnodes. fold (node_set g0). rewrite Hset.
    unfold Spec.collection_ids, node_set. simpl. set_solver. }
  assert (Hnode : ∀ k, assoc_mem k em = true →
                       k ∈ Spec.collection_ids database).
  { intros k Hk. apply (elem_of_list_to_set (C := gset string)).
    rewrite <- Hg. unfold node_set, keys. rewrite Hnodes.
    apply elem_of_list_to_set, assoc_mem_elem_of. by apply Hkeys. }
  assert (Hends : ∀ e, e ∈ edges g →
            e.1.1 ∈ Spec.collection_ids database
            ∧ e.1.2 ∈ Spec.collection_ids database
            ∧ ∃ field, field ∈ Spec.relationship_labels
                       ∧ e.2 = mkEdgeData (Some (VStr field)) (Some 1%Q)).
  { intros e He. rewrite Hedges in He.
    destruct (insertions_edges log e He) as [(i1 & H1 & E1) (i2 & H2 & E2)].
    pose proof (proj1 (Forall_forall _ _) (all_insertions_known em log Hlog) i1 H1)
      as [Hs Ht].
    pose proof (proj1 (Forall_forall _ _) (all_insertions_labels em log Hlog) i2 H2)
      as Hlabel.
    rewrite E1. split; [by apply Hnode|]. split; [by apply Hnode|].
    exists i2.2. by split. }
  split; [exact Hends|].
  intros t Ht. split.
  - rewrite Hg, elem_of_list_to_set. exact Ht.
  - intros e He. destruct (Hends e He) as (H1 & H2 & _).
    split; intros Heq; apply Ht; by rewrite <- Heq.
Qed.

(** The owner of [v1], ['nobody'], is not an entity: only the reference to
    its country leaves an edge, and ['nobody'] is no node. *)
Lemma built_graph_edges_are_resolved_references_witness :
  ∃ g, Spec.well_typed gaps_db
       ∧ build_graph gaps_db true = Ok g
       ∧ edges g = [("v1", "c1", Spec.labelled "country")]
       ∧ ("nobody" ∉ node_set g)
       ∧ ∀ e, e ∈ edges g → e.1.1 ≠ "nobody" ∧ e.1.2 ≠ "nobody".
Proof.
  eexists. split; [exact gaps_db_well_typed|].
  split; [vm_compute; reflexivity|]. split; [reflexivity|].
  edestruct (built_graph_edges_are_resolved_references gaps_db true)
    as (_ & Hno); [exact gaps_db_well_typed | vm_compute; reflexivity |].
  apply (Hno "nobody").
  replace (Spec.collection_ids gaps_db) with ["c1"; "c1"; "v1"]
    by (vm_compute; reflexivity).
  rewrite !elem_of_cons, elem_of_nil. intros [H|[H|[H|H]]]; try discriminate H.
  exact H.
Defined.

(** ** Attributes of built nodes *)

Lemma Forall_keys_assoc_set {V} (P : string → Prop) (k : string) (v : V) d :
  P k → Forall P (keys d) → Forall P (keys (assoc_set k v d)).
Proof.
  intros Hk Hd. rewrite keys_assoc_set. destruct (assoc_mem k d); [done|].
  apply Forall_app. split; [done|]. by apply Forall_singleton.
Qed.

Lemma Forall_keys_dict_update (P : string → Prop) (d e : dict) :
  Forall P (keys d) → Forall P (keys e) → Forall P (keys (dict_update d e)).
Proof.
  unfold dict_update. revert d.
  induction e as [|[k v] e IH]; intros d Hd He; simpl; [done|].
  cbn [keys map fst] in He. apply Forall_cons in He as [Hk He].
  apply IH; [|done]. by apply Forall_keys_assoc_set.
Qed.

Lemma Forall_keys_copy_field (P : string → Prop) (entity : dict)
    (src dst : string) (a : dict) :
  P dst → Forall P (keys a) → Forall P (keys (copy_field entity src dst a)).
Proof.
  intros Hdst Ha. unfold copy_field.
  destruct (assoc_get src entity); [by apply Forall_keys_assoc_set | done].
Qed.

(** For a collection name none of the type-specific branches of
    [_extract_searchable_attributes] applies. *)
Lemma searchable_attributes_of_collection (entity : dict) (entity_type : string) :
  entity_type ∈ entity_types →
  _extract_searchable_attributes entity entity_type
  = copy_field entity "nationality" "nationality"
      (copy_field entity "country" "country"
         (copy_field entity "owner" "owner"
            (copy_field entity "model" "model"
               (copy_field entity "make" "manufacturer"
                  (copy_field entity "year" "year" []))))).
Proof.
  unfold entity_types. rewrite !elem_of_cons, elem_of_nil.
  intros H.
  repeat match goal with
         | H : _ ∨ _ |- _ => destruct H as [->|H]
         end; [..|done]; reflexivity.
Qed.

Lemma color_of_collection (entity_type : string) :
  entity_type ∈ entity_types → assoc_get entity_type node_colors = None.
Proof.
  unfold entity_types. rewrite !elem_of_cons, elem_of_nil.
  intros H.
  repeat match goal with
         | H : _ ∨ _ |- _ => destruct H as [->|H]
         end; [..|done]; reflexivity.
Qed.

Lemma _add_node_attributes (g g' : graph) (key : string) (d : dict)
    (entity_type : string) (include_metadata : bool) :
  entity_type ∈ entity_types →
  _add_node g key d entity_type include_metadata = Ok g' →
  ∃ attrs, g' = add_node g key attrs
           ∧ NoDup (keys attrs)
           ∧ Spec.built_attributes entity_type include_metadata d attrs.
Proof.
  intros Ht. unfold _add_node. intros H. bind_inv H. injection H as <-.
  rename a into label.
  eexists. split; [reflexivity|].
  destruct (searchable_attributes_keys d entity_type) as [Hnd Hty].
  assert (Hbase : NoDup (keys (if include_metadata
                               then assoc_set "data" (VDict d)
                                      [("type", VStr entity_type); ("label", label);
                                       ("color", VStr "#808080")]
                               else [("type", VStr entity_type); ("label", label);
                                     ("color", VStr "#808080")]))).
  { destruct include_metadata; simpl; apply (bool_decide_unpack _); reflexivity. }
  pose proof (color_of_collection _ Ht) as Hc. simpl in Hc. rewrite Hc.
  split; [by apply NoDup_keys_dict_update|].
  unfold Spec.built_attributes, assoc_mem.
  rewrite !(assoc_get_dict_update _ _ _ Hnd).
  rewrite (searchable_attributes_of_collection _ _ Ht) in *.
  rewrite !copy_field_get_ne by discriminate. cbn [assoc_get].
  split; [by destruct include_metadata|].
  split; [by destruct include_metadata|].
  split; [by destruct include_metadata|].
  split; [by destruct include_metadata|].
  apply Forall_keys_dict_update.
  - destruct include_metadata; simpl; repeat constructor;
      apply (bool_decide_unpack _); reflexivity.
  - repeat (apply Forall_keys_copy_field;
            [apply (bool_decide_unpack _); reflexivity|]).
    constructor.
Qed.

Lemma built_attributes_update (entity_type : string) (include_metadata : bool)
    (d0 d old attrs : dict) (t0 : string) :
  NoDup (keys attrs) →
  Spec.built_attributes t0 include_metadata d0 old →
  Spec.built_attributes entity_type include_metadata d attrs →
  Spec.built_attributes entity_type include_metadata d (dict_update old attrs).
Proof.
  intros Hnd (_ & _ & _ & Hdata0 & Hkeys0) (Hty & Hcol & Hlab & Hdata & Hkeys).
  unfold Spec.built_attributes, assoc_mem in *.
  rewrite !(assoc_get_dict_update _ _ _ Hnd), Hty, Hcol, Hdata.
  split; [done|]. split; [done|].
  split; [by destruct (assoc_get "label" attrs)|].
  split; [destruct include_metadata; [done | exact Hdata0]|].
  by apply Forall_keys_dict_update.
Qed.

Lemma add_entity_built_nodes (database : dict) (entity_type : string)
    (include_metadata : bool) entities items entity st st' :
  entity_type ∈ entity_types →
  assoc_get entity_type database = Some entities →
  py_iter entities = Ok items →
  entity ∈ items →
  Forall (Spec.built_node database include_metadata) (nodes st.1) →
  add_entity entity_type include_metadata st entity = Ok st' →
  Forall (Spec.built_node database include_metadata) (nodes st'.1).
Proof.
  intros Ht Hdb Hiter Hin Hnodes Hrun.
  unfold add_entity in Hrun. bind_inv Hrun.
  destruct (truthy a) eqn:Htruthy; simpl in Hrun; [|by injection Hrun as <-].
  bind_inv Hrun. rename a0 into key.
  destruct entity as [| | | | |d]; try discriminate.
  bind_inv Hrun. injection Hrun as <-. rename a0 into g'.
  simpl in Ha. injection Ha as <-.
  assert (Hid : assoc_get "id" d = Some (VStr key)).
  { unfold dict_get_default in Ha0.
    destruct (assoc_get "id" d) as [v|]; [|discriminate].
    destruct v; try discriminate. by injection Ha0 as ->. }
  apply (_add_node_attributes _ _ _ _ _ _ Ht) in Ha1 as (attrs & -> & Hnd & Hattrs).
  cbn [fst]. unfold add_node; cbn [nodes].
  destruct (assoc_get key (nodes st.1)) as [old|] eqn:E.
  - assert (Hold : Spec.built_node database include_metadata (key, old)).
    { apply (proj1 (Forall_forall _ _) Hnodes).
      clear -E. induction (nodes st.1) as [|[k v] l IH]; simpl in E; [done|].
      destruct (String.eqb key k) eqn:Ek.
      - apply String.eqb_eq in Ek; subst k. injection E as ->. left.
      - right. by apply IH. }
    destruct Hold as (t0 & _ & _ & d0 & _ & _ & _ & _ & _ & Hold).
    apply Forall_forall. intros nd [->|Hnd']%elem_of_assoc_set.
    + exists entity_type, entities, items, d. repeat (split; [done|]).
      by apply (built_attributes_update entity_type include_metadata d0 d old
                  attrs t0).
    + by apply (proj1 (Forall_forall _ _) Hnodes).
  - apply Forall_app. split; [done|]. apply Forall_singleton.
    by exists entity_type, entities, items, d.
Qed.

Lemma node_pass_built_nodes (database : dict) (include_metadata : bool) st :
  foldM (add_entities database include_metadata) (empty_graph, []) entity_types
  = Ok st →
  Forall (Spec.built_node database include_metadata) (nodes st.1).
Proof.
  apply (foldM_invariant
           (λ st, Forall (Spec.built_node database include_metadata) (nodes st.1)));
    [|constructor].
  intros acc entity_type acc' Ht Hacc Hrun. unfold add_entities in Hrun.
  destruct (assoc_get entity_type database) as [entities|] eqn:Hdb;
    [|by injection Hrun as <-].
  bind_inv Hrun. bind_inv Hrun. rename a0 into items.
  revert Hacc Hrun.
  apply (foldM_invariant
           (λ st, Forall (Spec.built_node database include_metadata) (nodes st.1))).
  intros st0 entity st1 Hin Hst0 Hstep.
  by apply (add_entity_built_nodes database entity_type include_metadata
              entities items entity st0 st1).
Qed.

Lemma build_graph_built_nodes (database : dict) (include_metadata : bool)
    (g : graph) :
  build_graph database include_metadata = Ok g →
  Forall (Spec.built_node database include_metadata) (nodes g).
Proof.
  intros Hbuild.
  destruct (build_graph_phases _ _ _ Hbuild)
    as (g0 & em & log & Hpass & _ & _ & Heq & _).
  rewrite Heq. exact (node_pass_built_nodes _ _ _ Hpass).
Qed.

(** X3.  Every node of a built graph carries the attributes [_add_node]
    writes for an entity with the node's id found in the collection named by
    the node's type: a label, the default colour ['#808080'] (the colour table
    is keyed by singular type names, the types are the plural collection
    names), that entity under [data] exactly when metadata is included, and
    besides these only the six common searchable attributes; none of the
    type-specific attributes ([vehicle_type], [fuel_type], ...) is ever
    written. *)
Theorem built_graph_node_attributes
    (database : dict) (include_metadata : bool) (g : graph) :
  build_graph database include_metadata = Ok g →
  ∀ node_id attrs, node_attrs g node_id = Some attrs →
    Spec.built_node database include_metadata (node_id, attrs)
    ∧ assoc_get "color" attrs = Some (VStr "#808080")
    ∧ (assoc_mem "data" attrs = include_metadata)
    ∧ assoc_get "vehicle_type" attrs = None
    ∧ assoc_get "organization_type" attrs = None
    ∧ assoc_get "area_type" attrs = None.
Proof.
  intros Hbuild node_id attrs Hattrs.
  assert (Hin : (node_id, attrs) ∈ nodes g).
  { unfold node_attrs in Hattrs. clear -Hattrs.
    induction (nodes g) as [|[k v] l IH]; simpl in Hattrs; [done|].
    destruct (String.eqb node_id k) eqn:Ek.
    - apply String.eqb_eq in Ek; subst k. injection Hattrs as ->. left.
    - right. by apply IH. }
  pose proof (proj1 (Forall_forall _ _) (build_graph_built_nodes _ _ _ Hbuild)
                _ Hin) as Hnode.
  split; [exact Hnode|].
  destruct Hnode
    as (t & _ & _ & d & _ & _ & _ & _ & _ & _ & Hcol & _ & Hdata & Hkeys).
  cbn [snd] in *.
  split; [exact Hcol|].
  split; [unfold assoc_mem; rewrite Hdata; by destruct include_metadata|].
  assert (Hnone : ∀ k, k ∉ Spec.node_attribute_names → assoc_get k attrs = None).
  { intros k Hk. apply assoc_get_None. intros Hk'.
    by apply Hk, (proj1 (Forall_forall _ _) Hkeys). }
  repeat split; apply Hnone; apply (bool_decide_unpack _); reflexivity.
Qed.

(** The vehicle of the scenario: its [vehicleType] is not copied to the
    node. *)
Lemma built_graph_node_attributes_witness :
  ∃ g attrs, build_graph scenario_db true = Ok g
             ∧ node_attrs g "v1" = Some attrs
             ∧ assoc_get "color" attrs = Some (VStr "#808080")
             ∧ assoc_get "vehicle_type" attrs = None.
Proof.
  eexists. eexists. split; [vm_compute; reflexivity|].
  split; [reflexivity|].
  edestruct (built_graph_node_attributes scenario_db true)
    with (node_id := "v1") as (_ & Hcol & _ & Hvt & _);
    [vm_compute; reflexivity | reflexivity |].
  by split.
Defined.

(** ** The metadata of combined databases *)

Lemma combine_entity_counted (db_name entity_type : string)
    (st st' : combine_state) (entity : pyval) :
  entity_type ∈ entity_types →
  Spec.counted st →
  combine_entity db_name entity_type st entity = Ok st' →
  Spec.counted st'.
Proof.
  intros Ht [Hkeys Hcount]. unfold combine_entity. intros Hrun. bind_inv Hrun.
  destruct (truthy a); [|by injection Hrun as <-].
  bind_inv Hrun. rename a0 into key.
  destruct (decide (key ∈ seen_of st entity_type)); [by injection Hrun as <-|].
  destruct entity as [| | | | |d]; try discriminate.
  injection Hrun as <-. split; cbn [combined entity_counts].
  - rewrite keys_assoc_set.
    assert (assoc_mem entity_type (combined st) = true) as ->; [|done].
    apply assoc_mem_elem_of. fold (keys (combined st)). by rewrite Hkeys.
  - intros t. unfold combined_of, count_of. cbn [combined entity_counts].
    destruct (String.eqb t entity_type) eqn:E.
    + apply String.eqb_eq in E; subst t. rewrite !assoc_get_set_eq.
      rewrite length_app, Nat.add_1_r.
      specialize (Hcount entity_type). unfold combined_of in Hcount.
      rewrite Hcount. by destruct (length _).
    + assert (entity_type ≠ t) by (intros ->; by rewrite String.eqb_refl in E).
      rewrite !assoc_get_set_ne by done. apply Hcount.
Qed.

Lemma combine_databases_counted (databases : list (string * dict))
    (st : combine_state) :
  foldM combine_database combine_init databases = Ok st → Spec.counted st.
Proof.
  apply (foldM_invariant Spec.counted).
  - intros acc src acc' _. unfold combine_database.
    apply (foldM_invariant Spec.counted).
    intros acc1 t acc1' Ht Hacc1. unfold combine_type.
    destruct (assoc_get t src.2) as [entities|]; [|by intros [= <-]].
    intros Hrun. bind_inv Hrun. revert Hacc1 Hrun.
    apply (foldM_invariant Spec.counted).
    intros acc2 e acc2' _. by apply combine_entity_counted.
  - split; [reflexivity|]. intros t. unfold combined_of, combine_init.
    cbn [combined entity_counts assoc_get].
    destruct (assoc_get t (map (λ t0, (t0, @nil pyval)) entity_types)) as [l|] eqn:E;
      [|done].
    assert (l = []) as ->; [|done].
    revert E. unfold entity_types. simpl.
    repeat match goal with
           | |- context [if ?b then _ else _] => destruct b
           end; congruence.
Qed.

Lemma keys_map_values {A B} (f : A → B) (d : list (string * A)) :
  keys (map (λ kv, (kv.1, f kv.2)) d) = keys d.
Proof. unfold keys. induction d as [|[k v] d IH]; simpl; by f_equal. Qed.

(** X4.  The dictionary [combine_databases] returns has the eight
    collections and [_metadata], in this order; [combined_from] lists the
    source names in the caller's order, and [entity_counts] holds for each
    entity type the number of entities of the merged collection, with no
    entry for a type whose merged collection is empty. *)
Theorem combine_databases_metadata_counts
    (databases : list (string * dict)) (out : dict) :
  combine_databases databases = Ok out →
  keys out = (entity_types ++ ["_metadata"])%list
  ∧ ∃ counts : dict,
      assoc_get "_metadata" out
      = Some (VDict [("combined_from", VList (map (λ src, VStr src.1) databases));
                     ("entity_counts", VDict counts)])
      ∧ (∀ entity_type, entity_type ∈ entity_types →
           assoc_get entity_type counts
           = match Spec.merged databases entity_type with
             | [] => None
             | kept => Some (VInt (Z.of_nat (length kept)))
             end)
      ∧ (∀ k, k ∉ entity_types → assoc_get k counts = None).
Proof.
  intros Hrun. pose proof Hrun as Hrun'.
  unfold combine_databases in Hrun. bind_inv Hrun. injection Hrun as <-.
  rename a into st.
  destruct (combine_databases_counted _ _ Ha) as [Hkeys Hcount].
  split.
  - unfold keys at 1. rewrite map_app.
    fold (keys (map (λ tl, (tl.1, VList tl.2)) (combined st))).
    by rewrite (keys_map_values VList), Hkeys.
  - eexists. split; [|split].
    + rewrite assoc_get_app.
      assert (assoc_get "_metadata" (map (λ tl, (tl.1, VList tl.2)) (combined st))
              = None) as ->; [|reflexivity].
      apply assoc_get_None. rewrite (keys_map_values VList), Hkeys.
      apply (bool_decide_unpack _). reflexivity.
    + intros t Ht.
      rewrite (assoc_get_map_values (λ n, VInt (Z.of_nat n))), Hcount.
      destruct (combine_databases_step t databases _ _ [] Ht Ha
                  (combine_init_state t Ht)) as [Hc _].
      unfold combined_of. rewrite Hc. simpl. fold (Spec.merged databases t).
      rewrite length_map. by destruct (Spec.merged databases t).
    + intros k Hk.
      rewrite (assoc_get_map_values (λ n, VInt (Z.of_nat n))), Hcount.
      unfold combined_of.
      assert (assoc_get k (combined st) = None) as ->; [|done].
      apply assoc_get_None. by rewrite Hkeys.
Qed.

(** Sources [A] and [B] hold three distinct vehicles between them. *)
Lemma combine_databases_metadata_counts_witness :
  ∃ out, combine_databases [("A", source_a); ("B", source_b)] = Ok out
         ∧ assoc_get "_metadata" out
           = Some (VDict [("combined_from", VList [VStr "A"; VStr "B"]);
                          ("entity_counts", VDict [("vehicles", VInt 3)])]).
Proof.
  eexists. split; [vm_compute; reflexivity|].
  edestruct (combine_databases_metadata_counts [("A", source_a); ("B", source_b)])
    as (_ & counts & Hmeta & _); [vm_compute; reflexivity|].
  reflexivity.
Defined.

(** ** Provenance in the combined graph *)

Lemma elem_of_offered_by (name : string) (e : pyval)
    (o : string * (string * dict)) :
  o ∈ Spec.offered_by name e ↔
  ∃ d, e = VDict d ∧ assoc_get "id" d = Some (VStr o.1) ∧ o.1 ≠ ""
       ∧ o.2 = (name, d).
Proof.
  unfold Spec.offered_by. split.
  - destruct e as [| | | | |d]; try by intros ?%elem_of_nil.
    destruct (assoc_get "id" d) as [[| | |s| |]|] eqn:Hid;
      try by intros ?%elem_of_nil.
    destruct (String.eqb s "") eqn:E; [by intros ?%elem_of_nil|].
    intros ->%list_elem_of_singleton. exists d. cbn [fst snd].
    repeat split; try done. intros ->. simpl in E. discriminate.
  - intros (d & -> & Hid & Hne & Ho). rewrite Hid.
    destruct (String.eqb o.1 "") eqn:E; [by apply String.eqb_eq in E|].
    destruct o as [i x]. simpl in *. subst x. left.
Qed.

Lemma elem_of_offered (entity_type : string) (src : string * dict)
    (o : string * (string * dict)) :
  o ∈ Spec.offered entity_type src ↔
  ∃ entities items d,
    assoc_get entity_type src.2 = Some entities
    ∧ py_iter entities = Ok items
    ∧ VDict d ∈ items
    ∧ assoc_get "id" d = Some (VStr o.1) ∧ o.1 ≠ ""
    ∧ o.2 = (src.1, d).
Proof.
  unfold Spec.offered. split.
  - destruct (assoc_get entity_type src.2) as [entities|];
      [|by intros ?%elem_of_nil].
    destruct (py_iter entities) as [items|] eqn:Hiter;
      [|by intros ?%elem_of_nil].
    intros Ho. apply list_elem_of_In, in_flat_map in Ho as (e & He & Ho).
    apply list_elem_of_In in He, Ho.
    apply elem_of_offered_by in Ho as (d & -> & Hid & Hne & Ho).
    by exists entities, items, d.
  - intros (entities & items & d & -> & -> & Hin & Hid & Hne & Ho).
    apply list_elem_of_In, in_flat_map. exists (VDict d).
    split; [by apply list_elem_of_In|].
    apply list_elem_of_In, elem_of_offered_by. by exists d.
Qed.

(** The ids a collection offers do not depend on the name of the source. *)
Lemma offered_ids (entity_type : string) (src : string * dict) (n : string) :
  n ∈ map fst (Spec.offered entity_type src) ↔
  ∃ entities items d,
    assoc_get entity_type src.2 = Some entities
    ∧ py_iter entities = Ok items
    ∧ VDict d ∈ items
    ∧ assoc_get "id" d = Some (VStr n) ∧ n ≠ "".
Proof.
  rewrite list_elem_of_fmap. split.
  - intros (o & -> & Ho). apply elem_of_offered in Ho
      as (entities & items & d & H1 & H2 & H3 & H4 & H5 & _).
    by exists entities, items, d.
  - intros (entities & items & d & H1 & H2 & H3 & H4 & H5).
    exists (n, (src.1, d)). split; [done|].
    apply elem_of_offered. by exists entities, items, d.
Qed.

Lemma elem_of_collection_ids (database : dict) (n : string) :
  n ∈ Spec.collection_ids database ↔
  ∃ entity_type, entity_type ∈ entity_types
                 ∧ n ∈ map fst (Spec.offered entity_type ("", database)).
Proof.
  unfold Spec.collection_ids. rewrite list_elem_of_In, in_flat_map.
  split; intros (t & Ht & Hn); exists t; split;
    by apply list_elem_of_In.
Qed.

(** ** Nodes of built graphs: one per entity id *)

(** X1.  For a database whose entity ids are strings (the data model of the
    specification; the embedding leaves other hashable ids out), the nodes
    of a built graph are exactly the ids of the entities of the eight
    collections that have a non-empty id: every entity with a non-empty id
    is a node, there is one node per id, however many entities share it, and
    none for an entity without id. *)
Theorem built_graph_nodes_are_entity_ids
    (database : dict) (include_metadata : bool) (g : graph) :
  Spec.well_typed database →
  build_graph database include_metadata = Ok g →
  (∀ n, n ∈ node_set g ↔
        ∃ entity_type items d,
          entity_type ∈ entity_types
          ∧ assoc_get entity_type database = Some (VList items)
          ∧ VDict d ∈ items
          ∧ assoc_get "id" d = Some (VStr n) ∧ n ≠ "")
  ∧ (∀ entity_type items d,
       entity_type ∈ entity_types →
       assoc_get entity_type database = Some (VList items) →
       VDict d ∈ items →
       truthy (dict_get_default d "id" VNone) = true →
       ∃ n, assoc_get "id" d = Some (VStr n) ∧ n ∈ node_set g)
  ∧ node_set g = list_to_set (Spec.collection_ids database)
  ∧ NoDup (keys (nodes g))
  ∧ number_of_nodes g = size (node_set g)
  ∧ "" ∉ node_set g.
Proof.
  intros Htyped Hbuild.
  destruct (build_graph_phases _ _ _ Hbuild)
    as (g0 & em & log & Hpass & _ & _ & Heq & _).
  destruct (node_pass_node_set _ _ _ _ _ Hpass) as [Hset Hnd].
  cbn [fst] in Hset, Hnd.
  assert (Hg : node_set g = list_to_set (Spec.collection_ids database)).
  { unfold node_set at 1. rewrite Heq. fold (node_set g0). rewrite Hset.
    unfold Spec.collection_ids, node_set. simpl. set_solver. }
  assert (Hdup : NoDup (keys (nodes g))).
  { rewrite Heq. apply Hnd. apply NoDup_nil_2. }
  assert (Hiff : ∀ n, n ∈ node_set g ↔
            ∃ entity_type items d,
              entity_type ∈ entity_types
              ∧ assoc_get entity_type database = Some (VList items)
              ∧ VDict d ∈ items
              ∧ assoc_get "id" d = Some (VStr n) ∧ n ≠ "").
  { intros n. rewrite Hg, elem_of_list_to_set, elem_of_collection_ids. split.
    - intros (t & Ht & Hn). apply offered_ids in Hn
        as (entities & items & d & Hget & Hiter & Hin & Hid & Hne).
      cbn [snd] in Hget.
      destruct (Htyped t entities Ht Hget) as (items' & -> & _).
      injection Hiter as <-. by exists t, items', d.
    - intros (t & items & d & Ht & Hget & Hin & Hid & Hne).
      exists t. split; [exact Ht|]. apply offered_ids.
      by exists (VList items), items, d. }
  split; [exact Hiff|]. split; [|split; [exact Hg|]].
  - intros t items d Ht Hget Hin Htruthy.
    destruct (Htyped t (VList items) Ht Hget) as (items' & [= <-] & Hall).
    pose proof (proj1 (Forall_forall _ _) Hall (VDict d) Hin)
      as (d' & [= <-] & Hstr).
    destruct (Hstr Htruthy) as (n & Hid). exists n. split; [exact Hid|].
    apply Hiff. exists t, items, d. repeat split; try done.
    intros ->. unfold dict_get_default in Htruthy. rewrite Hid in Htruthy.
    discriminate.
  - split; [exact Hdup|]. split.
    + unfold number_of_nodes, node_set. fold (keys (nodes g)).
      rewrite size_list_to_set; [|exact Hdup]. unfold keys.
      by rewrite length_map.
    + rewrite Hg, elem_of_list_to_set. unfold Spec.collection_ids.
      intros Hin. apply list_elem_of_In, in_flat_map in Hin as (t & _ & Hin).
      apply list_elem_of_In in Hin. by apply offered_ids_nonempty in Hin.
Qed.

(** A database with an entity without id and a repeated id. *)
Lemma built_graph_nodes_are_entity_ids_witness :
  ∃ g, Spec.well_typed gaps_db
       ∧ build_graph gaps_db true = Ok g
       ∧ node_set g = {["c1"; "v1"]}
       ∧ number_of_nodes g = 2%nat.
Proof.
  eexists. split; [exact gaps_db_well_typed|].
  split; [vm_compute; reflexivity|].
  edestruct (built_graph_nodes_are_entity_ids gaps_db true)
    as (_ & _ & Hset & _ & Hsize & _);
    [exact gaps_db_well_typed | vm_compute; reflexivity |].
  split; [rewrite Hset | rewrite Hsize, Hset]; vm_compute; reflexivity.
Defined.

Lemma elem_of_assoc_set_new {V} (k : string) (v : V) d :
  (k, v) ∈ assoc_set k v d.
Proof.
  induction d as [|[k' v'] d IH]; simpl; [left|].
  destruct (String.eqb k k') eqn:E; [|by right].
  apply String.eqb_eq in E; subst k'. left.
Qed.

Lemma elem_of_assoc_set_old {V} (x : string * V) (k : string) (v : V) d :
  x ∈ d → x.1 ≠ k → x ∈ assoc_set k v d.
Proof.
  intros Hx Hne. induction d as [|[k' v'] d IH]; simpl;
    [by apply elem_of_nil in Hx|].
  apply elem_of_cons in Hx as [->|Hx].
  - destruct (String.eqb k k') eqn:E; [|left].
    apply String.eqb_eq in E. simpl in Hne. congruence.
  - destruct (String.eqb k k'); right; [done | by apply IH].
Qed.

(** The selected databases are the loaded databases whose name is listed. *)
Lemma elem_of_select_databases (loaded : list (string * dict))
    (names : list string) (src : string * dict) :
  src ∈ Analyzer.select_databases loaded names ↔
  src.1 ∈ names ∧ assoc_get src.1 loaded = Some src.2.
Proof.
  unfold Analyzer.select_databases.
  induction names as [|x names IH] using rev_ind; simpl.
  - rewrite !elem_of_nil. tauto.
  - rewrite fold_left_app. cbn [fold_left]. rewrite elem_of_app.
    destruct (assoc_get x loaded) as [db|] eqn:Hx.
    + split.
      * intros [->|Hin]%elem_of_assoc_set.
        -- split; [right; left | done].
        -- apply IH in Hin as [H1 H2]. by split; [left|].
      * intros [Hin Hget].
        destruct (decide (src.1 = x)) as [E|E].
        -- destruct src as [k v]. simpl in *. subst k.
           rewrite Hx in Hget. injection Hget as ->.
           apply elem_of_assoc_set_new.
        -- apply elem_of_assoc_set_old; [|done]. apply IH.
           destruct Hin as [Hin | Hin%list_elem_of_singleton]; done.
    + rewrite IH. split; [intros [H1 H2]; by split; [left|]|].
      intros [[Hin | Hin%list_elem_of_singleton] Hget]; [done | congruence].
Qed.

Lemma build_graph_node_ids (database : dict) (include_metadata : bool)
    (g : graph) :
  build_graph database include_metadata = Ok g →
  node_set g = list_to_set (Spec.collection_ids database).
Proof.
  intros Hbuild.
  destruct (build_graph_phases _ _ _ Hbuild)
    as (g0 & em & log & Hpass & _ & _ & Heq & _).
  destruct (node_pass_node_set _ _ _ _ _ Hpass) as [Hset _].
  cbn [fst] in Hset.
  unfold node_set at 1. rewrite Heq. fold (node_set g0). rewrite Hset.
  unfold Spec.collection_ids, node_set. simpl. set_solver.
Qed.

Lemma assoc_get_elem_of {V} (k : string) (v : V) (d : list (string * V)) :
  assoc_get k d = Some v → (k, v) ∈ d.
Proof.
  induction d as [|[k' v'] d IH]; simpl; [done|].
  destruct (String.eqb k k') eqn:Ek.
  - apply String.eqb_eq in Ek; subst k'. intros [= ->]. left.
  - intros H. right. by apply IH.
Qed.

(** An entity of a merged collection is an entity some source offers,
    tagged with the name of that source. *)
Lemma merged_entity (databases : list (string * dict)) (out : dict)
    (entity_type : string) entities items (d' : dict) :
  combine_databases databases = Ok out →
  entity_type ∈ entity_types →
  assoc_get entity_type out = Some entities →
  py_iter entities = Ok items →
  VDict d' ∈ items →
  ∃ src d id,
    src ∈ databases
    ∧ (id, (src.1, d)) ∈ Spec.offered entity_type src
    ∧ d' = assoc_set "_source_database" (VStr src.1) d
    ∧ assoc_get "id" d' = Some (VStr id).
Proof.
  intros Hcomb Ht Hget Hiter Hin.
  rewrite (combine_databases_merged _ _ _ Hcomb Ht) in Hget.
  injection Hget as <-. simpl in Hiter. injection Hiter as <-.
  apply list_elem_of_fmap in Hin as (o & Ho & Hin).
  unfold Spec.merged in Hin. apply first_wins_subset in Hin.
  apply list_elem_of_In, in_flat_map in Hin as (src & Hsrc & Hin).
  apply list_elem_of_In in Hsrc, Hin.
  pose proof Hin as Hin'.
  apply elem_of_offered in Hin'
    as (entities & items & d & _ & _ & _ & Hid & _ & Ho2).
  destruct o as [id [name d0]]. simpl in *. injection Ho2 as -> ->.
  unfold Spec.tagged in Ho. simpl in Ho. injection Ho as ->.
  exists src, d, id. repeat split; try done.
  by rewrite assoc_get_set_ne.
Qed.

(** X5.  [build_combined_graph] composes the merge with the build: the
    nodes of the combined graph are the ids of the entities of the listed
    loaded databases (all loaded databases when no list is given), one node
    per id across databases and collections; and each node's [data] is an
    entity with the node's id which one of these databases holds in the
    collection named by the node's type, tagged with that database's name
    under [_source_database]. *)
Theorem combined_graph_provenance
    (loaded : list (string * dict)) (databases : option (list string))
    (g : graph) :
  Analyzer.build_combined_graph loaded databases = Ok g →
  let names :=
    match databases with Some names => names | None => keys loaded end in
  (∀ n, n ∈ node_set g ↔
        ∃ name db, name ∈ names ∧ assoc_get name loaded = Some db
                   ∧ n ∈ Spec.collection_ids db)
  ∧ (∀ n attrs, node_attrs g n = Some attrs →
       ∃ name db entity_type d,
         name ∈ names ∧ assoc_get name loaded = Some db
         ∧ entity_type ∈ entity_types
         ∧ (n, (name, d)) ∈ Spec.offered entity_type (name, db)
         ∧ assoc_get "type" attrs = Some (VStr entity_type)
         ∧ assoc_get "data" attrs
           = Some (VDict (assoc_set "_source_database" (VStr name) d))).
Proof.
  intros Hrun names. unfold Analyzer.build_combined_graph in Hrun.
  fold names in Hrun. bind_inv Hrun. rename a into combined_data.
  set (sel := Analyzer.select_databases loaded names) in *.
  split.
  - intros n. rewrite (build_graph_node_ids _ _ _ Hrun), elem_of_list_to_set.
    rewrite elem_of_collection_ids. split.
    + intros (t & Ht & Hn). apply offered_ids in Hn
        as (entities & items & d' & Hget & Hiter & Hin & Hid & Hne).
      cbn [snd] in Hget.
      destruct (merged_entity _ _ _ _ _ _ Ha Ht Hget Hiter Hin)
        as ([name db] & d & id & Hsrc & Hoff & -> & Hid').
      rewrite Hid in Hid'. injection Hid' as <-.
      apply elem_of_select_databases in Hsrc as [Hname Hdb].
      exists name, db. split; [done|]. split; [done|].
      apply elem_of_collection_ids. exists t. split; [done|].
      apply offered_ids. cbn [fst snd] in *.
      apply elem_of_offered in Hoff
        as (entities' & items' & d0 & H1 & H2 & H3 & H4 & H5 & _).
      by exists entities', items', d0.
    + intros (name & db & Hname & Hdb & Hn).
      apply elem_of_collection_ids in Hn as (t & Ht & Hn).
      exists t. split; [done|].
      assert (Hsrc : (name, db) ∈ sel) by by apply elem_of_select_databases.
      assert (Hoffer : n ∈ map fst (flat_map (Spec.offered t) sel)).
      { apply list_elem_of_fmap.
        apply offered_ids in Hn as (entities & items & d & H1 & H2 & H3 & H4 & H5).
        exists (n, (name, d)). split; [done|].
        apply list_elem_of_In, in_flat_map. exists (name, db).
        split; [by apply list_elem_of_In|].
        apply list_elem_of_In, elem_of_offered. by exists entities, items, d. }
      assert (Hkept : n ∈ map fst (Spec.merged sel t)).
      { unfold Spec.merged. rewrite first_wins_ids. split; [done | set_solver]. }
      apply list_elem_of_fmap in Hkept as (o & -> & Ho).
      pose proof (first_wins_subset _ _ _ Ho) as Ho'.
      apply list_elem_of_In, in_flat_map in Ho' as (src & _ & Ho').
      apply list_elem_of_In, elem_of_offered in Ho'
        as (_ & _ & d & _ & _ & _ & Hid & Hne & Ho2).
      apply offered_ids. cbn [snd].
      exists (VList (map Spec.tagged (Spec.merged sel t))),
             (map Spec.tagged (Spec.merged sel t)),
             (assoc_set "_source_database" (VStr src.1) d).
      split; [by apply combine_databases_merged|]. split; [done|].
      split.
      * apply list_elem_of_fmap. exists o. split; [|done].
        unfold Spec.tagged. by rewrite Ho2.
      * split; [|done]. by rewrite assoc_get_set_ne.
  - intros n attrs Hattrs.
    pose proof (proj1 (Forall_forall _ _) (build_graph_built_nodes _ _ _ Hrun)
                  _ (assoc_get_elem_of _ _ _ Hattrs))
      as (t & entities & items & d' & Ht & Hget & Hiter & Hin & Hid
          & Hty & _ & _ & Hdata & _).
    cbn [fst snd] in *.
    destruct (merged_entity _ _ _ _ _ _ Ha Ht Hget Hiter Hin)
      as ([name db] & d & id & Hsrc & Hoff & -> & Hid').
    rewrite Hid in Hid'. injection Hid' as <-.
    apply elem_of_select_databases in Hsrc as [Hname Hdb].
    cbn [fst snd] in *.
    by exists name, db, t, d.
Qed.

(** The combined graph of the sources [A] and [B], both loaded. *)
Lemma combined_graph_provenance_witness :
  ∃ g attrs,
    Analyzer.build_combined_graph [("A", source_a); ("B", source_b)] None = Ok g
    ∧ node_attrs g "v1" = Some attrs
    ∧ node_set g = {["v1"; "v2"; "v3"]}
    ∧ ∃ name d, assoc_get "data" attrs
                = Some (VDict (assoc_set "_source_database" (VStr name) d)).
Proof.
  eexists. eexists. split; [vm_compute; reflexivity|].
  split; [reflexivity|].
  edestruct (combined_graph_provenance [("A", source_a); ("B", source_b)] None)
    as [_ Hprov]; [vm_compute; reflexivity|].
  split; [vm_compute; reflexivity|].
  edestruct (Hprov "v1") as (name & _ & _ & d & _ & _ & _ & _ & _ & Hdata);
    [reflexivity|].
  by exists name, d.
Defined.

(** ** Filters that look at one node at a time *)

Lemma select_nodes_from (test : string → dict → res bool)
    (l : list (string * dict)) (acc s : gset string) :
  foldM (λ valid nd,
           b ← test nd.1 nd.2;
           Ok (if b : bool then {[nd.1]} ∪ valid else valid)) acc l = Ok s ↔
  Forall (λ nd, ∃ b, test nd.1 nd.2 = Ok b) l
  ∧ s = list_to_set (map fst (filter (λ nd, Spec.passes test nd = true) l)) ∪ acc.
Proof.
  revert acc; induction l as [|nd l IH]; intros acc; simpl.
  - split.
    + intros [= <-]. split; [constructor | set_solver].
    + intros [_ ->]. f_equal. set_solver.
  - rewrite filter_cons.
    assert (Hp : Spec.passes test nd
                 = match test nd.1 nd.2 with Ok true => true | _ => false end)
      by reflexivity.
    destruct (test nd.1 nd.2) as [b|e] eqn:Et; simpl.
    + rewrite IH, Forall_cons.
      destruct (decide (Spec.passes test nd = true)) as [Hd|Hd];
        rewrite Hp in Hd; destruct b; try done; simpl.
      * split; [intros [Hall ->] | intros [[_ Hall] ->]];
          (split; [by eauto | set_solver]).
      * split; [intros [Hall ->] | intros [[_ Hall] ->]];
          (split; [by eauto | set_solver]).
    + split; [done|]. intros [Hall _]. apply Forall_cons in Hall as [[b Hb] _].
      congruence.
Qed.

(** The nodes a selection returns are those of the graph on which the test
    returns [True]; it returns when the test returns on every node. *)
Lemma select_nodes_spec (g : graph) (test : string → dict → res bool)
    (s : gset string) :
  select_nodes g test = Ok s ↔
  Forall (λ nd, ∃ b, test nd.1 nd.2 = Ok b) (nodes g)
  ∧ s = list_to_set
          (map fst (filter (λ nd, Spec.passes test nd = true) (nodes g))).
Proof.
  unfold select_nodes. rewrite select_nodes_from.
  split; intros [Hall ->]; (split; [done | set_solver]).
Qed.

Lemma select_nodes_subset (g : graph) (test : string → dict → res bool)
    (s : gset string) :
  select_nodes g test = Ok s → s ⊆ node_set g.
Proof.
  intros [_ ->]%select_nodes_spec. unfold node_set.
  intros n. rewrite !elem_of_list_to_set, !list_elem_of_fmap.
  intros (nd & -> & [_ Hnd]%list_elem_of_filter). by exists nd.
Qed.

Lemma select_nodes_subgraph (g : graph) (keep : gset string)
    (test : string → dict → res bool) (s : gset string) :
  select_nodes g test = Ok s →
  select_nodes (subgraph g keep) test = Ok (s ∩ keep).
Proof.
  rewrite !select_nodes_spec. intros [Hall ->]. unfold subgraph; cbn [nodes].
  split.
  - apply Forall_forall. intros nd [_ Hnd]%list_elem_of_filter.
    by apply (proj1 (Forall_forall _ _) Hall).
  - apply set_eq. intros n.
    rewrite elem_of_intersection, !elem_of_list_to_set, !list_elem_of_fmap.
    split.
    + intros [(nd & -> & [Hp Hnd]%list_elem_of_filter) Hkeep].
      exists nd. split; [done|].
      apply list_elem_of_filter. split; [done|].
      by apply list_elem_of_filter.
    + intros (nd & -> & [Hp [Hkeep Hnd]%list_elem_of_filter]%list_elem_of_filter).
      split; [|done]. exists nd. split; [done|].
      by apply list_elem_of_filter.
Qed.

Lemma node_local_country : Spec.node_local _filter_by_country.
Proof.
  intros g keep value s H. unfold _filter_by_country in *.
  bind_inv H. rewrite Ha, bind_Ok. by apply select_nodes_subgraph.
Qed.

Lemma node_local_type : Spec.node_local _filter_by_type.
Proof. intros g keep value s H. by apply select_nodes_subgraph. Qed.

Lemma node_local_year : Spec.node_local _filter_by_year.
Proof.
  intros g keep value s. unfold _filter_by_year.
  destruct (py_int value) as [y|[]]; try discriminate;
    try (intros [= <-]; f_equal; set_solver).
  apply select_nodes_subgraph.
Qed.

Lemma node_local_year_range : Spec.node_local _filter_by_year_range.
Proof.
  intros g keep value s. unfold _filter_by_year_range.
  destruct (parse_year_range value) as [[lo hi]|[]]; try discriminate;
    try (intros [= <-]; f_equal; set_solver).
  apply select_nodes_subgraph.
Qed.

Lemma node_local_manufacturer : Spec.node_local _filter_by_manufacturer.
Proof.
  intros g keep value s H. unfold _filter_by_manufacturer in *.
  bind_inv H. rewrite Ha, bind_Ok. by apply select_nodes_subgraph.
Qed.

Lemma node_local_owner : Spec.node_local _filter_by_owner.
Proof.
  intros g keep value s H. unfold _filter_by_owner in *.
  bind_inv H. rewrite Ha, bind_Ok. by apply select_nodes_subgraph.
Qed.

Lemma node_local_typed_attr (tag key : string) :
  Spec.node_local (typed_attr_filter tag key).
Proof.
  intros g keep value s H. unfold typed_attr_filter in *.
  bind_inv H. rewrite Ha, bind_Ok. by apply select_nodes_subgraph.
Qed.

Lemma node_local_keyword : Spec.node_local _filter_by_keyword.
Proof.
  intros g keep value s H. unfold _filter_by_keyword in *.
  bind_inv H. rewrite Ha, bind_Ok. by apply select_nodes_subgraph.
Qed.

Lemma node_local_equipment_category :
  Spec.node_local _filter_by_equipment_category.
Proof.
  intros g keep value s H. unfold _filter_by_equipment_category in *.
  bind_inv H. rewrite Ha, bind_Ok. bind_inv H. rewrite Ha0, bind_Ok.
  destruct a0 as [|kw kws]; [injection H as <-; f_equal; set_solver|].
  by apply select_nodes_subgraph.
Qed.

Lemma node_local_filters_local (name : string)
    (f : graph → pyval → res (gset string)) :
  name ∈ Spec.node_local_filters →
  assoc_get name available_filters = Some f →
  Spec.node_local f.
Proof.
  unfold Spec.node_local_filters. rewrite !elem_of_cons, elem_of_nil.
  intros H Hf.
  repeat match goal with
         | H : _ ∨ _ |- _ => destruct H as [->|H]
         end; [..|done].
  - change (Some _filter_by_country = Some f) in Hf. injection Hf as <-.
    apply node_local_country.
  - change (Some _filter_by_type = Some f) in Hf. injection Hf as <-.
    apply node_local_type.
  - change (Some _filter_by_year = Some f) in Hf. injection Hf as <-.
    apply node_local_year.
  - change (Some _filter_by_year_range = Some f) in Hf. injection Hf as <-.
    apply node_local_year_range.
  - change (Some _filter_by_manufacturer = Some f) in Hf. injection Hf as <-.
    apply node_local_manufacturer.
  - change (Some _filter_by_owner = Some f) in Hf. injection Hf as <-.
    apply node_local_owner.
  - change (Some _filter_by_vehicle_type = Some f) in Hf. injection Hf as <-.
    apply (node_local_typed_attr "vehicle" "vehicle_type").
  - change (Some _filter_by_organization_type = Some f) in Hf.
    injection Hf as <-.
    apply (node_local_typed_attr "militaryOrganization" "organization_type").
  - change (Some _filter_by_area_type = Some f) in Hf. injection Hf as <-.
    apply (node_local_typed_attr "area" "area_type").
  - change (Some _filter_by_keyword = Some f) in Hf. injection Hf as <-.
    apply node_local_keyword.
  - change (Some _filter_by_equipment_category = Some f) in Hf.
    injection Hf as <-. apply node_local_equipment_category.
Qed.

Lemma foldM_app {A B} (f : B → A → res B) (l1 l2 : list A) (acc : B) :
  foldM f acc (l1 ++ l2)%list = (mid ← foldM f acc l1; foldM f mid l2).
Proof.
  revert acc; induction l1 as [|x l1 IH]; intros acc; simpl; [done|].
  destruct (f acc x) as [acc'|e]; simpl; [apply IH | done].
Qed.

Lemma apply_filters_unfold (g : graph) (filters : dict) :
  apply_filters g filters
  = (valid_nodes ← filter_node_set g filters; Ok (subgraph g valid_nodes)).
Proof. by destruct filters. Qed.

Lemma filter_node_set_subset (g : graph) (filters : dict)
    (start s : gset string) :
  foldM (apply_one g) start filters = Ok s → s ⊆ start.
Proof.
  apply (foldM_invariant (λ s, s ⊆ start)); [|done].
  intros acc [name value] acc' _ Hacc. rewrite apply_one_unfold.
  destruct (assoc_get name available_filters) as [f|].
  - intros H. bind_inv H. injection H as <-. set_solver.
  - by intros [= <-].
Qed.

Lemma subgraph_subgraph (g : graph) (k1 k2 : gset string) :
  k2 ⊆ k1 → subgraph (subgraph g k1) k2 = subgraph g k2.
Proof.
  intros Hsub. unfold subgraph; cbn [graph_attr nodes edges]. f_equal.
  - induction (nodes g) as [|na l IH]; [done|].
    rewrite !filter_cons.
    destruct (decide (na.1 ∈ k1)) as [H1|H1];
      [rewrite filter_cons|]; destruct (decide (na.1 ∈ k2)) as [H2|H2];
      try (by rewrite IH); set_solver.
  - induction (edges g) as [|e l IH]; [done|].
    rewrite !filter_cons.
    destruct (decide (e.1.1 ∈ k1 ∧ e.1.2 ∈ k1)) as [H1|H1];
      [rewrite filter_cons|];
      destruct (decide (e.1.1 ∈ k2 ∧ e.1.2 ∈ k2)) as [H2|H2];
      try (by rewrite IH); set_solver.
Qed.

(** On a subgraph, node-local filters select what they select on the graph,
    cut down to the subgraph. *)
Lemma local_filters_on_subgraph (g : graph) (keep : gset string)
    (filters : dict) (start s : gset string) :
  Forall (λ flt : string * pyval,
            flt.1 ∈ Spec.node_local_filters
            ∨ assoc_get flt.1 available_filters = None) filters →
  foldM (apply_one g) start filters = Ok s →
  foldM (apply_one (subgraph g keep)) (start ∩ keep) filters = Ok (s ∩ keep).
Proof.
  intros Hall. revert start.
  induction Hall as [|[name value] rest Hflt Hall IH]; intros start; simpl.
  - by intros [= <-].
  - intros H. bind_inv H. rename a into mid.
    rewrite apply_one_unfold in *. cbn [fst] in Hflt.
    destruct (assoc_get name available_filters) as [f|] eqn:Hf.
    + destruct Hflt as [Hloc|?]; [|done].
      bind_inv Ha. injection Ha as <-.
      rewrite (node_local_filters_local name f Hloc Hf g keep value a Ha0).
      rewrite bind_Ok.
      replace (start ∩ keep ∩ (a ∩ keep)) with (start ∩ a ∩ keep)
        by set_solver.
      by apply IH.
    + injection Ha as <-. by apply IH.
Qed.

(** X6.  Filtering in stages: when the filters of the second stage look at
    one node at a time (every recognised filter except [relationship],
    [has_connection], [degree_min] and [degree_max], which read the edges),
    a filter map that [apply_filters] accepts can be split at any point, and
    filtering the graph by the first part and the result by the second part
    yields the same graph as filtering by the whole map at once. *)
Theorem apply_filters_in_stages
    (g : graph) (first second : dict) (sub : graph) :
  Forall (λ flt : string * pyval,
            flt.1 ∈ Spec.node_local_filters
            ∨ assoc_get flt.1 available_filters = None) second →
  apply_filters g (first ++ second)%list = Ok sub →
  ∃ g1, apply_filters g first = Ok g1 ∧ apply_filters g1 second = Ok sub.
Proof.
  intros Hlocal. rewrite !apply_filters_unfold. unfold filter_node_set.
  rewrite foldM_app. intros H. bind_inv H. injection H as <-.
  rename a into k. bind_inv Ha. rename a into k1.
  pose proof (filter_node_set_subset _ _ _ _ Ha0) as Hk1.
  pose proof (filter_node_set_subset _ _ _ _ Ha) as Hk.
  exists (subgraph g k1). rewrite Ha0. split; [reflexivity|].
  rewrite apply_filters_unfold. unfold filter_node_set.
  rewrite node_set_subgraph.
  pose proof (local_filters_on_subgraph g k1 second k1 k Hlocal Ha) as Hstage.
  replace (node_set g ∩ k1) with (k1 ∩ k1) by set_solver.
  rewrite Hstage, bind_Ok. f_equal.
  replace (k ∩ k1) with k by set_solver.
  by apply subgraph_subgraph.
Qed.

(** A degree filter first, then a type filter, on the two-node graph. *)
Lemma apply_filters_in_stages_witness :
  ∃ sub, apply_filters two_node_graph
           [("degree_min", VInt 1); ("type", VStr "vehicle")] = Ok sub
         ∧ node_set sub = {["a"]}
         ∧ ∃ g1, apply_filters two_node_graph [("degree_min", VInt 1)] = Ok g1
                 ∧ apply_filters g1 [("type", VStr "vehicle")] = Ok sub.
Proof.
  eexists. split; [vm_compute; reflexivity|].
  split; [vm_compute; reflexivity|].
  apply (apply_filters_in_stages two_node_graph
           [("degree_min", VInt 1)] [("type", VStr "vehicle")]).
  - apply Forall_singleton. left. apply (bool_decide_unpack _). reflexivity.
  - vm_compute. reflexivity.
Defined.

(** ** [search_entities]: all terms or any term *)

Lemma collect_results {A B} (f : A → res B) (l : list A) (acc out : list B) :
  foldM (λ sets x, r ← f x; Ok (sets ++ [r])%list) acc l = Ok out →
  ∃ sets, out = (acc ++ sets)%list ∧ Forall2 (λ x r, f x = Ok r) l sets.
Proof.
  revert acc; induction l as [|x l IH]; intros acc; simpl.
  - intros [= <-]. exists []. by rewrite app_nil_r.
  - intros H. bind_inv H. bind_inv Ha. injection Ha as <-.
    destruct (IH _ H) as (sets & -> & Hall).
    exists (a0 :: sets). rewrite <- app_assoc. split; [done|].
    by constructor.
Qed.

Lemma elem_of_fold_inter (sets : list (gset string)) (first : gset string)
    (n : string) :
  n ∈ fold_left (λ acc s, acc ∩ s) sets first ↔
  n ∈ first ∧ Forall (λ s, n ∈ s) sets.
Proof.
  revert first; induction sets as [|s sets IH]; intros first; simpl.
  - split; [by intros ?; split | by intros [? _]].
  - rewrite IH, Forall_cons. set_solver.
Qed.

Lemma elem_of_fold_union (sets : list (gset string)) (first : gset string)
    (n : string) :
  n ∈ fold_left (λ acc s, acc ∪ s) sets first ↔
  n ∈ first ∨ Exists (λ s, n ∈ s) sets.
Proof.
  revert first; induction sets as [|s sets IH]; intros first; simpl.
  - rewrite Exists_nil. tauto.
  - rewrite IH, Exists_cons. set_solver.
Qed.

Lemma _filter_by_keyword_subset (g : graph) (keyword : pyval) (s : gset string) :
  _filter_by_keyword g keyword = Ok s → s ⊆ node_set g.
Proof.
  unfold _filter_by_keyword. intros H. bind_inv H.
  by apply select_nodes_subset in H.
Qed.

(** X7.  [search_entities] with at least one term runs the keyword filter
    once per term; with [search_type] equal to ['all'] it returns the nodes
    every term matches, with any other [search_type] the nodes some term
    matches.  The result is a set of nodes of the graph. *)
Theorem search_entities_all_or_any
    (g : graph) (search_terms : list pyval) (search_type : pyval)
    (found : gset string) :
  search_terms ≠ [] →
  search_entities g search_terms search_type = Ok found →
  ∃ sets,
    Forall2 (λ term set, _filter_by_keyword g term = Ok set) search_terms sets
    ∧ found ⊆ node_set g
    ∧ ∀ n, n ∈ found ↔
           if py_eq search_type (VStr "all")
           then Forall (λ set : gset string, n ∈ set) sets
           else Exists (λ set : gset string, n ∈ set) sets.
Proof.
  intros Hne. unfold search_entities.
  destruct search_terms as [|term terms]; [done|].
  intros H. bind_inv H. rename a into result_sets.
  apply collect_results in Ha as (sets & -> & Hall).
  cbn [app] in H. exists sets. split; [exact Hall|].
  assert (Hsub : Forall (λ set : gset string, set ⊆ node_set g) sets).
  { clear -Hall. induction Hall as [|t s ts ss Hts _ IH]; constructor; [|done].
    by apply (_filter_by_keyword_subset g t). }
  destruct (py_eq search_type (VStr "all")).
  - destruct sets as [|first rest]; [discriminate|]. injection H as <-.
    apply Forall_cons in Hsub as [Hfirst _]. split.
    + intros n [Hn _]%elem_of_fold_inter. by apply Hfirst.
    + intros n. by rewrite elem_of_fold_inter, Forall_cons.
  - injection H as <-. split.
    + intros n [Hn|Hn]%elem_of_fold_union; [set_solver|].
      apply Exists_exists in Hn as (s & Hs & Hn).
      by apply (proj1 (Forall_forall _ _) Hsub s Hs).
    + intros n. rewrite elem_of_fold_union. set_solver.
Qed.

(** Two terms on the path graph: only [t1] matches both. *)
Lemma search_entities_all_or_any_witness :
  ∃ found, search_entities path_graph [VStr "tank"; VStr "ALPHA"] (VStr "all")
           = Ok found
           ∧ found = {["t1"]} ∧ found ⊆ node_set path_graph.
Proof.
  eexists. split; [vm_compute; reflexivity|]. split; [reflexivity|].
  edestruct (search_entities_all_or_any path_graph
               [VStr "tank"; VStr "ALPHA"] (VStr "all"))
    as (sets & _ & Hsub & _); [done | vm_compute; reflexivity |].
  exact Hsub.
Defined.

(** ** Advanced filters whose conditions hold one filter each *)

Lemma py_eq_VStr (v : pyval) (s : string) :
  py_eq v (VStr s) = true → v = VStr s.
Proof.
  destruct v; simpl; try discriminate.
  by intros ->%String.eqb_eq.
Qed.

Lemma condition_one_unfold (g : graph) (filtered : gset string) name value :
  condition_one g filtered (name, value) =
  match assoc_get name available_filters with
  | Some filter_func =>
      nodes ← filter_func g value;
      Ok (if decide (filtered = ∅) then nodes else filtered ∩ nodes)
  | None => Ok filtered
  end.
Proof. reflexivity. Qed.

Lemma condition_nodes_single (g : graph) (acc : list (gset string))
    (name : string) (value : pyval) (negate : bool)
    (f : graph → pyval → res (gset string)) (s : gset string) :
  assoc_get name available_filters = Some f →
  f g value = Ok s →
  condition_nodes g acc (Spec.single_condition (name, value, negate))
  = Ok (acc ++ [Spec.condition_set g negate s])%list.
Proof.
  intros Hf Hs. unfold condition_nodes, Spec.single_condition.
  cbn [fst snd py_in assoc_mem assoc_get String.eqb Ascii.eqb Bool.eqb].
  rewrite bind_Ok.
  cbn [py_getitem assoc_get String.eqb Ascii.eqb Bool.eqb].
  rewrite bind_Ok. cbn [py_items]. rewrite bind_Ok. cbn [foldM].
  rewrite condition_one_unfold, Hf, Hs, !bind_Ok.
  destruct (decide (∅ =@{gset string} ∅)) as [_|Hne]; [|done].
  reflexivity.
Qed.

Lemma single_conditions_sets (g : graph)
    (conds : list (string * pyval * bool)) (sets : list (gset string))
    (acc : list (gset string)) :
  Forall2 (λ c s, ∃ f, assoc_get c.1.1 available_filters = Some f
                       ∧ f g c.1.2 = Ok s) conds sets →
  foldM (condition_nodes g) acc (map Spec.single_condition conds)
  = Ok (acc ++ map (λ cs, Spec.condition_set g cs.1.2 cs.2) (zip conds sets))%list.
Proof.
  intros Hall. revert acc.
  induction Hall as [|[[name value] negate] s conds sets (f & Hf & Hs) _ IH];
    intros acc; cbn [map foldM zip zip_with].
  - by rewrite app_nil_r.
  - cbn [fst snd] in Hf, Hs.
    rewrite (condition_nodes_single g acc name value negate f s Hf Hs).
    rewrite bind_Ok, IH, <- app_assoc. reflexivity.
Qed.

(** X8.  An advanced filter whose conditions each hold one recognised filter
    has the documented meaning: a condition stands for the nodes its filter
    matches, or for all other nodes of the graph when it is negated; with
    logic ['OR'] the result keeps the nodes of some condition, with ['AND'],
    with no logic given and with any other logic the nodes of every
    condition.  The result is the subgraph of the graph on these nodes. *)
Theorem logical_filter_single_conditions
    (g : graph) (filter_config : dict)
    (conds : list (string * pyval * bool)) (sets : list (gset string)) :
  conds ≠ [] →
  assoc_get "conditions" filter_config
  = Some (VList (map Spec.single_condition conds)) →
  Forall2 (λ c s, ∃ f, assoc_get c.1.1 available_filters = Some f
                       ∧ f g c.1.2 = Ok s) conds sets →
  ∃ keep : gset string,
    _apply_logical_filter g filter_config = Ok (subgraph g keep)
    ∧ (assoc_mem "logic" filter_config = true →
       create_advanced_filter g filter_config = Ok (subgraph g keep))
    ∧ ∀ n, n ∈ keep ↔
           if py_eq (dict_get_default filter_config "logic" (VStr "AND"))
                    (VStr "OR")
           then Exists (λ cs, n ∈ Spec.condition_set g cs.1.2 cs.2)
                       (zip conds sets)
           else Forall (λ cs, n ∈ Spec.condition_set g cs.1.2 cs.2)
                       (zip conds sets).
Proof.
  intros Hne Hconds Hall.
  set (logic := dict_get_default filter_config "logic" (VStr "AND")).
  set (csets := map (λ cs : string * pyval * bool * gset string,
                       Spec.condition_set g cs.1.2 cs.2) (zip conds sets)).
  set (final := if py_eq logic (VStr "OR") then union_all csets
                else intersect_all csets).
  assert (Hrun : _apply_logical_filter g filter_config = Ok (subgraph g final)).
  { unfold _apply_logical_filter, dict_get_default. rewrite Hconds.
    pose proof (single_conditions_sets g conds sets [] Hall) as Hsets.
    destruct conds as [|c conds]; [done|].
    cbn [map truthy negb py_iter]. rewrite bind_Ok.
    cbn [map] in Hsets. rewrite Hsets, bind_Ok.
    cbn [app]. fold csets. do 2 f_equal. unfold final.
    fold (dict_get_default filter_config "logic" (VStr "AND")). fold logic.
    destruct (py_eq logic (VStr "OR")) eqn:Hor.
    - apply py_eq_VStr in Hor. by rewrite Hor.
    - by destruct (py_eq logic (VStr "AND")). }
  exists final. split; [exact Hrun|]. split.
  - intros Hlogic. unfold create_advanced_filter. by rewrite Hlogic.
  - intros n. unfold final.
    destruct (py_eq logic (VStr "OR")).
    + unfold union_all. rewrite elem_of_fold_union, elem_of_empty.
      unfold csets. rewrite Exists_fmap. tauto.
    + unfold intersect_all, csets.
      destruct Hall as [|c s conds' sets' _ _]; [done|]. simpl.
      rewrite elem_of_fold_inter, Forall_cons, Forall_fmap. tauto.
Qed.

(** Vehicles, or anything that is not a country, on the two-node graph. *)
Lemma logical_filter_single_conditions_witness :
  ∃ keep : gset string,
    _apply_logical_filter two_node_graph
      [("logic", VStr "OR");
       ("conditions",
        VList [VDict [("filter", VDict [("type", VStr "vehicle")]);
                      ("not", VBool false)];
               VDict [("filter", VDict [("type", VStr "country")]);
                      ("not", VBool true)]])]
    = Ok (subgraph two_node_graph keep)
    ∧ "a" ∈ keep.
Proof.
  edestruct (logical_filter_single_conditions two_node_graph
               [("logic", VStr "OR");
                ("conditions",
                 VList [VDict [("filter", VDict [("type", VStr "vehicle")]);
                               ("not", VBool false)];
                        VDict [("filter", VDict [("type", VStr "country")]);
                               ("not", VBool true)]])]
               [("type", VStr "vehicle", false); ("type", VStr "country", true)]
               [{["a"]}; {["b"]}])
    as (keep & Hrun & _ & Hkeep).
  - done.
  - reflexivity.
  - repeat constructor.
    + eexists. split; [reflexivity | vm_compute; reflexivity].
    + eexists. split; [reflexivity | vm_compute; reflexivity].
  - exists keep. split; [exact Hrun|].
    apply Hkeep. left. simpl. set_solver.
Defined.

(** ** The counters of a country analysis *)

Lemma counter_total_incr (k : pyval) (c : counter) :
  Spec.counter_total (counter_incr k c) = S (Spec.counter_total c).
Proof.
  induction c as [|[k' n] c IH]; simpl; [done|].
  destruct (py_eq k' k); simpl; [done|]. rewrite IH. lia.
Qed.

Lemma counter_total_add (k : pyval) (c c' : counter) :
  counter_add k c = Ok c' → Spec.counter_total c' = S (Spec.counter_total c).
Proof.
  unfold counter_add.
  destruct k; try discriminate; intros [= <-]; apply counter_total_incr.
Qed.

Lemma count_asset_consistent (data : dict) (st st' : country_stats) :
  Spec.country_stats_consistent st →
  count_asset data st = Ok st' →
  Spec.country_stats_consistent st' ∧ total_assets st' = S (total_assets st).
Proof.
  intros (Hsum & Hvt & Hmf & Hot & Htl). unfold count_asset.
  intros H. bind_inv H. rename a into mid.
  assert (Hmid : (vehicles mid + organizations mid + areas mid + people mid
                  ≤ S (total_assets st))%nat
                 ∧ Spec.counter_total (vehicle_types mid) = vehicles mid
                 ∧ Spec.counter_total (manufacturers mid) = vehicles mid
                 ∧ Spec.counter_total (organization_types mid)
                   = organizations mid
                 ∧ timeline mid = timeline st
                 ∧ total_assets mid = S (total_assets st)).
  { repeat match type of Ha with
           | context [if ?b then _ else _] => destruct b
           end.
    - bind_inv Ha. bind_inv Ha. injection Ha as <-. simpl in *.
      apply counter_total_add in Ha0, Ha1. repeat split; lia.
    - bind_inv Ha. injection Ha as <-. simpl in *.
      apply counter_total_add in Ha0. repeat split; lia.
    - injection Ha as <-. simpl. repeat split; lia.
    - injection Ha as <-. simpl. repeat split; lia.
    - injection Ha as <-. simpl. repeat split; lia. }
  destruct Hmid as (Hsum' & Hvt' & Hmf' & Hot' & Htl' & Htot').
  destruct (truthy _).
  - bind_inv H. injection H as <-. apply counter_total_add in Ha0.
    unfold Spec.country_stats_consistent. simpl. rewrite Htl' in Ha0.
    repeat split; lia.
  - injection H as <-. unfold Spec.country_stats_consistent.
    rewrite Htl'. repeat split; lia.
Qed.

Lemma _analyze_single_country_from (country : pyval)
    (l : list (string * dict)) (st st' : country_stats) :
  Spec.country_stats_consistent st →
  foldM (λ st nd,
           belongs ← belongs_to_country nd.2 country;
           if belongs : bool then count_asset nd.2 st else Ok st) st l = Ok st' →
  Spec.country_stats_consistent st'
  ∧ (total_assets st ≤ total_assets st' ≤ total_assets st + length l)%nat.
Proof.
  revert st; induction l as [|nd l IH]; intros st Hst; simpl.
  - intros [= <-]. split; [done | lia].
  - intros H. bind_inv H. bind_inv Ha. destruct a0.
    + destruct (count_asset_consistent _ _ _ Hst Ha) as [Hmid Htot].
      destruct (IH _ Hmid H) as [Hend Hle]. split; [done | lia].
    + injection Ha as <-. destruct (IH _ Hst H) as [Hend Hle].
      split; [done | lia].
Qed.

(** X9.  Whenever [_analyze_single_country] returns, its counters agree
    with each other: the vehicles, organisations, areas and people counted
    are at most the total assets, which are at most the nodes of the graph;
    the vehicle-type and manufacturer histograms each add up to the number of
    vehicles, the organisation-type histogram to the number of
    organisations, and the timeline to at most the total assets. *)
Theorem country_analysis_counters_agree
    (g : graph) (country : pyval) (st : country_stats) :
  _analyze_single_country g country = Ok st →
  (vehicles st + organizations st + areas st + people st ≤ total_assets st)%nat
  ∧ (total_assets st ≤ number_of_nodes g)%nat
  ∧ Spec.counter_total (vehicle_types st) = vehicles st
  ∧ Spec.counter_total (manufacturers st) = vehicles st
  ∧ Spec.counter_total (organization_types st) = organizations st
  ∧ (Spec.counter_total (timeline st) ≤ total_assets st)%nat.
Proof.
  unfold _analyze_single_country. intros H.
  apply _analyze_single_country_from in H
    as [(Hsum & Hvt & Hmf & Hot & Htl) Hle].
  - simpl in Hle. unfold number_of_nodes. repeat split; try done; lia.
  - unfold Spec.country_stats_consistent. simpl. repeat split; lia.
Qed.

(** The country [uk] on the path graph: two vehicles and a person. *)
Lemma country_analysis_counters_agree_witness :
  ∃ st, _analyze_single_country path_graph (VStr "UK") = Ok st
        ∧ total_assets st = 3%nat ∧ vehicles st = 2%nat ∧ people st = 1%nat
        ∧ Spec.counter_total (manufacturers st) = vehicles st.
Proof.
  eexists. split; [vm_compute; reflexivity|].
  split; [reflexivity|]. split; [reflexivity|]. split; [reflexivity|].
  edestruct (country_analysis_counters_agree path_graph (VStr "UK"))
    as (_ & _ & _ & Hmf & _); [vm_compute; reflexivity|].
  exact Hmf.
Defined.

(** ** Country analysis of built graphs *)

Lemma collection_names_not_asset_types (t : string) :
  t ∈ entity_types →
  String.eqb t "vehicle" = false
  ∧ String.eqb t "militaryOrganization" = false
  ∧ String.eqb t "area" = false
  ∧ String.eqb t "person" = false.
Proof.
  unfold entity_types. rewrite !elem_of_cons, elem_of_nil.
  intros H.
  repeat match goal with
         | H : _ ∨ _ |- _ => destruct H as [->|H]
         end; [..|done]; repeat split; reflexivity.
Qed.

Lemma count_asset_of_collection (data : dict) (t : string)
    (st st' : country_stats) :
  assoc_get "type" data = Some (VStr t) →
  t ∈ entity_types →
  count_asset data st = Ok st' →
  vehicles st' = vehicles st ∧ organizations st' = organizations st
  ∧ areas st' = areas st ∧ people st' = people st
  ∧ vehicle_types st' = vehicle_types st
  ∧ organization_types st' = organization_types st
  ∧ manufacturers st' = manufacturers st.
Proof.
  intros Hty Ht. unfold count_asset, dict_get_default. rewrite Hty.
  destruct (collection_names_not_asset_types t Ht) as (Hv & Ho & Ha & Hp).
  cbn [py_eq]. rewrite Hv, Ho, Ha, Hp, bind_Ok.
  destruct (truthy _).
  - intros H. bind_inv H. by injection H as <-.
  - by intros [= <-].
Qed.

(** X10.  On a graph produced by [build_graph] the country analysis
    classifies no asset: whatever the country, the numbers of vehicles,
    organisations, areas and people are 0 and the vehicle-type,
    organisation-type and manufacturer histograms are empty, because the
    analysis looks for the singular types ['vehicle'],
    ['militaryOrganization'], ['area'], ['person'] and built nodes carry the
    plural collection names. *)
Theorem built_graph_country_analysis_unclassified
    (database : dict) (include_metadata : bool) (g : graph)
    (country : pyval) (st : country_stats) :
  build_graph database include_metadata = Ok g →
  _analyze_single_country g country = Ok st →
  vehicles st = 0%nat ∧ organizations st = 0%nat
  ∧ areas st = 0%nat ∧ people st = 0%nat
  ∧ vehicle_types st = [] ∧ organization_types st = []
  ∧ manufacturers st = [].
Proof.
  intros Hbuild. pose proof (build_graph_built_nodes _ _ _ Hbuild) as Hnodes.
  unfold _analyze_single_country.
  apply (foldM_invariant
           (λ st, vehicles st = 0%nat ∧ organizations st = 0%nat
                  ∧ areas st = 0%nat ∧ people st = 0%nat
                  ∧ vehicle_types st = [] ∧ organization_types st = []
                  ∧ manufacturers st = [])); [|by repeat split].
  intros acc nd acc' Hin Hacc Hstep. bind_inv Hstep.
  destruct a; [|by injection Hstep as <-].
  pose proof (proj1 (Forall_forall _ _) Hnodes nd Hin)
    as (t & _ & _ & _ & Ht & _ & _ & _ & _ & Hty & _).
  destruct (count_asset_of_collection _ _ _ _ Hty Ht Hstep)
    as (-> & -> & -> & -> & -> & -> & ->).
  exact Hacc.
Qed.

(** The scenario: the vehicle [v1] is counted for [c1], but not as a
    vehicle. *)
Lemma built_graph_country_analysis_unclassified_witness :
  ∃ g st, build_graph scenario_db true = Ok g
          ∧ _analyze_single_country g (VStr "c1") = Ok st
          ∧ total_assets st = 1%nat ∧ vehicles st = 0%nat.
Proof.
  eexists. eexists. split; [vm_compute; reflexivity|].
  split; [vm_compute; reflexivity|]. split; [reflexivity|].
  edestruct (built_graph_country_analysis_unclassified scenario_db true)
    with (country := VStr "c1") as (Hv & _);
    [vm_compute; reflexivity | vm_compute; reflexivity |].
  exact Hv.
Defined.

(** ** Rankings: [sorted(..., reverse=True)] *)

Section sorted_desc_facts.
Context {A : Type} (gt : A → A → bool).

Lemma insert_desc_perm (x : A) (l : list A) :
  insert_desc gt x l ≡ₚ x :: l.
Proof.
  induction l as [|y r IH]; simpl; [done|].
  destruct (gt y x); [|done]. rewrite IH. apply Permutation_swap.
Qed.

Lemma sorted_desc_perm (l : list A) : sorted_desc gt l ≡ₚ l.
Proof.
  induction l as [|x r IH]; simpl; [done|].
  by rewrite insert_desc_perm, IH.
Qed.

(** Items that are not greater than one another keep their order. *)
Lemma sorted_desc_stable (P : A → Prop) `{∀ x, Decision (P x)} (l : list A) :
  (∀ x y, P x → P y → gt y x = false) →
  filter P (sorted_desc gt l) = filter P l.
Proof.
  intros Hclass.
  assert (Hins : ∀ x l, filter P (insert_desc gt x l) = filter P (x :: l)).
  { intros x r. induction r as [|y r IH]; simpl; [done|].
    destruct (gt y x) eqn:Hgt; [|done].
    rewrite (filter_cons P y), IH, !(filter_cons P x), !(filter_cons P y).
    destruct (decide (P x)) as [Hx|Hx], (decide (P y)) as [Hy|Hy]; try done.
    by rewrite (Hclass x y Hx Hy) in Hgt. }
  induction l as [|x r IH]; simpl; [done|].
  by rewrite Hins, !filter_cons, IH.
Qed.

Hypothesis gt_asym : ∀ x y, gt y x = true → gt x y = false.
Hypothesis gt_trans :
  ∀ x y z, gt z y = false → gt y x = false → gt z x = false.

Lemma insert_desc_sorted (x : A) (l : list A) :
  StronglySorted (λ a b, gt b a = false) l →
  StronglySorted (λ a b, gt b a = false) (insert_desc gt x l).
Proof.
  induction 1 as [|y r Hr IH Hy]; simpl.
  - repeat constructor.
  - destruct (gt y x) eqn:Hgt.
    + constructor; [exact IH|].
      rewrite insert_desc_perm. constructor; [by apply gt_asym | done].
    + constructor; [by constructor|].
      constructor; [done|].
      eapply Forall_impl; [exact Hy|]. intros z Hz. simpl in *.
      by apply (gt_trans x y z).
Qed.

Lemma sorted_desc_sorted (l : list A) :
  StronglySorted (λ a b, gt b a = false) (sorted_desc gt l).
Proof.
  induction l as [|x r IH]; simpl; [constructor|].
  by apply insert_desc_sorted.
Qed.
End sorted_desc_facts.

Lemma StronglySorted_weaken {A} (R R' : A → A → Prop) (l : list A) :
  (∀ a b, R a b → R' a b) → StronglySorted R l → StronglySorted R' l.
Proof.
  intros Himpl. induction 1 as [|x r Hr IH Hx]; constructor; [done|].
  eapply Forall_impl; [exact Hx|]. intros b. apply Himpl.
Qed.

Lemma fold_assoc_set_absent {V W} (f : W → V) (c : string)
    (l : list (string * W)) (acc : list (string * V)) :
  c ∉ keys l →
  assoc_get c (fold_left (λ m cd, assoc_set cd.1 (f cd.2) m) l acc)
  = assoc_get c acc.
Proof.
  revert acc; induction l as [|[c' w] l IH]; intros acc Hc; simpl; [done|].
  cbn [keys map fst] in Hc. apply not_elem_of_cons in Hc as [Hne Hc].
  rewrite (IH _ Hc). by apply assoc_get_set_ne.
Qed.

Lemma fold_assoc_set_present {V W} (f : W → V) (c : string) (w : W)
    (l : list (string * W)) (acc : list (string * V)) :
  NoDup (keys l) → (c, w) ∈ l →
  assoc_get c (fold_left (λ m cd, assoc_set cd.1 (f cd.2) m) l acc)
  = Some (f w).
Proof.
  revert acc; induction l as [|[c' w'] l IH]; intros acc Hnd Hin; simpl.
  - by apply elem_of_nil in Hin.
  - cbn [keys map fst] in Hnd. apply NoDup_cons in Hnd as [Hc' Hnd].
    apply elem_of_cons in Hin as [[= <- <-]|Hin].
    + rewrite fold_assoc_set_absent by done. apply assoc_get_set_eq.
    + by apply IH.
Qed.

(** X11.  The ranking of [_generate_comparison_metrics] lists every country
    once with its total assets, in non-increasing order of total assets,
    countries with equal totals in the order of the input; and the three
    per-country tables hold, for each country, its numbers of vehicles and
    organisations and the number of its distinct manufacturers. *)
Theorem comparison_metrics_ranking
    (countries_data : list (string * country_stats)) :
  NoDup (keys countries_data) →
  let metrics := _generate_comparison_metrics countries_data in
  let asset_counts :=
    map (λ cd, (cd.1, total_assets cd.2)) countries_data in
  total_assets_ranking metrics ≡ₚ asset_counts
  ∧ StronglySorted (λ a b : string * nat, (b.2 ≤ a.2)%nat)
                   (total_assets_ranking metrics)
  ∧ (∀ k : nat,
       filter (λ cn : string * nat, cn.2 = k) (total_assets_ranking metrics)
       = filter (λ cn : string * nat, cn.2 = k) asset_counts)
  ∧ (∀ country st, (country, st) ∈ countries_data →
       assoc_get country (vehicle_counts metrics) = Some (vehicles st)
       ∧ assoc_get country (organization_counts metrics)
         = Some (organizations st)
       ∧ assoc_get country (technology_diversity metrics)
         = Some (length (manufacturers st))).
Proof.
  intros Hnd metrics asset_counts. unfold metrics, _generate_comparison_metrics.
  cbn [total_assets_ranking vehicle_counts organization_counts
       technology_diversity]. fold asset_counts.
  split; [apply sorted_desc_perm|]. split; [|split].
  - eapply StronglySorted_weaken;
      [|apply (sorted_desc_sorted (λ y x : string * nat, Nat.ltb x.2 y.2))].
    + intros a b Hab. simpl in Hab. apply Nat.ltb_ge in Hab. lia.
    + intros x y Hxy. apply Nat.ltb_lt in Hxy. apply Nat.ltb_ge. lia.
    + intros x y z H1 H2. apply Nat.ltb_ge in H1, H2. apply Nat.ltb_ge. lia.
  - intros k. apply sorted_desc_stable.
    intros x y Hx Hy. simpl in *. apply Nat.ltb_ge. lia.
  - intros country st Hin. repeat split.
    + by apply (fold_assoc_set_present vehicles).
    + by apply (fold_assoc_set_present organizations).
    + by apply (fold_assoc_set_present (λ st, length (manufacturers st))).
Qed.

(** Three countries: [B] leads, [A] and [C] tie and keep their order. *)
Lemma comparison_metrics_ranking_witness :
  NoDup (keys ranking_data)
  ∧ total_assets_ranking (_generate_comparison_metrics ranking_data)
    = [("B", 3%nat); ("A", 1%nat); ("C", 1%nat)]
  ∧ StronglySorted (λ a b : string * nat, (b.2 ≤ a.2)%nat)
      (total_assets_ranking (_generate_comparison_metrics ranking_data)).
Proof.
  assert (Hnd : NoDup (keys ranking_data))
    by (apply (bool_decide_unpack _); reflexivity).
  split; [exact Hnd|]. split; [reflexivity|].
  exact (proj1 (proj2 (comparison_metrics_ranking ranking_data Hnd))).
Defined.

Lemma Qle_bool_false (x y : Q) : Qle_bool x y = false → (y <= x)%Q.
Proof.
  intros H. destruct (Qlt_le_dec y x) as [Hlt|Hle].
  - by apply Qlt_le_weak.
  - apply Qle_bool_iff in Hle. congruence.
Qed.

(** X12.  [_get_top_n] returns a prefix of the items sorted by descending
    score: the returned items are in non-increasing order of score, every
    returned score is at least every score left out, items with equal scores
    keep the order of the input, and for [n >= 0] it returns [n] items, or
    all of them when there are fewer. *)
Theorem top_n_are_highest (centrality_dict : list (string * Q)) (n : Z) :
  let top := _get_top_n centrality_dict n in
  ∃ rest,
    (top ++ rest)%list ≡ₚ centrality_dict
    ∧ StronglySorted (λ a b : string * Q, (b.2 <= a.2)%Q) top
    ∧ (∀ a b, a ∈ top → b ∈ rest → (b.2 <= a.2)%Q)
    ∧ (∀ q : Q,
         filter (λ it : string * Q, Qeq_bool it.2 q = true) (top ++ rest)%list
         = filter (λ it : string * Q, Qeq_bool it.2 q = true) centrality_dict)
    ∧ ((0 ≤ n)%Z →
       length top = Nat.min (Z.to_nat n) (length centrality_dict)).
Proof.
  intros top. unfold top, _get_top_n.
  set (gt := λ y x : string * Q, negb (Qle_bool y.2 x.2)).
  set (sorted := sorted_desc gt centrality_dict).
  assert (Hsorted : StronglySorted (λ a b : string * Q, (b.2 <= a.2)%Q) sorted).
  { eapply StronglySorted_weaken; [|apply (sorted_desc_sorted gt)].
    - intros a b Hab. unfold gt in Hab. apply negb_false_iff in Hab.
      by apply Qle_bool_iff.
    - intros x y Hxy. unfold gt in *. apply negb_true_iff in Hxy.
      apply negb_false_iff, Qle_bool_iff. by apply Qle_bool_false.
    - intros x y z H1 H2. unfold gt in *.
      apply negb_false_iff, Qle_bool_iff in H1, H2.
      apply negb_false_iff, Qle_bool_iff. by apply (Qle_trans _ y.2). }
  assert (Hslice : ∃ k, slice_to n sorted = take k sorted
                        ∧ ((0 ≤ n)%Z → k = Z.to_nat n)).
  { unfold slice_to. destruct (0 <=? n)%Z eqn:E; eexists; split; try done.
    intros Hn. apply Z.leb_gt in E. lia. }
  destruct Hslice as (k & -> & Hk).
  exists (drop k sorted). rewrite take_drop.
  split; [apply sorted_desc_perm|].
  rewrite <- (take_drop k sorted) in Hsorted.
  apply StronglySorted_app in Hsorted as (Hcross & Htop & _).
  split; [exact Htop|]. split; [|split].
  - intros a b Ha Hb. by apply Hcross.
  - intros q. apply sorted_desc_stable.
    intros x y Hx Hy. unfold gt. simpl in *.
    apply Qeq_bool_iff in Hx, Hy.
    apply negb_false_iff, Qle_bool_iff. rewrite Hx, Hy. apply Qle_refl.
  - intros Hn. rewrite length_take, (Hk Hn).
    unfold sorted. by rewrite (Permutation_length (sorted_desc_perm gt _)).
Qed.

(** The two highest of four scores. *)
Lemma top_n_are_highest_witness :
  _get_top_n scores 2 = [("b", 3 # 4); ("a", 1 # 2)]
  ∧ ∃ rest, (_get_top_n scores 2 ++ rest)%list ≡ₚ scores
            ∧ length (_get_top_n scores 2) = 2%nat.
Proof.
  split; [reflexivity|].
  destruct (top_n_are_highest scores 2) as (rest & Hperm & _ & _ & _ & Hlen).
  exists rest. split; [exact Hperm|]. by rewrite Hlen.
Defined.

(** ** Type histograms *)

Lemma py_eq_refl_hashable (k : pyval) (c c' : counter) :
  counter_add k c = Ok c' → py_eq k k = true.
Proof.
  unfold counter_add. destruct k; try discriminate; intros _; simpl.
  - done.
  - by destruct b.
  - apply Z.eqb_refl.
  - apply String.eqb_refl.
Qed.

Lemma counter_incr_counted (k : pyval) (c : counter) :
  py_eq k k = true →
  ∃ k' n, (k', n) ∈ counter_incr k c ∧ py_eq k' k = true ∧ (0 < n)%nat.
Proof.
  intros Hrefl. induction c as [|[k0 n0] c IH]; simpl.
  - exists k, 1%nat. split; [left | split; [done | lia]].
  - destruct (py_eq k0 k) eqn:E.
    + exists k0, (S n0). split; [left | split; [done | lia]].
    + destruct IH as (k' & n & Hin & Heq & Hpos).
      exists k', n. split; [by right | done].
Qed.

Lemma counter_incr_keeps (k k' : pyval) (n : nat) (c : counter) :
  (k', n) ∈ c → ∃ n', (k', n') ∈ counter_incr k c ∧ (n ≤ n')%nat.
Proof.
  induction c as [|[k0 n0] c IH]; simpl; [by intros ?%elem_of_nil|].
  intros [[= <- <-]|Hin]%elem_of_cons.
  - destruct (py_eq k' k).
    + exists (S n). split; [left | lia].
    + exists n. split; [left | lia].
  - destruct (IH Hin) as (n' & Hin' & Hle).
    destruct (py_eq k0 k); [exists n; split; [by right | lia]|].
    exists n'. split; [by right | done].
Qed.

(** X13.  Whenever [_count_entities_by_type] returns, its counts add up to
    the number of nodes of the graph, and every node's type (['unknown'] for
    a node without type) has a positive count. *)
Theorem entity_type_counts_cover_nodes (g : graph) (counts : counter) :
  _count_entities_by_type g = Ok counts →
  Spec.counter_total counts = number_of_nodes g
  ∧ ∀ n data, (n, data) ∈ nodes g →
      ∃ k c, (k, c) ∈ counts
             ∧ py_eq k (dict_get_default data "type" (VStr "unknown")) = true
             ∧ (0 < c)%nat.
Proof.
  unfold _count_entities_by_type, number_of_nodes.
  assert (Hgen : ∀ (l : list (string * dict)) acc out,
             foldM (λ counts nd,
                      counter_add
                        (dict_get_default nd.2 "type" (VStr "unknown")) counts)
                   acc l = Ok out →
             Spec.counter_total out = (Spec.counter_total acc + length l)%nat
             ∧ (∀ k c, (k, c) ∈ acc → ∃ c', (k, c') ∈ out ∧ (c ≤ c')%nat)
             ∧ ∀ nd, nd ∈ l →
                 ∃ k c, (k, c) ∈ out
                        ∧ py_eq k (dict_get_default nd.2 "type" (VStr "unknown"))
                          = true
                        ∧ (0 < c)%nat).
  { induction l as [|nd l IH]; intros acc out; simpl.
    - intros [= <-]. split; [lia|]. split; [|by intros ? ?%elem_of_nil].
      intros k c Hin. by exists c.
    - intros H. bind_inv H. rename a into mid.
      destruct (IH _ _ H) as (Htot & Hkeep & Hall).
      pose proof (counter_total_add _ _ _ Ha) as Hmid.
      pose proof (py_eq_refl_hashable _ _ _ Ha) as Hrefl.
      assert (Hmid_eq : mid = counter_incr
                                (dict_get_default nd.2 "type" (VStr "unknown"))
                                acc).
      { unfold counter_add in Ha.
        destruct (dict_get_default nd.2 "type" (VStr "unknown"));
          try discriminate; by injection Ha as <-. }
      split; [lia|]. split.
      + intros k c Hin.
        destruct (counter_incr_keeps
                    (dict_get_default nd.2 "type" (VStr "unknown")) k c acc Hin)
          as (c1 & Hin1 & Hle1).
        rewrite <- Hmid_eq in Hin1.
        destruct (Hkeep _ _ Hin1) as (c2 & Hin2 & Hle2).
        exists c2. split; [done | lia].
      + intros nd' [->|Hin]%elem_of_cons; [|by apply Hall].
        destruct (counter_incr_counted _ acc Hrefl) as (k & c & Hin & Heq & Hpos).
        rewrite <- Hmid_eq in Hin.
        destruct (Hkeep _ _ Hin) as (c2 & Hin2 & Hle2).
        exists k, c2. split; [done|]. split; [done | lia]. }
  intros H. destruct (Hgen _ _ _ H) as (Htot & _ & Hall).
  split; [by rewrite Htot|].
  intros n data Hin. apply (Hall (n, data) Hin).
Qed.

(** The path graph: two vehicles and a person. *)
Lemma entity_type_counts_cover_nodes_witness :
  ∃ counts, _count_entities_by_type path_graph = Ok counts
            ∧ counts = [(VStr "vehicle", 2%nat); (VStr "person", 1%nat)]
            ∧ Spec.counter_total counts = number_of_nodes path_graph.
Proof.
  eexists. split; [vm_compute; reflexivity|]. split; [reflexivity|].
  edestruct (entity_type_counts_cover_nodes path_graph) as [Htot _];
    [vm_compute; reflexivity|].
  exact Htot.
Defined.

(** ** Two ways of attributing nodes to a country *)

Lemma owned_or_located_belongs (data : dict) (country : pyval) (b : bool) :
  owned_or_located data country = Ok true →
  belongs_to_country data country = Ok b →
  b = true.
Proof.
  unfold owned_or_located, belongs_to_country. intros H1 H2.
  bind_inv H1. bind_inv H2. rewrite Ha in Ha0. injection Ha0 as <-.
  destruct a; [congruence|].
  bind_inv H2. rewrite H1 in Ha0. injection Ha0 as <-. congruence.
Qed.

Lemma asset_types_within_total (country : pyval) (l : list (string * dict))
    (types types' : counter) (st st' : country_stats) :
  foldM (λ types nd,
           belongs ← owned_or_located nd.2 country;
           if belongs : bool
           then counter_add (dict_get_default nd.2 "type" (VStr "unknown")) types
           else Ok types) types l = Ok types' →
  foldM (λ st nd,
           belongs ← belongs_to_country nd.2 country;
           if belongs : bool then count_asset nd.2 st else Ok st) st l = Ok st' →
  Spec.country_stats_consistent st →
  (Spec.counter_total types' + total_assets st
   ≤ Spec.counter_total types + total_assets st')%nat.
Proof.
  revert types st; induction l as [|nd l IH]; intros types st; simpl.
  - intros [= <-] [= <-] _. lia.
  - intros H1 H2 Hst. bind_inv H1. bind_inv H2.
    bind_inv Ha. bind_inv Ha0. rename a1 into owned, a2 into belongs.
    destruct owned.
    + pose proof (owned_or_located_belongs _ _ _ Ha1 Ha2) as ->.
      destruct (count_asset_consistent _ _ _ Hst Ha0) as [Hmid Htot].
      apply counter_total_add in Ha.
      pose proof (IH _ _ H1 H2 Hmid). lia.
    + injection Ha as <-. destruct belongs.
      * destruct (count_asset_consistent _ _ _ Hst Ha0) as [Hmid Htot].
        pose proof (IH _ _ H1 H2 Hmid). lia.
      * injection Ha0 as <-. by apply IH.
Qed.

(** X14.  [_compare_asset_types] attributes a node to a country by owner or
    country only, [_analyze_single_country] also by nationality and, for
    country nodes, by label: whenever both return, the asset types counted
    for a listed country add up to at most the country's total assets. *)
Theorem asset_types_at_most_total_assets
    (g : graph) (countries : list string) (country : string)
    (asset_types : list (string * counter)) (st : country_stats) :
  country ∈ countries →
  _compare_asset_types g countries = Ok asset_types →
  _analyze_single_country g (VStr country) = Ok st →
  ∃ types, assoc_get country asset_types = Some types
           ∧ (Spec.counter_total types ≤ total_assets st)%nat.
Proof.
  intros Hin Hcmp Han. unfold _compare_asset_types in Hcmp.
  assert (Hgen : ∀ cs acc out,
             foldM (λ asset_types country,
                      types ←
                        foldM (λ types nd,
                                 belongs ← owned_or_located nd.2 (VStr country);
                                 if belongs : bool
                                 then counter_add
                                        (dict_get_default nd.2 "type"
                                           (VStr "unknown")) types
                                 else Ok types) [] (nodes g);
                      Ok (assoc_set country types asset_types)) acc cs = Ok out →
             (country ∈ cs
              ∨ ∃ types, assoc_get country acc = Some types
                         ∧ (Spec.counter_total types ≤ total_assets st)%nat) →
             ∃ types, assoc_get country out = Some types
                      ∧ (Spec.counter_total types ≤ total_assets st)%nat).
  { induction cs as [|c cs IH]; intros acc out; simpl.
    - intros [= <-] [?%elem_of_nil|?]; done.
    - intros H Hor. bind_inv H. bind_inv Ha. injection Ha as <-.
      apply (IH _ _ H).
      destruct (decide (c = country)) as [->|Hne].
      + right. exists a0. rewrite assoc_get_set_eq. split; [done|].
        unfold _analyze_single_country in Han.
        pose proof (asset_types_within_total _ _ _ _ _ _ Ha0 Han) as Hle.
        simpl in Hle. apply Nat.add_le_mono_r with (p := 0%nat).
        rewrite !Nat.add_0_r. 
        assert (Spec.country_stats_consistent empty_country_stats)
          by (unfold Spec.country_stats_consistent; simpl; repeat split; lia).
        specialize (Hle H0). lia.
      + destruct Hor as [[->|Hin']%elem_of_cons|(types & Hget & Hle)];
          [done | by left |].
        right. exists types. by rewrite assoc_get_set_ne. }
  apply (Hgen _ _ _ Hcmp). by left.
Qed.

(** On the path graph the person [t3] belongs to [uk] by nationality
    only. *)
Lemma asset_types_at_most_total_assets_witness :
  ∃ asset_types st,
    _compare_asset_types path_graph ["uk"] = Ok asset_types
    ∧ _analyze_single_country path_graph (VStr "uk") = Ok st
    ∧ total_assets st = 3%nat
    ∧ ∃ types, assoc_get "uk" asset_types = Some types
               ∧ (Spec.counter_total types ≤ total_assets st)%nat.
Proof.
  eexists. eexists. split; [vm_compute; reflexivity|].
  split; [vm_compute; reflexivity|]. split; [reflexivity|].
  apply (asset_types_at_most_total_assets path_graph ["uk"] "uk");
    [left | vm_compute; reflexivity | vm_compute; reflexivity].
Defined.

(** ** The builder returns on well-formed databases *)








(** ** The [year] and [year_range] filters *)

Lemma _filter_by_year_int (g : graph) (y : Z) :
  _filter_by_year g (VInt y) = select_nodes g (Spec.year_test y).
Proof. reflexivity. Qed.

Lemma _filter_by_year_range_parsed (g : graph) (value : pyval) (lo hi : Z) :
  parse_year_range value = Ok (lo, hi) →
  _filter_by_year_range g value = select_nodes g (Spec.year_range_test lo hi).
Proof. intros H. unfold _filter_by_year_range. by rewrite H. Qed.

Lemma in_year_range_value (lo hi : Z) (v : pyval) :
  Spec.year_value v →
  ∃ b, in_year_range lo hi v = Ok b
       ∧ (b = true ↔ ∃ y, v = VInt y ∧ (lo ≤ y ≤ hi)%Z ∧ y ≠ 0%Z).
Proof.
  intros [->|[z ->]]; unfold in_year_range; simpl.
  - exists false. split; [done|]. split; [done|]. by intros (y & ? & _).
  - destruct (Z.eqb_spec z 0) as [->|Hz]; simpl.
    + exists false. split; [done|]. split; [done|].
      by intros (y & [= <-] & _ & ?).
    + destruct (Z.leb_spec lo z); simpl.
      * exists (z <=? hi)%Z. split; [done|]. rewrite Z.leb_le. split.
        -- intros Hle. exists z. repeat split; done.
        -- intros (y & [= <-] & [_ ?] & _). done.
      * exists false. split; [done|]. split; [done|].
        intros (y & [= <-] & [? _] & _). lia.
Qed.

Lemma py_eq_year_value (v : pyval) (y : Z) :
  Spec.year_value v → py_eq v (VInt y) = true ↔ v = VInt y.
Proof.
  intros [->|[z ->]]; simpl; [done|].
  rewrite Z.eqb_eq. split; [by intros -> | by intros [= ->]].
Qed.

Lemma year_tests_agree (lo hi : Z) (nd : string * dict) :
  Spec.integer_years nd →
  (∃ b, Spec.year_range_test lo hi nd.1 nd.2 = Ok b)
  ∧ (∀ y, ∃ b, Spec.year_test y nd.1 nd.2 = Ok b)
  ∧ (Spec.passes (Spec.year_range_test lo hi) nd = true ↔
     ∃ y, (lo ≤ y ≤ hi)%Z ∧ y ≠ 0%Z
          ∧ Spec.passes (Spec.year_test y) nd = true).
Proof.
  intros (Hv1 & d & Hd & Hv2).
  unfold Spec.passes, Spec.year_range_test, Spec.year_test.
  rewrite Hd. cbn [py_get]. 
  destruct (in_year_range_value lo hi _ Hv1) as (b1 & -> & Hb1).
  destruct (in_year_range_value lo hi _ Hv2) as (b2 & Hr2 & Hb2).
  rewrite !bind_Ok.
  split; [|split].
  - destruct b1; [by eexists|]. rewrite Hr2. by eexists.
  - intros y. destruct (py_eq _ (VInt y)); [by eexists|].
    rewrite bind_Ok. by eexists.
  - destruct b1.
    + split; [intros _|done].
      destruct (proj1 Hb1 eq_refl) as (y & Hy & Hrange & Hne).
      exists y. split; [done|]. split; [done|].
      rewrite Hy. simpl. by rewrite Z.eqb_refl.
    + rewrite Hr2. split.
      * destruct b2; [intros _|done].
        destruct (proj1 Hb2 eq_refl) as (y & Hy & Hrange & Hne).
        exists y. split; [done|]. split; [done|].
        destruct (py_eq _ (VInt y)); [done|].
        rewrite bind_Ok, Hy. simpl. by rewrite Z.eqb_refl.
      * intros (y & Hrange & Hne & Hpass).
        destruct (py_eq (dict_get_default nd.2 "year" VNone) (VInt y)) eqn:E1.
        { apply py_eq_year_value in E1; [|done].
          assert (false = true); [|done].
          apply Hb1. by exists y. }
        rewrite bind_Ok in Hpass.
        destruct (py_eq (dict_get_default d "year" VNone) (VInt y)) eqn:E2;
          [|done].
        apply py_eq_year_value in E2; [|done].
        assert (b2 = true) as ->; [|done].
        apply Hb2. by exists y.
Qed.

(** X16.  On a graph whose nodes have integer years (or none), the
    [year_range] filter with a well-formed range returns, and it selects
    the nodes that the [year] filter selects for some year of the range
    other than 0: a year 0 counts as no year for [year_range], though the
    [year] filter matches it. *)
Theorem year_range_is_union_of_years
    (g : graph) (year_range : pyval) (start_year end_year : Z) :
  parse_year_range year_range = Ok (start_year, end_year) →
  Forall Spec.integer_years (nodes g) →
  ∃ in_range,
    _filter_by_year_range g year_range = Ok in_range
    ∧ ∀ n, n ∈ in_range ↔
           ∃ y in_year, (start_year ≤ y ≤ end_year)%Z ∧ y ≠ 0%Z
                        ∧ _filter_by_year g (VInt y) = Ok in_year
                        ∧ n ∈ in_year.
Proof.
  intros Hparse Hyears.
  rewrite (_filter_by_year_range_parsed _ _ _ _ Hparse).
  eexists. split.
  - apply select_nodes_spec. split; [|reflexivity].
    eapply Forall_impl; [exact Hyears|]. intros nd Hnd.
    by destruct (year_tests_agree start_year end_year nd Hnd) as [? _].
  - assert (Hyear : ∀ y, select_nodes g (Spec.year_test y)
                         = Ok (list_to_set
                                 (map fst (filter (λ nd, Spec.passes
                                                           (Spec.year_test y) nd
                                                         = true) (nodes g))))).
    { intros y. apply select_nodes_spec. split; [|reflexivity].
      eapply Forall_impl; [exact Hyears|]. intros nd Hnd.
      by destruct (year_tests_agree start_year end_year nd Hnd) as (_ & ? & _). }
    intros n. rewrite elem_of_list_to_set, list_elem_of_fmap. split.
    + intros (nd & -> & [Hpass Hin]%list_elem_of_filter).
      pose proof (proj1 (Forall_forall _ _) Hyears nd Hin) as Hnd.
      destruct (year_tests_agree start_year end_year nd Hnd) as (_ & _ & Hiff).
      destruct (proj1 Hiff Hpass) as (y & Hrange & Hne & Hy).
      eexists y, _. split; [done|]. split; [done|].
      rewrite _filter_by_year_int. split; [apply Hyear|].
      rewrite elem_of_list_to_set, list_elem_of_fmap. exists nd.
      split; [done|]. by apply list_elem_of_filter.
    + intros (y & in_year & Hrange & Hne & Hrun & Hn).
      rewrite _filter_by_year_int, Hyear in Hrun. injection Hrun as <-.
      rewrite elem_of_list_to_set, list_elem_of_fmap in Hn.
      destruct Hn as (nd & -> & [Hpass Hin]%list_elem_of_filter).
      exists nd. split; [done|]. apply list_elem_of_filter. split; [|done].
      pose proof (proj1 (Forall_forall _ _) Hyears nd Hin) as Hnd.
      destruct (year_tests_agree start_year end_year nd Hnd) as (_ & _ & Hiff).
      apply Hiff. by exists y.
Qed.

(** The range 1980-2000 on the path graph, whose only year is 1990. *)
Lemma year_range_is_union_of_years_witness :
  ∃ in_range,
    _filter_by_year_range path_graph (VStr "1980-2000") = Ok in_range
    ∧ ∀ n, n ∈ in_range ↔
           ∃ y in_year, (1980 ≤ y ≤ 2000)%Z ∧ y ≠ 0%Z
                        ∧ _filter_by_year path_graph (VInt y) = Ok in_year
                        ∧ n ∈ in_year.
Proof.
  apply (year_range_is_union_of_years path_graph (VStr "1980-2000") 1980 2000).
  - vm_compute. reflexivity.
  - unfold path_graph. cbn [nodes].
    repeat (apply Forall_cons; split); try apply Forall_nil_2;
      (split;
       [first [left; reflexivity | right; eexists; reflexivity]
       |eexists; split; [reflexivity|];
        first [left; reflexivity | right; eexists; reflexivity]]).
Defined.

Lemma foldM_raises {A B} (f : B → A → res B) (l : list A) (x : A) :
  x ∈ l → (∀ acc, ∃ e, f acc x = Raise e) →
  ∀ acc, ∃ e, foldM f acc l = Raise e.
Proof.
  intros Hin Hx. induction l as [|y l IH]; intros acc; simpl.
  - by apply elem_of_nil in Hin.
  - destruct (f acc y) as [acc'|e] eqn:E; simpl; [|by eexists].
    apply elem_of_cons in Hin as [->|Hin]; [|by apply IH].
    destruct (Hx acc) as [e He]. congruence.
Qed.

(** X17.  A node whose [year] attribute is a non-empty string makes the
    [year_range] filter raise, for every well-formed range: the comparison
    of the bounds with the string raises inside the loop, where no exception
    is caught, and so [apply_filters] raises too.  The [year] filter
    compares the attribute with [==], which is false on a string for every
    year, and goes on to the year of the node's entity. *)
Theorem year_range_raises_on_string_year
    (g : graph) (year_range : pyval) (start_year end_year : Z)
    (node : string) (data : dict) (s : string) :
  parse_year_range year_range = Ok (start_year, end_year) →
  (node, data) ∈ nodes g →
  assoc_get "year" data = Some (VStr s) →
  s ≠ "" →
  (∃ e, _filter_by_year_range g year_range = Raise e)
  ∧ (∃ e, apply_filters g [("year_range", year_range)] = Raise e)
  ∧ ∀ y, Spec.year_test y node data
         = (entity_year ← py_get (dict_get_default data "data" (VDict []))
                                 "year" VNone;
            Ok (py_eq entity_year (VInt y))).
Proof.
  intros Hparse Hin Hyear Hs.
  assert (Hraise : ∃ e, _filter_by_year_range g year_range = Raise e).
  { rewrite (_filter_by_year_range_parsed _ _ _ _ Hparse).
    unfold select_nodes.
    apply (foldM_raises _ _ (node, data) Hin). intros acc.
    unfold Spec.year_range_test, dict_get_default, in_year_range.
    cbn [fst snd]. rewrite Hyear.
    cbn [truthy]. destruct (String.eqb s "") eqn:E;
      [by apply String.eqb_eq in E|].
    cbn [negb py_int_le]. by eexists. }
  split; [exact Hraise|]. split.
  - destruct Hraise as [e He]. exists e.
    unfold apply_filters, filter_node_set. cbn [foldM].
    rewrite apply_one_unfold.
    change (assoc_get "year_range" available_filters)
      with (Some _filter_by_year_range).
    cbv beta iota. by rewrite He.
  - intros y. unfold Spec.year_test, dict_get_default. by rewrite Hyear.
Qed.

(** The second node has the string ['1990'] as year. *)
Lemma year_range_raises_on_string_year_witness :
  (∃ e, apply_filters string_year_graph [("year_range", VStr "1980-2000")]
        = Raise e)
  ∧ _filter_by_year string_year_graph (VInt 1990) = Ok {["t1"]}.
Proof.
  split; [|vm_compute; reflexivity].
  edestruct (year_range_raises_on_string_year string_year_graph
               (VStr "1980-2000") 1980 2000 "t2"
               [("type", VStr "vehicle"); ("year", VStr "1990")] "1990")
    as (_ & Hraise & _).
  - vm_compute. reflexivity.
  - right. left.
  - reflexivity.
  - discriminate.
  - exact Hraise.
Defined.

(** ** [create_subgraph]: the neighbourhood of the listed entities *)

Lemma elem_of_neighbors (g : graph) (a b : string) :
  b ∈ neighbors g a ↔ Spec.adjacent g a b.
Proof.
  unfold neighbors, Spec.adjacent.
  induction (edges g) as [|[[x y] d] es IH]; simpl.
  - split; [by intros ?%elem_of_nil|].
    intros (d & [?%elem_of_nil|?%elem_of_nil]); done.
  - assert (Hrec : (∃ d0, (a, b, d0) ∈ (x, y, d) :: es
                          ∨ (b, a, d0) ∈ (x, y, d) :: es)
                   ↔ (x = a ∧ y = b) ∨ (x = b ∧ y = a)
                     ∨ ∃ d0, (a, b, d0) ∈ es ∨ (b, a, d0) ∈ es).
    { split.
      - intros (d0 & [[[= -> -> ->]|H]%elem_of_cons|[[= -> -> ->]|H]%elem_of_cons]);
          eauto 6.
      - intros [[-> ->]|[[-> ->]|(d0 & [H|H])]].
        + exists d. left. left.
        + exists d. right. left.
        + exists d0. left. by right.
        + exists d0. right. by right. }
    rewrite Hrec, <- IH. clear Hrec IH.
    destruct (String.eqb_spec x a) as [->|Hxa].
    + rewrite elem_of_cons. split.
      * intros [->|H]; [by left | by right; right].
      * intros [[_ ->]|[[-> ->]|H]]; [by left | by left | by right].
    + destruct (String.eqb_spec y a) as [->|Hya].
      * rewrite elem_of_cons. split.
        -- intros [->|H]; [right; by left | by right; right].
        -- intros [[? _]|[[-> _]|H]]; [done | by left | by right].
      * split; [by right; right|].
        intros [[? _]|[[_ ?]|H]]; done.
Qed.

Lemma within_refl (g : graph) (k : nat) (a : string) : Spec.within g k a a.
Proof. induction k as [|k IH]; simpl; [done | by left]. Qed.

Lemma within_mono (g : graph) (k k' : nat) (a b : string) :
  (k ≤ k')%nat → Spec.within g k a b → Spec.within g k' a b.
Proof.
  induction 1 as [|k' _ IH]; [done|]. intros H. left. by apply IH.
Qed.

Lemma adjacent_node (g : graph) (a b : string) :
  Spec.well_formed_graph g → Spec.adjacent g a b →
  a ∈ node_set g ∧ b ∈ node_set g.
Proof.
  intros [_ Hclosed] (d & [H|H]); destruct (Hclosed _ H) as [H1 H2]; by split.
Qed.

Lemma within_node (g : graph) (k : nat) (a b : string) :
  Spec.well_formed_graph g → a ∈ node_set g → Spec.within g k a b →
  b ∈ node_set g.
Proof.
  intros Hwf Ha. revert b. induction k as [|k IH]; intros b; simpl.
  - by intros <-.
  - intros [H|(c & _ & Hadj)]; [by apply IH|].
    by destruct (adjacent_node g c b Hwf Hadj).
Qed.

(** One node's neighbours, then one level. *)
Lemma visit_neighbors_spec (ws : list string) (st : gset string * list string) :
  let st' := fold_left visit_neighbor ws st in
  (∀ n, n ∈ st'.1 ↔ n ∈ st.1 ∨ n ∈ ws)
  ∧ (∀ n, n ∈ st'.2 ↔ n ∈ st.2 ∨ (n ∈ ws ∧ (n ∉ st.1))).
Proof.
  revert st; induction ws as [|w ws IH]; intros st; simpl.
  - split; intros n; rewrite elem_of_nil; tauto.
  - destruct (IH (visit_neighbor st w)) as [H1 H2].
    unfold visit_neighbor in *.
    split; intros n; [rewrite H1 | rewrite H2]; rewrite elem_of_cons;
      destruct (decide (w ∈ st.1)) as [Hw|Hw]; simpl.
    + split; [intros [?|?]; auto | intros [?|[->|?]]; auto].
    + rewrite elem_of_union, elem_of_singleton. tauto.
    + split; [intros [?|[? ?]]; auto|].
      intros [?|[[->|?] ?]]; auto. done.
    + rewrite elem_of_app, list_elem_of_singleton, elem_of_union,
        elem_of_singleton.
      destruct (decide (n = w)) as [->|Hne]; [tauto|]. tauto.
Qed.

Lemma visit_level_from (g : graph) (vs : list string)
    (st : gset string * list string) :
  let st' := fold_left (λ st v, fold_left visit_neighbor (neighbors g v) st)
                       vs st in
  (∀ n, n ∈ st'.1 ↔ n ∈ st.1 ∨ ∃ v, v ∈ vs ∧ Spec.adjacent g v n)
  ∧ (∀ n, n ∈ st'.2 ↔
          n ∈ st.2 ∨ ((n ∉ st.1) ∧ ∃ v, v ∈ vs ∧ Spec.adjacent g v n)).
Proof.
  revert st; induction vs as [|v vs IH]; intros st; simpl.
  - split; intros n; [split; [by left|] | split; [by left|]].
    + intros [?|(v & ?%elem_of_nil & _)]; done.
    + intros [?|(_ & v & ?%elem_of_nil & _)]; done.
  - destruct (IH (fold_left visit_neighbor (neighbors g v) st)) as [H1 H2].
    destruct (visit_neighbors_spec (neighbors g v) st) as [N1 N2].
    cbv zeta in *. split; intros n.
    + rewrite H1, N1, elem_of_neighbors. split.
      * intros [[?|?]|(v' & ? & ?)]; [by left | right | right].
        -- exists v. split; [left | done].
        -- exists v'. split; [by right | done].
      * intros [?|(v' & [->|?]%elem_of_cons & ?)];
          [by left; left | by left; right | right; by exists v'].
    + rewrite H2, N2, N1, elem_of_neighbors. split.
      * intros [[?|[? ?]]|[Hn (v' & ? & ?)]]; [by left | right | right].
        -- split; [done|]. exists v. split; [left | done].
        -- split; [tauto|]. exists v'. split; [by right | done].
      * intros [?|[Hn (v' & [->|?]%elem_of_cons & ?)]]; [by left; left | |].
        -- left. right. by split.
        -- destruct (decide (n ∈ neighbors g v)) as [Hadj|Hadj].
           ++ left. right. split; [by apply elem_of_neighbors | done].
           ++ right. rewrite <- elem_of_neighbors. split; [tauto|].
              by exists v'.
Qed.

Lemma visit_level_spec (g : graph) (seen : gset string) (frontier : list string) :
  (∀ n, n ∈ (visit_level g seen frontier).1 ↔
        n ∈ seen ∨ ∃ v, v ∈ frontier ∧ Spec.adjacent g v n)
  ∧ (∀ n, n ∈ (visit_level g seen frontier).2 ↔
          (n ∉ seen) ∧ ∃ v, v ∈ frontier ∧ Spec.adjacent g v n).
Proof.
  destruct (visit_level_from g frontier (seen, [])) as [H1 H2].
  cbv zeta in *. cbn [fst snd] in *. split; [exact H1|].
  intros n. rewrite (H2 n), elem_of_nil. tauto.
Qed.

Lemma search_state_next (g : graph) (source : string) (level : nat)
    (seen : gset string) (frontier : list string) :
  Spec.search_state g source level seen frontier →
  Spec.search_state g source (S level)
    (visit_level g seen frontier).1 (visit_level g seen frontier).2.
Proof.
  intros (Hseen & Hfront & Hold).
  destruct (visit_level_spec g seen frontier) as [H1 H2].
  split; [|split].
  - intros n. rewrite H1. simpl. rewrite Hseen. split.
    + intros [?|(v & Hv & Hadj)]; [by left|].
      right. exists v. split; [|done]. by apply Hseen, Hfront.
    + intros [?|(c & Hc & Hadj)]; [by left|].
      apply Hseen in Hc.
      destruct (decide (c ∈ frontier)) as [Hin|Hout].
      * right. by exists c.
      * left. apply Hseen. by apply (Hold c n).
  - intros n. rewrite H1, H2. intros [_ ?]. by right.
  - intros c n. rewrite !H1, H2. intros Hc Hout Hadj.
    destruct (decide (c ∈ seen)) as [Hin|Hnot].
    + destruct (decide (c ∈ frontier)) as [Hf|Hf].
      * right. by exists c.
      * left. by apply (Hold c n).
    + destruct Hc as [?|Hc]; [done|]. exfalso. apply Hout. by split.
Qed.

Lemma search_state_exhausted (g : graph) (source : string) (level k : nat)
    (seen : gset string) (n : string) :
  Spec.search_state g source level seen [] →
  Spec.within g k source n → n ∈ seen.
Proof.
  intros (Hseen & _ & Hold). revert n. induction k as [|k IH]; intros n; simpl.
  - intros <-. apply Hseen, within_refl.
  - intros [H|(c & Hc & Hadj)]; [by apply IH|].
    apply (Hold c n); [by apply IH | by intros ?%elem_of_nil | done].
Qed.

Lemma keys_app {V} (l1 l2 : list (string * V)) :
  keys (l1 ++ l2)%list = (keys l1 ++ keys l2)%list.
Proof. unfold keys. apply map_app. Qed.

(** The search finds the nodes within [level + fuel] steps of the source. *)
Lemma shortest_path_levels_spec (g : graph) (source : string) (fuel : nat) :
  Spec.well_formed_graph g → source ∈ node_set g →
  ∀ level seen frontier,
    Spec.search_state g source level seen frontier →
    ∀ n, n ∈ seen ∨ n ∈ keys (shortest_path_levels g fuel level seen frontier)
         ↔ Spec.within g (level + fuel) source n.
Proof.
  intros Hwf Hsrc. induction fuel as [|fuel IH]; intros level seen frontier Hst n.
  - simpl. rewrite Nat.add_0_r, elem_of_nil. destruct Hst as [Hseen _].
    rewrite Hseen. tauto.
  - pose proof Hst as (Hseen & Hfront & Hold).
    destruct frontier as [|v vs].
    + simpl. rewrite elem_of_nil. split.
      * intros [H|[]]. apply Hseen in H.
        apply (within_mono g level); [lia | done].
      * intros H. left.
        by apply (search_state_exhausted g source level (level + S fuel) seen).
    + pose proof (search_state_next _ _ _ _ _ Hst) as Hnext.
      destruct (visit_level_spec g seen (v :: vs)) as [H1 H2].
      change (shortest_path_levels g (S fuel) level seen (v :: vs))
        with ((map (λ w, (w, S level)) (visit_level g seen (v :: vs)).2
               ++ if Nat.eqb (size (visit_level g seen (v :: vs)).1)
                             (number_of_nodes g)
                  then []
                  else shortest_path_levels g fuel (S level)
                         (visit_level g seen (v :: vs)).1
                         (visit_level g seen (v :: vs)).2)%list).
      set (st := visit_level g seen (v :: vs)) in *.
      rewrite keys_app, elem_of_app.
      assert (Hkeys : keys (map (λ w : string, (w, S level)) st.2) = st.2).
      { unfold keys. rewrite map_map. simpl. apply map_id. }
      rewrite Hkeys.
      assert (Hunion : ∀ m, m ∈ st.1 ↔ m ∈ seen ∨ m ∈ st.2).
      { intros m. rewrite H1, H2.
        destruct (decide (m ∈ seen)); [tauto|]. tauto. }
      replace (level + S fuel)%nat with (S level + fuel)%nat by lia.
      destruct (Nat.eqb_spec (size st.1) (number_of_nodes g)) as [Hsize|Hsize].
      * assert (Hall : st.1 = node_set g).
        { apply set_subseteq_size_eq.
          - intros m Hm. apply (proj1 Hnext) in Hm.
            by apply (within_node g (S level) source).
          - rewrite Hsize. unfold number_of_nodes, node_set.
            fold (keys (nodes g)).
            rewrite size_list_to_set; [|by destruct Hwf].
            unfold keys. by rewrite length_map. }
        rewrite elem_of_nil. split.
        -- intros [H|[H|[]]].
           ++ apply (within_mono g (S level)); [lia|].
              apply (proj1 Hnext), Hunion. by left.
           ++ apply (within_mono g (S level)); [lia|].
              apply (proj1 Hnext), Hunion. by right.
        -- intros H. apply (within_node g _ source n Hwf Hsrc) in H.
           rewrite <- Hall in H. apply Hunion in H. tauto.
      * rewrite <- (IH (S level) st.1 st.2 Hnext n), Hunion. tauto.
Qed.

Lemma single_source_shortest_path_length_spec (g : graph) (source : string)
    (cutoff : Z) (n : string) :
  Spec.well_formed_graph g → source ∈ node_set g →
  n ∈ keys (single_source_shortest_path_length g source cutoff) ↔
  Spec.within g (Z.to_nat cutoff) source n.
Proof.
  intros Hwf Hsrc. unfold single_source_shortest_path_length.
  cbn [keys map fst]. fold (keys (shortest_path_levels g (Z.to_nat cutoff) 0
                                    {[source]} [source])).
  rewrite elem_of_cons.
  rewrite <- (shortest_path_levels_spec g source (Z.to_nat cutoff) Hwf Hsrc
                0 {[source]} [source]).
  - rewrite elem_of_singleton. tauto.
  - split; [|split].
    + intros m. simpl. rewrite elem_of_singleton. split; by intros ->.
    + intros m ->%list_elem_of_singleton. by apply elem_of_singleton.
    + intros c m ->%elem_of_singleton Hout. exfalso. apply Hout. left.
Qed.

Lemma elem_of_neighbourhoods (g : graph) (max_distance : Z)
    (entity_ids : list string) (start : gset string) (n : string) :
  n ∈ fold_left
        (λ acc entity_id,
           if has_node g entity_id
           then acc ∪ list_to_set
                        (keys (single_source_shortest_path_length
                                 g entity_id max_distance))
           else acc)
        entity_ids start ↔
  n ∈ start
  ∨ ∃ id, id ∈ entity_ids ∧ has_node g id = true
          ∧ n ∈ keys (single_source_shortest_path_length g id max_distance).
Proof.
  revert start; induction entity_ids as [|x ids IH]; intros start;
    cbn [fold_left].
  - split; [by left|]. intros [?|(id & ?%elem_of_nil & _)]; done.
  - rewrite IH. destruct (has_node g x) eqn:Hx.
    + rewrite elem_of_union, elem_of_list_to_set. split.
      * intros [[?|?]|(id & ? & ? & ?)]; [by left | right | right].
        -- exists x. split; [left | done].
        -- exists id. split; [by right | done].
      * intros [?|(id & [->|?]%elem_of_cons & ? & ?)];
          [by left; left | by left; right | right; by exists id].
    + split.
      * intros [?|(id & ? & ? & ?)]; [by left | right].
        exists id. split; [by right | done].
      * intros [?|(id & [->|?]%elem_of_cons & Hid & ?)];
          [by left | congruence | right; by exists id].
Qed.

Lemma filter_ext_elem {A} (P Q : A → Prop) `{∀ x, Decision (P x)}
    `{∀ x, Decision (Q x)} (l : list A) :
  (∀ x, x ∈ l → P x ↔ Q x) → filter P l = filter Q l.
Proof.
  induction l as [|x l IH]; intros Hext; [done|].
  rewrite !filter_cons.
  assert (Hx : P x ↔ Q x) by (apply Hext; left).
  rewrite IH by (intros y Hy; apply Hext; by right).
  destruct (decide (P x)), (decide (Q x)); tauto || done.
Qed.

Lemma has_node_node_set (g : graph) (n : string) :
  has_node g n = true ↔ n ∈ node_set g.
Proof.
  unfold has_node, node_set. rewrite elem_of_list_to_set.
  apply assoc_mem_elem_of.
Qed.

(** The node set [create_subgraph] hands to [graph.subgraph]. *)
Lemma create_subgraph_keep
    (g : graph) (entity_ids : list string) (include_neighbors : bool)
    (max_distance : Z) :
  Spec.well_formed_graph g →
  ∃ keep,
    create_subgraph g entity_ids include_neighbors max_distance
    = subgraph g keep
    ∧ ∀ n, n ∈ node_set g ∩ keep ↔
           ∃ id, id ∈ entity_ids ∧ id ∈ node_set g
                 ∧ if include_neighbors
                   then Spec.within g (Z.to_nat max_distance) id n
                   else id = n.
Proof.
  intros Hwf. unfold create_subgraph. destruct include_neighbors.
  - eexists. split; [reflexivity|]. intros n.
    rewrite elem_of_intersection, elem_of_neighbourhoods,
      elem_of_list_to_set. split.
    + intros [Hn [Hin|(id & Hid & Hnode & Hkey)]].
      * exists n. split; [done|]. split; [done|]. apply within_refl.
      * apply has_node_node_set in Hnode.
        exists id. split; [done|]. split; [done|].
        by apply (single_source_shortest_path_length_spec g id max_distance).
    + intros (id & Hid & Hnode & Hwithin). split.
      * by apply (within_node g (Z.to_nat max_distance) id n Hwf Hnode).
      * right. exists id. split; [done|].
        split; [by apply has_node_node_set|].
        by apply single_source_shortest_path_length_spec.
  - eexists. split; [reflexivity|]. intros n.
    rewrite elem_of_intersection, elem_of_list_to_set, list_elem_of_filter,
      has_node_node_set. split.
    + intros [Hn [_ Hin]]. by exists n.
    + intros (id & Hid & Hnode & <-). done.
Qed.

Lemma subgraph_within_nodes (g : graph) (keep : gset string) :
  Spec.well_formed_graph g →
  subgraph g keep = subgraph g (node_set g ∩ keep).
Proof.
  intros [_ Hclosed]. unfold subgraph. f_equal.
  - apply filter_ext_elem. intros [m attrs] Hin. cbn [fst].
    rewrite elem_of_intersection. split; [|tauto]. intros Hm. split; [|done].
    unfold node_set. apply elem_of_list_to_set, list_elem_of_fmap.
    by exists (m, attrs).
  - apply filter_ext_elem. intros e He.
    destruct (Hclosed e He) as [H1 H2].
    rewrite !elem_of_intersection. tauto.
Qed.

(** X18.  [create_subgraph] on a graph as networkx keeps it (every node
    listed once, edge endpoints among the nodes): a node is in the result
    exactly when some listed id that is a node of the graph equals it or,
    with [include_neighbors], reaches it along at most [max_distance] edges
    (a negative distance counts as 0).  Listed ids that are not nodes are
    ignored, and the result is the induced subgraph on these nodes. *)
Theorem create_subgraph_neighbourhood
    (g : graph) (entity_ids : list string) (include_neighbors : bool)
    (max_distance : Z) :
  Spec.well_formed_graph g →
  let sub := create_subgraph g entity_ids include_neighbors max_distance in
  Spec.induced g sub (node_set sub)
  ∧ ∀ n, n ∈ node_set sub ↔
         ∃ id, id ∈ entity_ids ∧ id ∈ node_set g
               ∧ if include_neighbors
                 then Spec.within g (Z.to_nat max_distance) id n
                 else id = n.
Proof.
  intros Hwf sub. unfold sub.
  destruct (create_subgraph_keep g entity_ids include_neighbors max_distance Hwf)
    as (keep & -> & Hkeep).
  rewrite node_set_subgraph. split; [|exact Hkeep].
  rewrite (subgraph_within_nodes g keep Hwf). apply subgraph_induced.
Qed.

Lemma path_graph_well_formed : Spec.well_formed_graph path_graph.
Proof.
  split; [apply (bool_decide_unpack _); reflexivity|].
  intros e He. unfold path_graph in He. cbn [edges] in He.
  rewrite !elem_of_cons, elem_of_nil in He.
  destruct He as [->|[->|[]]];
    split; apply (bool_decide_unpack _); vm_compute; reflexivity.
Qed.

(** One step around [t1] in the path [t1 - t2 - t3]; the id [zz] is not a
    node. *)
Lemma create_subgraph_neighbourhood_witness :
  Spec.well_formed_graph path_graph
  ∧ node_set (create_subgraph path_graph ["t1"; "zz"] true 1) = {["t1"; "t2"]}
  ∧ ∀ n, n ∈ node_set (create_subgraph path_graph ["t1"; "zz"] true 1) ↔
         ∃ id, id ∈ ["t1"; "zz"] ∧ id ∈ node_set path_graph
               ∧ Spec.within path_graph (Z.to_nat 1) id n.
Proof.
  split; [exact path_graph_well_formed|].
  split; [vm_compute; reflexivity|].
  exact (proj2 (create_subgraph_neighbourhood path_graph ["t1"; "zz"] true 1
                  path_graph_well_formed)).
Defined.

(** Graphs produced by [build_graph] are well-formed. *)
Lemma build_graph_well_formed_graph (database : dict) (include_metadata : bool)
    (g : graph) :
  build_graph database include_metadata = Ok g → Spec.well_formed_graph g.
Proof.
  intros Hbuild.
  destruct (build_graph_phases _ _ _ Hbuild)
    as (g0 & em & log & Hpass & (_ & Hkeys & _) & Hlog & Hnodes & Hedges).
  destruct (node_pass_node_set _ _ _ _ _ Hpass) as [_ Hnd]. cbn [fst] in Hnd.
  split.
  - rewrite Hnodes. apply Hnd. apply NoDup_nil_2.
  - intros e He. rewrite Hedges in He.
    destruct (insertions_edges log e He) as [(i1 & H1 & E1) _].
    pose proof (proj1 (Forall_forall _ _) (all_insertions_known em log Hlog)
                  i1 H1) as [Hs Ht].
    assert (Hnode : ∀ k, assoc_mem k em = true → k ∈ node_set g).
    { intros k Hk. unfold node_set, keys. rewrite Hnodes.
      apply elem_of_list_to_set, assoc_mem_elem_of. by apply Hkeys. }
    rewrite E1. split; by apply Hnode.
Qed.

(** ** Filters that read the edges *)

(** X19.  On a well-formed graph the [has_connection] filter selects the
    target together with its neighbours, which are exactly the nodes of
    [create_subgraph] for the target alone with neighbours at distance 1;
    a target that is not a node selects nothing. *)
Theorem has_connection_is_one_step (g : graph) (target : string) :
  Spec.well_formed_graph g →
  _filter_by_connection g (VStr target)
  = Ok (node_set (create_subgraph g [target] true 1))
  ∧ (target ∉ node_set g → _filter_by_connection g (VStr target) = Ok ∅)
  ∧ ∀ n, n ∈ node_set (create_subgraph g [target] true 1) ↔
         target ∈ node_set g ∧ (n = target ∨ Spec.adjacent g target n).
Proof.
  intros Hwf.
  destruct (create_subgraph_keep g [target] true 1 Hwf) as (keep & Heq & Hkeep).
  assert (Hset : ∀ n, n ∈ node_set (create_subgraph g [target] true 1) ↔
                      target ∈ node_set g
                      ∧ (n = target ∨ Spec.adjacent g target n)).
  { intros n. rewrite Heq, node_set_subgraph, Hkeep. split.
    - intros (id & ->%list_elem_of_singleton & Hnode & Hwithin).
      split; [done|]. simpl in Hwithin.
      destruct Hwithin as [->|(c & -> & Hadj)]; [by left | by right].
    - intros [Hnode Hn]. exists target. split; [left|]. split; [done|].
      simpl. destruct Hn as [->|Hadj]; [by left|]. right. by exists target. }
  assert (Hrun : _filter_by_connection g (VStr target)
                 = Ok (node_set (create_subgraph g [target] true 1))).
  { unfold _filter_by_connection. destruct (has_node g target) eqn:Hnode.
    - apply has_node_node_set in Hnode. f_equal. apply set_eq. intros n.
      rewrite Hset, elem_of_union, elem_of_singleton, elem_of_list_to_set,
        elem_of_neighbors. tauto.
    - f_equal. apply set_eq. intros n. rewrite Hset, <- has_node_node_set.
      rewrite Hnode. set_solver. }
  split; [exact Hrun|]. split; [|exact Hset].
  intros Hnot. unfold _filter_by_connection.
  destruct (has_node g target) eqn:Hnode; [|done].
  by apply has_node_node_set in Hnode.
Qed.

(** The neighbourhood of [t2] in the path graph is the whole path. *)
Lemma has_connection_is_one_step_witness :
  Spec.well_formed_graph path_graph
  ∧ _filter_by_connection path_graph (VStr "t2")
    = Ok (node_set (create_subgraph path_graph ["t2"] true 1))
  ∧ node_set (create_subgraph path_graph ["t2"] true 1) = {["t1"; "t2"; "t3"]}.
Proof.
  split; [exact path_graph_well_formed|]. split; [|vm_compute; reflexivity].
  exact (proj1 (has_connection_is_one_step path_graph "t2"
                  path_graph_well_formed)).
Defined.

Lemma degree_filter_test (g : graph) (p : string → bool) :
  select_nodes g (λ node _, Ok (p node))
  = Ok (list_to_set (map fst (filter (λ nd : string * dict, p nd.1 = true)
                                     (nodes g)))).
Proof.
  apply select_nodes_spec. split.
  - apply Forall_forall. intros nd _. by eexists.
  - f_equal. f_equal. apply filter_ext_elem. intros nd _.
    unfold Spec.passes. by destruct (p nd.1).
Qed.

(** X20.  The degree filters split the nodes: for every integer [k] (given
    as a number or as a string that [int] accepts), [degree_min] with [k + 1]
    and [degree_max] with [k] return disjoint sets whose union is the set of
    all nodes, a node being in the first exactly when more than [k] edge ends
    meet it. *)
Theorem degree_filters_partition (g : graph) (low high : pyval) (k : Z) :
  py_int high = Ok k →
  py_int low = Ok (k + 1)%Z →
  ∃ above upto,
    _filter_by_min_degree g low = Ok above
    ∧ _filter_by_max_degree g high = Ok upto
    ∧ above ∪ upto = node_set g
    ∧ above ∩ upto = ∅
    ∧ ∀ n, n ∈ above ↔ n ∈ node_set g ∧ (k < Z.of_nat (degree g n))%Z.
Proof.
  intros Hhigh Hlow. unfold _filter_by_min_degree, _filter_by_max_degree.
  rewrite Hhigh, Hlow.
  set (pmin := λ node, (k + 1 <=? Z.of_nat (degree g node))%Z).
  set (pmax := λ node, (Z.of_nat (degree g node) <=? k)%Z).
  change (select_nodes g (λ node _, Ok (k + 1 <=? Z.of_nat (degree g node))%Z))
    with (select_nodes g (λ node _, Ok (pmin node))).
  change (select_nodes g (λ node _, Ok (Z.of_nat (degree g node) <=? k)%Z))
    with (select_nodes g (λ node _, Ok (pmax node))).
  rewrite (degree_filter_test g pmin), (degree_filter_test g pmax).
  eexists. eexists. split; [reflexivity|]. split; [reflexivity|].
  assert (Hin : ∀ (p : string → bool) n,
             n ∈ (list_to_set (map fst (filter (λ nd : string * dict,
                                                  p nd.1 = true) (nodes g)))
                  : gset string)
             ↔ n ∈ node_set g ∧ p n = true).
  { intros p n. unfold node_set.
    rewrite !elem_of_list_to_set, !list_elem_of_fmap. split.
    - intros (nd & -> & [Hp Hnd]%list_elem_of_filter).
      split; [by exists nd | done].
    - intros [(nd & -> & Hnd) Hp]. exists nd. split; [done|].
      by apply list_elem_of_filter. }
  split; [|split].
  - apply set_eq. intros n. rewrite elem_of_union, (Hin pmin), (Hin pmax).
    unfold pmin, pmax. rewrite !Z.leb_le.
    split; [tauto|]. intros Hn.
    destruct (Z.le_gt_cases (k + 1) (Z.of_nat (degree g n))); [by left|].
    right. split; [done | lia].
  - apply set_eq. intros n.
    rewrite elem_of_intersection, (Hin pmin), (Hin pmax).
    unfold pmin, pmax. rewrite !Z.leb_le, elem_of_empty. lia.
  - intros n. rewrite (Hin pmin). unfold pmin. rewrite Z.leb_le.
    split; intros [? ?]; (split; [done | lia]).
Qed.

(** Degrees in the path graph: only the middle node has more than one
    neighbour. *)
Lemma degree_filters_partition_witness :
  ∃ above upto,
    _filter_by_min_degree path_graph (VStr "2") = Ok above
    ∧ _filter_by_max_degree path_graph (VInt 1) = Ok upto
    ∧ above = {["t2"]}
    ∧ above ∪ upto = node_set path_graph.
Proof.
  destruct (degree_filters_partition path_graph (VStr "2") (VInt 1) 1)
    as (above & upto & Hmin & Hmax & Hunion & _);
    [reflexivity | vm_compute; reflexivity |].
  exists above, upto. split; [exact Hmin|]. split; [exact Hmax|].
  split; [|exact Hunion].
  vm_compute in Hmin. by injection Hmin as <-.
Defined.

(** ** The [database_info] of built graphs *)

Lemma add_entity_graph_attr (entity_type : string) (include_metadata : bool)
    (st st' : graph * entity_map_t) (entity : pyval) :
  add_entity entity_type include_metadata st entity = Ok st' →
  graph_attr st'.1 = graph_attr st.1.
Proof.
  intros Hrun. unfold add_entity in Hrun. bind_inv Hrun.
  destruct (truthy a); simpl in Hrun; [|by injection Hrun as <-].
  bind_inv Hrun. rename a0 into key.
  destruct entity as [| | | | |d]; try discriminate.
  bind_inv Hrun. injection Hrun as <-. rename a0 into g'.
  by apply _add_node_spec in Ha1 as (attrs & -> & _).
Qed.

Lemma node_pass_graph_attr (database : dict) (include_metadata : bool) st :
  foldM (add_entities database include_metadata) (empty_graph, []) entity_types
  = Ok st →
  graph_attr st.1 = [].
Proof.
  apply (foldM_invariant (λ st : graph * entity_map_t, graph_attr st.1 = []));
    [|done].
  intros acc entity_type acc' _ Hacc Hrun. unfold add_entities in Hrun.
  destruct (assoc_get entity_type database) as [entities|];
    [|by injection Hrun as <-].
  bind_inv Hrun. bind_inv Hrun. revert Hacc Hrun.
  apply (foldM_invariant (λ st : graph * entity_map_t, graph_attr st.1 = [])).
  intros st0 entity st1 _ Hst0 Hstep.
  by rewrite (add_entity_graph_attr _ _ _ _ _ Hstep).
Qed.

Lemma build_graph_graph_attr (database : dict) (include_metadata : bool)
    (g : graph) :
  build_graph database include_metadata = Ok g →
  if include_metadata then
    ∃ md, dict_get_default database "_metadata" (VDict []) = VDict md
          ∧ graph_attr g
            = [("database_info",
                VDict
                  [("filename", dict_get_default md "filename" (VStr "unknown"));
                   ("loaded_at", dict_get_default md "loaded_at" (VStr ""));
                   ("entity_counts",
                    dict_get_default md "entity_counts" (VDict []));
                   ("title", dict_get_default database "title" (VStr ""));
                   ("description",
                    dict_get_default database "description" (VStr ""))])]
  else graph_attr g = [].
Proof.
  unfold build_graph. intros H. bind_inv H. destruct a as [g0 em].
  bind_inv H. rename a into g1. cbn [fst snd] in Ha0.
  pose proof (node_pass_graph_attr _ _ _ Ha) as Hattr0. cbn [fst] in Hattr0.
  pose proof (node_pass_result _ _ _ Ha) as (_ & Hkeys & _).
  cbn [fst snd] in Hkeys.
  rewrite _add_relationships_insertions in Ha0. bind_inv Ha0.
  injection Ha0 as <-. rename a into log.
  assert (Hattr1 : graph_attr (Spec.apply_insertions g0 log) = []).
  { rewrite <- Hattr0. apply nodes_apply_insertions.
    eapply Forall_impl; [exact (all_insertions_known em log Ha1)|].
    intros ins [Hs Ht]. split; by apply Hkeys. }
  destruct include_metadata; [|by injection H as <-].
  unfold _add_graph_metadata in H.
  destruct (dict_get_default database "_metadata" (VDict [])) as [| | | | |md];
    try discriminate.
  exists md. split; [done|]. cbn [py_get] in H. rewrite !bind_Ok in H.
  injection H as <-. cbn [graph_attr]. by rewrite Hattr1.
Qed.

Lemma combine_databases_info (databases : list (string * dict)) (out : dict) :
  combine_databases databases = Ok out →
  ∃ counts : dict,
    dict_get_default out "_metadata" (VDict [])
    = VDict [("combined_from", VList (map (λ src, VStr src.1) databases));
             ("entity_counts", VDict counts)]
    ∧ assoc_get "title" out = None
    ∧ assoc_get "description" out = None
    ∧ ∀ entity_type, entity_type ∈ entity_types →
        assoc_get entity_type counts
        = match Spec.merged databases entity_type with
          | [] => None
          | kept => Some (VInt (Z.of_nat (length kept)))
          end.
Proof.
  unfold combine_databases. intros Hrun. bind_inv Hrun. injection Hrun as <-.
  rename a into st.
  destruct (combine_databases_counted _ _ Ha) as [Hkeys Hcount].
  assert (Habsent : ∀ k, k ∉ entity_types →
                         assoc_get k (map (λ tl, (tl.1, VList tl.2)) (combined st))
                         = None).
  { intros k Hk. apply assoc_get_None.
    by rewrite (keys_map_values VList), Hkeys. }
  eexists. unfold dict_get_default. rewrite !assoc_get_app.
  rewrite !Habsent by (apply (bool_decide_unpack _); reflexivity).
  split; [reflexivity|]. split; [reflexivity|]. split; [reflexivity|].
  intros t Ht.
  rewrite (assoc_get_map_values (λ n, VInt (Z.of_nat n))), Hcount.
  destruct (combine_databases_step t databases _ _ [] Ht Ha
              (combine_init_state t Ht)) as [Hc _].
  unfold combined_of. rewrite Hc. simpl. fold (Spec.merged databases t).
  rewrite length_map. by destruct (Spec.merged databases t).
Qed.

(** X21.  The only graph attribute a build writes is [database_info], and
    only with metadata: its [filename], [loaded_at] and [entity_counts] come
    from the database's [_metadata] and its [title] and [description] from
    the database, each with its default.  For a combined graph this means:
    the file name is ['unknown'], [loaded_at], [title] and [description] are
    empty, and [entity_counts] gives for each entity type the number of
    entities kept by the merge. *)
Theorem built_graph_database_info :
  (∀ (database : dict) (g : graph),
     build_graph database false = Ok g → graph_attr g = [])
  ∧ (∀ (database : dict) (g : graph),
       build_graph database true = Ok g →
       ∃ md, dict_get_default database "_metadata" (VDict []) = VDict md
             ∧ graph_attr g
               = [("database_info",
                   VDict
                     [("filename",
                       dict_get_default md "filename" (VStr "unknown"));
                      ("loaded_at", dict_get_default md "loaded_at" (VStr ""));
                      ("entity_counts",
                       dict_get_default md "entity_counts" (VDict []));
                      ("title", dict_get_default database "title" (VStr ""));
                      ("description",
                       dict_get_default database "description" (VStr ""))])])
  ∧ (∀ (loaded : list (string * dict)) (databases : option (list string))
       (g : graph),
       Analyzer.build_combined_graph loaded databases = Ok g →
       ∃ counts : dict,
         graph_attr g
         = [("database_info",
             VDict [("filename", VStr "unknown"); ("loaded_at", VStr "");
                    ("entity_counts", VDict counts);
                    ("title", VStr ""); ("description", VStr "")])]
         ∧ ∀ entity_type, entity_type ∈ entity_types →
             assoc_get entity_type counts
             = match Spec.merged
                       (Analyzer.select_databases loaded
                          match databases with
                          | Some names => names
                          | None => keys loaded
                          end) entity_type
               with
               | [] => None
               | kept => Some (VInt (Z.of_nat (length kept)))
               end).
Proof.
  split; [|split].
  - intros database g H. exact (build_graph_graph_attr database false g H).
  - intros database g H. exact (build_graph_graph_attr database true g H).
  - intros loaded databases g H. unfold Analyzer.build_combined_graph in H.
    bind_inv H. rename a into combined_data.
    destruct (combine_databases_info _ _ Ha)
      as (counts & Hmeta & Htitle & Hdesc & Hcounts).
    destruct (build_graph_graph_attr combined_data true g H)
      as (md & Hmd & Hattr).
    rewrite Hmeta in Hmd. injection Hmd as <-.
    exists counts. split; [|exact Hcounts].
    rewrite Hattr. unfold dict_get_default at 4 5. rewrite Htitle, Hdesc.
    reflexivity.
Qed.

(** The combined graph of the sources [A] and [B] records three
    vehicles. *)
Lemma built_graph_database_info_witness :
  ∃ g counts,
    Analyzer.build_combined_graph [("A", source_a); ("B", source_b)] None = Ok g
    ∧ graph_attr g
      = [("database_info",
          VDict [("filename", VStr "unknown"); ("loaded_at", VStr "");
                 ("entity_counts", VDict counts);
                 ("title", VStr ""); ("description", VStr "")])]
    ∧ counts = [("vehicles", VInt 3)].
Proof.
  eexists. eexists. split; [vm_compute; reflexivity|].
  edestruct (proj2 (proj2 built_graph_database_info)
               [("A", source_a); ("B", source_b)] None)
    as (counts & Hattr & _); [vm_compute; reflexivity|].
  split; [reflexivity | reflexivity].
Defined.
